(** * wtf-peewee: forms generated from Peewee models, and their persistence

    A shallow embedding of [wtfpeewee/orm.py] (the schema converter) and
    [wtfpeewee/forms.py] (the save coordinator), with the properties the
    specification states about them.

    Peewee and WTForms are libraries the code consumes.  Their behaviour is
    embedded only as far as the two modules observe it, and each such
    definition says which library behaviour it stands for. *)

From Stdlib Require Import ZArith Lia.
From stdpp Require Import gmap strings pretty list fin_maps.

Local Open Scope string_scope.
Local Open Scope list_scope.
Local Open Scope Z_scope.

(** ** Python values *)

(** The values that form data and model attributes hold. *)
Inductive value : Type :=
  | VNone
  | VBool (b : bool)
  | VInt (z : Z)
  | VStr (s : string).

#[global] Instance value_eq_dec : EqDecision value.
Proof. solve_decision. Defined.

(** Python truthiness ([if x:]). *)
Definition truthy (v : value) : bool :=
  match v with
  | VNone => false
  | VBool b => b
  | VInt z => negb (z =? 0)
  | VStr s => negb (String.eqb s "")
  end.

(** [bool] is a subclass of [int] in Python: [True == 1], [False == 0], and
    both hash alike, so a bool finds an int key in a dict. *)
Definition as_int (v : value) : option Z :=
  match v with
  | VInt z => Some z
  | VBool b => Some (if b then 1 else 0)
  | _ => None
  end.

(** Python [==] on these values. *)
Definition py_eqb (a b : value) : bool :=
  match as_int a, as_int b with
  | Some x, Some y => x =? y
  | None, None => bool_decide (a = b)
  | _, _ => false
  end.

(** ['{}'.format(v)] *)
Definition py_str (v : value) : string :=
  match v with
  | VNone => "None"
  | VBool true => "True"
  | VBool false => "False"
  | VInt z => pretty z
  | VStr s => s
  end.

(** ** Exceptions and the state-and-exception monad *)

Inductive exn : Type :=
  | KeyError (key : string)
  | ValueError (msg : string)
  | AttributeError (msg : string)
  | IndexError (msg : string).

Inductive outcome (A : Type) : Type :=
  | Ok (a : A)
  | Raise (e : exn).
Arguments Ok {A} a.
Arguments Raise {A} e.

(** ** The save coordinator ([wtfpeewee/forms.py])

    What the embedding takes from Peewee and WTForms:
    - primary keys are integers the database hands out from a per-table
      sequence; a rollback does not wind the sequence back;
    - an UPDATE or DELETE whose key matches no row changes nothing, and a
      DELETE removes the one row (cascades of the schema are not embedded);
    - a model instance is true in [if subobj:];
    - [form.populate_obj] sets one attribute per ordinary field and
      [form.data] maps each ordinary field to its data; the names looked up in
      it ([pk_name], the foreign key's name, [delete_]) are names of ordinary
      fields. *)

Module Forms.

(** *** Model metadata, as far as [save_inlines] reads it *)

Record model_class := {
  model_name : string;             (* the table *)
  primary_key : string;            (* [_meta.primary_key.name] *)
  fields : list string;            (* names of all fields, key included *)
  defaults : gmap string value;    (* [_meta.get_default_dict()] *)
}.

(** A [ForeignKeyField] of the child model pointing at the parent. *)
Record foreign_key := {
  name : string;                   (* attribute of the child holding the link *)
  fk_model_class : model_class;    (* [foreign_key_field.model_class]: the child model *)
  related_name : string;           (* the parent's attribute listing its children *)
}.

(** A model instance in memory. *)
Record instance := {
  inst_model : model_class;
  attrs : gmap string value;
}.

Definition getattr (o : instance) (a : string) : value :=
  default VNone (attrs o !! a).

Definition setattr (o : instance) (a : string) (v : value) : instance :=
  {| inst_model := inst_model o; attrs := <[a := v]> (attrs o) |}.

Definition _get_pk_value (o : instance) : value :=
  getattr o (primary_key (inst_model o)).

(** [submodel()]: a fresh instance holding the declared defaults. *)
Definition new_instance (m : model_class) : instance :=
  {| inst_model := m; attrs := defaults m |}.

(** *** The database *)

(** A stored row maps column names to values; the integer key is kept apart. *)
Abbreviation row := (gmap string value).
Abbreviation table_rows := (gmap (string * Z) row).

(** SQL statements issued, in order (a trace kept beside the data). *)
Inductive stmt : Type :=
  | SSelect (table fk : string) (parent_pk : value)
  | SInsert (table : string) (k : Z)
  | SUpdate (table : string) (pk : value)
  | SDelete (table : string) (pk : value)
  | SBegin
  | SCommit
  | SRollback.

Record db := {
  rows : table_rows;               (* (table, key) -> row *)
  seqs : gmap string Z;            (* per table: the next key to hand out *)
  txn : list table_rows;           (* open transaction scopes, innermost first *)
  log : list stmt;
}.

Definition M (A : Type) : Type := db → outcome A * db.

Definition ret {A} (a : A) : M A := λ s, (Ok a, s).
Definition raise {A} (e : exn) : M A := λ s, (Raise e, s).
Definition bind {A B} (c : M A) (k : A → M B) : M B :=
  λ s, match c s with
       | (Ok a, s') => k a s'
       | (Raise e, s') => (Raise e, s')
       end.

Notation "'let!' x ':=' c 'in' k" := (bind c (λ x, k))
  (at level 10, x name, c at level 100, k at level 200).

(** [for x in l: body(x)] *)
Definition for_each {A} (body : A → M unit) : list A → M unit :=
  fix go (l : list A) : M unit :=
    match l with
    | [] => ret tt
    | x :: l' => let! _ := body x in go l'
    end.

Definition next_id (s : db) (t : string) : Z := default 1 (seqs s !! t).

(** A column read from a row; SQL NULL is [None]. *)
Definition col (r : row) (c : string) : value := default VNone (r !! c).

(** The columns an instance writes: its attributes that are fields of the
    model, the key left out ([field_dict.pop(pk_field.name)]). *)
Definition field_dict (o : instance) : row :=
  filter (λ kv, kv.1 ∈ fields (inst_model o) ∧ kv.1 ≠ primary_key (inst_model o))
         (attrs o).

(** An instance built from a selected row: every field of the model is set. *)
Definition load (m : model_class) (k : Z) (r : row) : instance :=
  {| inst_model := m;
     attrs := <[primary_key m := VInt k]>
                (list_to_map ((λ f, (f, col r f)) <$> fields m)) |}.

(** [Model.save()]: INSERT when the key is [None] (the database hands out the
    next key of the table and the instance receives it), otherwise
    UPDATE ... WHERE key = pk, which sets the instance's columns on the row if
    there is one and touches nothing if there is none. *)
Definition save (o : instance) : M instance :=
  λ s,
    let t := model_name (inst_model o) in
    match _get_pk_value o with
    | VNone =>
        let k := next_id s t in
        (Ok (setattr o (primary_key (inst_model o)) (VInt k)),
         {| rows := <[(t, k) := field_dict o]> (rows s);
            seqs := <[t := k + 1]> (seqs s);
            txn := txn s;
            log := log s ++ [SInsert t k] |})
    | pk =>
        (Ok o,
         {| rows := match as_int pk with
                    | Some k =>
                        match rows s !! (t, k) with
                        | Some old => <[(t, k) := field_dict o ∪ old]> (rows s)
                        | None => rows s
                        end
                    | None => rows s
                    end;
            seqs := seqs s;
            txn := txn s;
            log := log s ++ [SUpdate t pk] |})
    end.

(** [Model.delete_instance()]: DELETE ... WHERE key = pk, this row only.
    What the database removes besides under an ON DELETE CASCADE of the
    schema is no statement of the program and is not part of this state. *)
Definition delete_instance (o : instance) : M unit :=
  λ s,
    let t := model_name (inst_model o) in
    (Ok tt,
     {| rows := match as_int (_get_pk_value o) with
                | Some k => delete (t, k) (rows s)
                | None => rows s
                end;
        seqs := seqs s;
        txn := txn s;
        log := log s ++ [SDelete t (_get_pk_value o)] |}).

(** [{o._get_pk_value(): o for o in getattr(parent_obj, related_name)}]:
    the children whose link column equals the parent's key, as selected at
    this moment, by key. *)
Definition existing_of (rs : table_rows) (fk : foreign_key) (parent_pk : value)
    (k : Z) : option instance :=
  let m := fk_model_class fk in
  match rs !! (model_name m, k) with
  | Some r => if py_eqb (col r (name fk)) parent_pk then Some (load m k r) else None
  | None => None
  end.

Definition select_related (fk : foreign_key) (parent_pk : value)
    : M (Z → option instance) :=
  λ s,
    (Ok (existing_of (rows s) fk parent_pk),
     {| rows := rows s; seqs := seqs s; txn := txn s;
        log := log s ++ [SSelect (model_name (fk_model_class fk)) (name fk) parent_pk] |}).

(** [key in existing] and [existing[key]] for a Python value used as key. *)
Definition dict_get (existing : Z → option instance) (key : value) : option instance :=
  match as_int key with
  | Some k => existing k
  | None => None
  end.

(** The instances in [existing] are the very objects the loop body populates:
    what [populate_obj] writes to [existing[key]] is there when a later entry
    names the same key. *)
Definition dict_put (existing : Z → option instance) (key : value) (o : instance)
    : Z → option instance :=
  λ k, if bool_decide (as_int key = Some k) then Some o else existing k.

(** [database.atomic()]: entering opens a scope, leaving it normally commits,
    leaving it by an exception restores the rows the scope started from. *)
Definition begin : M unit :=
  λ s, (Ok tt, {| rows := rows s; seqs := seqs s;
                  txn := rows s :: txn s; log := log s ++ [SBegin] |}).

Definition commit (s : db) : db :=
  {| rows := rows s; seqs := seqs s; txn := tail (txn s); log := log s ++ [SCommit] |}.

Definition rollback (s : db) : db :=
  {| rows := default (rows s) (head (txn s)); seqs := seqs s;
     txn := tail (txn s); log := log s ++ [SRollback] |}.

Definition atomic {A} (body : M A) : M A :=
  λ s,
    match (let! _ := begin in body) s with
    | (Ok a, s') => (Ok a, commit s')
    | (Raise e, s') => (Raise e, rollback s')
    end.

(** *** Bound forms *)

(** A processed form: the data of its ordinary fields by name, and its
    [ModelListField]s in field order, each with its foreign key and the
    sub-forms of its entries. *)
#[local] Unset Elimination Schemes.
Inductive form : Type :=
  | Form (data : gmap string value)
         (inline_fields : list (foreign_key * list form)).
#[local] Set Elimination Schemes.

Definition data (f : form) : gmap string value :=
  match f with Form d _ => d end.

Definition inline_fields (f : form) : list (foreign_key * list form) :=
  match f with Form _ l => l end.

(** [form.populate_obj(obj)]: every ordinary field sets its attribute;
    [ModelListField.populate_obj] does nothing. *)
Definition populate_obj (f : form) (obj : instance) : instance :=
  {| inst_model := inst_model obj; attrs := data f ∪ attrs obj |}.

(** [data.get(key)] and [data.get(key, dflt)] *)
Definition data_get (f : form) (key : string) (dflt : value) : value :=
  default dflt (data f !! key).

Definition foreign_child_message (pk : value) : string :=
  "Cannot save data to a foreign child (id " +:+ py_str pk +:+ ").".

(** The body of the loop over [field.entries]; it returns [existing] as the
    entry leaves it. *)
Definition save_entry (save_inlines : form → instance → M unit)
    (foreign_key_field : foreign_key) (parent_pk : value)
    (existing : Z → option instance) (subform : form) : M (Z → option instance) :=
  let submodel := fk_model_class foreign_key_field in
  let pk_name := primary_key submodel in
  match data subform !! pk_name with
  | None => raise (KeyError pk_name)
  | Some VNone =>
      if truthy (data_get subform "delete_" VNone) then ret existing
      else
        let subobj := new_instance submodel in
        let subobj := setattr subobj (name foreign_key_field) parent_pk in
        let subobj := populate_obj subform subobj in
        let! subobj := save subobj in
        let! _ := save_inlines subform subobj in
        ret existing
  | Some pk =>
      match dict_get existing pk with
      | None => raise (ValueError (foreign_child_message pk))
      | Some subobj =>
          if negb (py_eqb (data_get subform (name foreign_key_field) parent_pk) parent_pk)
          then raise (ValueError "Cannot change parentage of a child")
          else if truthy (data_get subform "delete_" VNone)
          then
            let! _ := delete_instance subobj in
            ret existing
          else
            let subobj := populate_obj subform subobj in
            let existing := dict_put existing pk subobj in
            let! subobj := save subobj in
            let! _ := save_inlines subform subobj in
            ret existing
      end
  end.

(** [for x in l: body(x)] where the body works on a shared object. *)
Definition for_each_with {A E} (body : E → A → M E) : list A → E → M E :=
  fix go (l : list A) (e : E) : M E :=
    match l with
    | [] => ret e
    | x :: l' => let! e' := body e x in go l' e'
    end.

(** The body of the loop over [inline_fields]. *)
Definition save_field (save_inlines : form → instance → M unit)
    (parent_pk : value) (field : foreign_key * list form) : M unit :=
  let foreign_key_field := field.1 in
  let pk_name := primary_key (fk_model_class foreign_key_field) in
  (* pks = [d[pk_name] for d in field.data] *)
  if forallb (λ e, bool_decide (is_Some (data e !! pk_name))) field.2
  then
    let! existing := select_related foreign_key_field parent_pk in
    let! _ := for_each_with (save_entry save_inlines foreign_key_field parent_pk)
                field.2 existing in
    ret tt
  else raise (KeyError pk_name).

Fixpoint save_inlines (parent_form : form) (parent_obj : instance) {struct parent_form}
    : M unit :=
  match parent_form with
  | Form _ inline_fields =>
      let parent_pk := _get_pk_value parent_obj in
      for_each (save_field save_inlines parent_pk) inline_fields
  end.

(** [ModelForm.save_to] *)
Definition save_to (self : form) (obj : instance) : M instance :=
  atomic (
    let obj := populate_obj self obj in
    let! obj := save obj in
    let! _ := save_inlines self obj in
    ret obj).

End Forms.

(** ** The schema converter ([wtfpeewee/orm.py]) *)

Module Orm.

(** *** Peewee's field classes *)

(** The classes [orm.py] imports from Peewee, their common base [Field], and
    classes derived from them elsewhere. *)
Inductive field_class : Type :=
  | Field
  | BareField
  | BigIntegerField
  | BlobField
  | BooleanField
  | CharField
  | DateField
  | DateTimeField
  | DecimalField
  | DoubleField
  | FloatField
  | ForeignKeyField
  | IntegerField
  | PrimaryKeyField
  | TextField
  | TimeField
  | TimestampField
  | Subclass (qualname : string) (base : field_class).

#[global] Instance field_class_eq_dec : EqDecision field_class.
Proof. solve_decision. Defined.

(** The class followed by its bases, as Peewee 2 declares them:
    [BigIntegerField], [PrimaryKeyField] and [TimestampField] derive from
    [IntegerField], [DoubleField] from [FloatField], the others from [Field]. *)
Fixpoint mro (c : field_class) : list field_class :=
  c :: match c with
       | Field => []
       | BigIntegerField | PrimaryKeyField | TimestampField => [IntegerField; Field]
       | DoubleField => [FloatField; Field]
       | Subclass _ base => mro base
       | _ => [Field]
       end.

Definition issubclass (c base : field_class) : bool := bool_decide (base ∈ mro c).

Definition class_name (c : field_class) : string :=
  match c with
  | Field => "peewee.Field"
  | BareField => "peewee.BareField"
  | BigIntegerField => "peewee.BigIntegerField"
  | BlobField => "peewee.BlobField"
  | BooleanField => "peewee.BooleanField"
  | CharField => "peewee.CharField"
  | DateField => "peewee.DateField"
  | DateTimeField => "peewee.DateTimeField"
  | DecimalField => "peewee.DecimalField"
  | DoubleField => "peewee.DoubleField"
  | FloatField => "peewee.FloatField"
  | ForeignKeyField => "peewee.ForeignKeyField"
  | IntegerField => "peewee.IntegerField"
  | PrimaryKeyField => "peewee.PrimaryKeyField"
  | TextField => "peewee.TextField"
  | TimeField => "peewee.TimeField"
  | TimestampField => "peewee.TimestampField"
  | Subclass qualname _ => qualname
  end.

(** ['%s' % type(field)] *)
Definition type_repr (c : field_class) : string :=
  "<class '" +:+ class_name c +:+ "'>".

(** A model field, as far as the converter reads it. *)
Record model_field := {
  field_name : string;
  field_type : field_class;                        (* [type(field)] *)
  field_null : bool;
  field_default : value;
  field_choices : option (list (value * string));
  field_verbose_name : value;
  field_help_text : value;
  field_rel_model : string;                        (* of a foreign key: the target *)
  field_wtf_field : bool;                          (* [hasattr(field, 'wtf_field')] *)
}.

Definition isinstance (field : model_field) (c : field_class) : bool :=
  issubclass (field_type field) c.

(** *** Form fields *)

(** The form-field classes the converter instantiates. *)
Inductive form_field_class : Type :=
  | f_TextField
  | f_IntegerField
  | f_TextAreaField
  | f_BooleanField
  | f_DecimalField
  | f_FloatField
  | WPDateField
  | WPDateTimeField
  | WPTimeField
  | HiddenIntegerField
  | SelectChoicesField
  | SelectQueryField
  | ModelSelectField.

#[global] Instance form_field_class_eq_dec : EqDecision form_field_class.
Proof. solve_decision. Defined.

(** [issubclass(cls, f.FormField)]: in [fields.py] only [WPDateTimeField]
    derives from [FormField]. *)
Definition is_FormField (c : form_field_class) : bool :=
  match c with WPDateTimeField => true | _ => false end.

(** What a validator does with a field for which nothing was submitted. *)
Inductive verdict : Type :=
  | Passes
  | Fails (msg : string)                  (* raises [ValidationError] *)
  | Stops (msg : option string).          (* raises [StopValidation] *)

Inductive validator : Type :=
  | Optional
  | Required
  | OtherValidator (id : string) (on_missing : verdict).

Inductive field_filter : Type :=
  | HandleNullFilter
  | OtherFilter (id : string) (fn : value → value).

Inductive coerce_fn : Type :=
  | coerce_int
  | coerce_text_type
  | coerce_float
  | coerce_other (id : string).

Definition handle_null_filter (data : value) : value :=
  if py_eqb data (VStr "") then VNone else data.

Definition apply_filter (f : field_filter) (data : value) : value :=
  match f with
  | HandleNullFilter => handle_null_filter data
  | OtherFilter _ fn => fn data
  end.

(** [for filter in self.filters: self.data = filter(self.data)] *)
Definition apply_filters (fs : list field_filter) (data : value) : value :=
  foldl (λ d f, apply_filter f d) data fs.

(** The keyword arguments handed to a form-field constructor. *)
Record kwargs := {
  kw_label : value;
  kw_validators : list validator;
  kw_filters : option (list field_filter);               (* [None]: the key was popped *)
  kw_default : value;
  kw_description : value;
  kw_choices : option (list (value * string));
  kw_coerce : option coerce_fn;
  kw_allow_blank : option bool;
  kw_query : option (list (value * string));       (* [SelectQueryField(query=...)] *)
  kw_model : option string;                        (* [ModelSelectField(model=...)] *)
}.

(** The entry of [field_args] for one field: the keys it sets. *)
Record field_args := {
  fa_label : option value;
  fa_validators : option (list validator);
  fa_filters : option (list field_filter);
  fa_default : option value;
  fa_description : option value;
  fa_choices : option (list (value * string));
  fa_coerce : option coerce_fn;
  fa_allow_blank : option bool;
}.

Definition no_args : field_args :=
  {| fa_label := None; fa_validators := None; fa_filters := None;
     fa_default := None; fa_description := None; fa_choices := None;
     fa_coerce := None; fa_allow_blank := None |}.

(** An unbound form field: a class with its arguments, or the result of a
    callable the user supplied. *)
Inductive unbound_field : Type :=
  | Widget (cls : form_field_class) (kw : kwargs)
  | FromOverride (field : string) (kw : kwargs)           (* what [overrides[name]] returns *)
  | FromWtfField (model : string) (field : string) (kw : kwargs)
  | FromConverter (cls : field_class) (model : string) (field : string) (kw : kwargs).

Definition kwargs_of (u : unbound_field) : kwargs :=
  match u with
  | Widget _ kw | FromOverride _ kw | FromWtfField _ _ kw | FromConverter _ _ _ kw => kw
  end.

(** *** [ModelConverter] *)

Definition defaults : list (field_class * form_field_class) :=
  [ (BareField, f_TextField);
    (BigIntegerField, f_IntegerField);
    (BlobField, f_TextAreaField);
    (BooleanField, f_BooleanField);
    (CharField, f_TextField);
    (DateField, WPDateField);
    (DateTimeField, WPDateTimeField);
    (DecimalField, f_DecimalField);
    (DoubleField, f_FloatField);
    (FloatField, f_FloatField);
    (PrimaryKeyField, HiddenIntegerField);
    (IntegerField, f_IntegerField);
    (TextField, f_TextAreaField);
    (TimeField, WPTimeField);
    (TimestampField, WPDateTimeField) ].

Definition coerce_defaults : list (field_class * coerce_fn) :=
  [ (BigIntegerField, coerce_int);
    (CharField, coerce_text_type);
    (DoubleField, coerce_float);
    (FloatField, coerce_float);
    (IntegerField, coerce_int);
    (TextField, coerce_text_type) ].

Definition required : list field_class :=
  [CharField; DateTimeField; ForeignKeyField; PrimaryKeyField; TextField].

(** The value stored under a class in [self.converters]. *)
Inductive converter_fn : Type :=
  | handle_foreign_key_fn                 (* [self.handle_foreign_key] *)
  | additional_fn.                        (* a callable from [additional] *)

(** [d.update(other)] on dicts kept in insertion order: a key already there
    keeps its place and takes the new value, a new key goes to the end. *)
Fixpoint dict_set {K V} `{EqDecision K} (d : list (K * V)) (k : K) (v : V)
    : list (K * V) :=
  match d with
  | [] => [(k, v)]
  | (k', v') :: d' => if decide (k' = k) then (k, v) :: d' else (k', v') :: dict_set d' k v
  end.

Definition dict_update {K V} `{EqDecision K} (d other : list (K * V)) : list (K * V) :=
  foldl (λ acc kv, dict_set acc kv.1 kv.2) d other.

Fixpoint dict_lookup {K V} `{EqDecision K} (d : list (K * V)) (k : K) : option V :=
  match d with
  | [] => None
  | (k', v) :: d' => if decide (k' = k) then Some v else dict_lookup d' k
  end.

Record ModelConverter := {
  converters : list (field_class * converter_fn);
  coerce_settings : list (field_class * coerce_fn);
  overrides : list string;                (* the names [overrides] has a callable for *)
}.

(** [ModelConverter.__init__] *)
Definition new_converter (additional : list field_class)
    (additional_coerce : list (field_class * coerce_fn))
    (overrides : list string) : ModelConverter :=
  {| converters :=
       dict_update [(ForeignKeyField, handle_foreign_key_fn)]
                   ((λ c, (c, additional_fn)) <$> additional);
     coerce_settings := dict_update coerce_defaults additional_coerce;
     overrides := overrides |}.

Definition set_allow_blank (kw : kwargs) (b : option bool) : kwargs :=
  {| kw_label := kw_label kw; kw_validators := kw_validators kw;
     kw_filters := kw_filters kw; kw_default := kw_default kw;
     kw_description := kw_description kw; kw_choices := kw_choices kw;
     kw_coerce := kw_coerce kw; kw_allow_blank := b;
     kw_query := kw_query kw; kw_model := kw_model kw |}.

(** [handle_foreign_key]; the name of the returned [FieldInfo] is [field.name]. *)
Definition handle_foreign_key (field : model_field) (kw : kwargs) : unbound_field :=
  let kw := if field_null field then set_allow_blank kw (Some true) else kw in
  match field_choices field with
  | Some query =>
      Widget SelectQueryField
        {| kw_label := kw_label kw; kw_validators := kw_validators kw;
           kw_filters := kw_filters kw; kw_default := kw_default kw;
           kw_description := kw_description kw; kw_choices := kw_choices kw;
           kw_coerce := kw_coerce kw; kw_allow_blank := kw_allow_blank kw;
           kw_query := Some query; kw_model := kw_model kw |}
  | None =>
      Widget ModelSelectField
        {| kw_label := kw_label kw; kw_validators := kw_validators kw;
           kw_filters := kw_filters kw; kw_default := kw_default kw;
           kw_description := kw_description kw; kw_choices := kw_choices kw;
           kw_coerce := kw_coerce kw; kw_allow_blank := kw_allow_blank kw;
           kw_query := kw_query kw; kw_model := Some (field_rel_model field) |}
  end.

(** The keyword arguments [convert] starts from, [field_args] applied. *)
Definition initial_kwargs (field : model_field) (args : field_args) : kwargs :=
  {| kw_label := default (field_verbose_name field) (fa_label args);
     kw_validators := default [] (fa_validators args);
     kw_filters := Some (default [] (fa_filters args));
     kw_default := default (field_default field) (fa_default args);
     kw_description := default (field_help_text field) (fa_description args);
     kw_choices := fa_choices args;
     kw_coerce := fa_coerce args;
     kw_allow_blank := fa_allow_blank args;
     kw_query := None;
     kw_model := None |}.

Definition append_filter (kw : kwargs) (f : field_filter) : kwargs :=
  {| kw_label := kw_label kw; kw_validators := kw_validators kw;
     kw_filters := (λ fs, fs ++ [f]) <$> kw_filters kw;
     kw_default := kw_default kw; kw_description := kw_description kw;
     kw_choices := kw_choices kw; kw_coerce := kw_coerce kw;
     kw_allow_blank := kw_allow_blank kw;
     kw_query := kw_query kw; kw_model := kw_model kw |}.

Definition append_validator (kw : kwargs) (v : validator) : kwargs :=
  {| kw_label := kw_label kw; kw_validators := kw_validators kw ++ [v];
     kw_filters := kw_filters kw;
     kw_default := kw_default kw; kw_description := kw_description kw;
     kw_choices := kw_choices kw; kw_coerce := kw_coerce kw;
     kw_allow_blank := kw_allow_blank kw;
     kw_query := kw_query kw; kw_model := kw_model kw |}.

(** [kwargs.pop('filters')] *)
Definition pop_filters (kw : kwargs) : kwargs :=
  {| kw_label := kw_label kw; kw_validators := kw_validators kw;
     kw_filters := None;
     kw_default := kw_default kw; kw_description := kw_description kw;
     kw_choices := kw_choices kw; kw_coerce := kw_coerce kw;
     kw_allow_blank := kw_allow_blank kw;
     kw_query := kw_query kw; kw_model := kw_model kw |}.

(** [kwargs.pop('choices', ...)] *)
Definition pop_choices (kw : kwargs) : kwargs :=
  {| kw_label := kw_label kw; kw_validators := kw_validators kw;
     kw_filters := kw_filters kw;
     kw_default := kw_default kw; kw_description := kw_description kw;
     kw_choices := None; kw_coerce := kw_coerce kw;
     kw_allow_blank := kw_allow_blank kw;
     kw_query := kw_query kw; kw_model := kw_model kw |}.

(** Truth of [field.choices]: an empty list and [None] are false. *)
Definition has_choices (field : model_field) : bool :=
  match field_choices field with
  | Some (_ :: _) => true
  | _ => false
  end.

(** The validators and the filter [convert] adds before choosing the class. *)
Definition prepare_kwargs (field : model_field) (args : field_args) : kwargs :=
  let kw := initial_kwargs field args in
  let kw := if field_null field then append_filter kw HandleNullFilter else kw in
  if (field_null field || negb (bool_decide (field_default field = VNone)))
     && negb (has_choices field)
  then append_validator kw Optional
  else if existsb (isinstance field) required
       then append_validator kw Required
       else kw.

(** The loop over [self.defaults].  (The [print] in it, a trace on standard
    output, is left out.) *)
Fixpoint convert_defaults (self : ModelConverter) (field : model_field) (kw : kwargs)
    (table : list (field_class * form_field_class))
    : outcome (string * unbound_field) :=
  match table with
  | [] =>
      Raise (AttributeError
               ("There is not possible conversion for '" +:+ type_repr (field_type field)
                +:+ "'"))
  | (converter, widget) :: table' =>
      if negb (isinstance field converter) then convert_defaults self field kw table'
      else
        let kw := if is_FormField widget then pop_filters kw else kw in
        if has_choices field || bool_decide (is_Some (kw_choices kw)) then
          let choices := default (default [] (field_choices field)) (kw_choices kw) in
          let kw := pop_choices kw in
          match dict_lookup (coerce_settings self) converter, kw_coerce kw with
          | None, None => Ok (field_name field, Widget widget kw)
          | None, Some _ =>
              (* the default of [kwargs.pop('coerce', self.coerce_settings[converter])]
                 is evaluated first *)
              Raise (KeyError (type_repr converter))
          | Some dflt, given =>
              let coerce := default dflt given in
              let allow_blank := default (field_null field) (kw_allow_blank kw) in
              Ok (field_name field,
                  Widget SelectChoicesField
                    {| kw_label := kw_label kw; kw_validators := kw_validators kw;
                       kw_filters := kw_filters kw; kw_default := kw_default kw;
                       kw_description := kw_description kw;
                       kw_choices := Some choices; kw_coerce := Some coerce;
                       kw_allow_blank := Some allow_blank;
                       kw_query := kw_query kw; kw_model := kw_model kw |})
          end
        else Ok (field_name field, Widget widget kw)
  end.

(** The loop over [self.converters]; its [else] branch is the loop above.
    A callable from [additional] is called with the model, the field and the
    keyword arguments, and what it returns is returned as it is:
    [FromConverter] records that call, filed under the field's name as
    [handle_foreign_key] files its own result. *)
Fixpoint convert_converters (self : ModelConverter) (model : string)
    (field : model_field) (kw : kwargs) (cs : list (field_class * converter_fn))
    : outcome (string * unbound_field) :=
  match cs with
  | [] => convert_defaults self field kw defaults
  | (converter, fn) :: cs' =>
      if isinstance field converter then
        match fn with
        | handle_foreign_key_fn => Ok (field_name field, handle_foreign_key field kw)
        | additional_fn =>
            Ok (field_name field, FromConverter converter model (field_name field) kw)
        end
      else convert_converters self model field kw cs'
  end.

(** [ModelConverter.convert] *)
Definition convert (self : ModelConverter) (model : string) (field : model_field)
    (args : field_args) : outcome (string * unbound_field) :=
  let kw := prepare_kwargs field args in
  if bool_decide (field_name field ∈ overrides self)
  then Ok (field_name field, FromOverride (field_name field) kw)
  else if field_wtf_field field
  then Ok (field_name field, FromWtfField model (field_name field) kw)
  else convert_converters self model field kw (converters self).

(** *** Models and generated form classes *)

(** A [ForeignKeyField] of [fk_model_class] that points at the model under
    whose [reverse_rel] it is listed. *)
Record foreign_key_ref := {
  fk_name : string;                     (* [foreign_key_field.name] *)
  fk_model_class : string;              (* the name of [foreign_key_field.model_class] *)
}.

(** [model._meta] and [model.__name__].  Models refer to each other by name:
    the reference graph can be cyclic. *)
Record model_meta := {
  model_name : string;
  sorted_fields : list model_field;
  primary_key_name : string;
  reverse_rel : list (string * foreign_key_ref);   (* related name -> foreign key *)
}.

Inductive form_class : Type :=
  | FormClass (name : string) (fields : list (string * form_member)) (model : string)
with form_member : Type :=
  | Unbound (u : unbound_field)
  | ModelListField (foreign_key_field : foreign_key_ref) (inline_form : form_class)
                   (depth : nat)
  | DeleteFlag.                         (* [f.BooleanField(default=False)] *)

(** A run that may need more steps than it was given: [None] is "not yet
    finished", [Some] carries the value or the exception. *)
Definition run (A : Type) : Type := option (outcome A).

Definition run_bind {A B} (c : run A) (k : A → run B) : run B :=
  match c with
  | None => None
  | Some (Raise e) => Some (Raise e)
  | Some (Ok a) => k a
  end.

(** [sorted(d.items())] for string keys. *)
Fixpoint insert_sorted {V} (kv : string * V) (l : list (string * V)) : list (string * V) :=
  match l with
  | [] => [kv]
  | kv' :: l' => if String.leb kv.1 kv'.1 then kv :: l else kv' :: insert_sorted kv l'
  end.

Definition sorted_items {V} (l : list (string * V)) : list (string * V) :=
  foldr insert_sorted [] l.

(** Truth of an optional list argument: [None] and [[]] are false. *)
Definition given (l : option (list string)) : bool :=
  match l with
  | Some (_ :: _) => true
  | _ => false
  end.

Definition names (l : option (list string)) : list string := default [] l.

(** [[n[len(name)+1:] for n in l if n.startswith(name+'.')]] *)
Definition strip_prefix (name : string) (l : list string) : list string :=
  (λ n, String.substring (S (String.length name))
          (String.length n - S (String.length name)) n)
    <$> filter (λ n, String.prefix (name +:+ ".") n = true) l.

Section Convert.

Variable self : ModelConverter.
Variable schema : gmap string model_meta.

(** The type of [self.form], base class left out. *)
Definition form_fn : Type :=
  model_meta → bool → option (list string) → option (list string) →
  list (string * field_args) → bool → bool → nat → run form_class.

(** The loop over the model's fields. *)
Fixpoint convert_model_fields (model : model_meta)
    (field_args : list (string * field_args)) (model_fields : list model_field)
    (field_dict : list (string * form_member))
    : outcome (list (string * form_member)) :=
  match model_fields with
  | [] => Ok field_dict
  | model_field :: rest =>
      match convert self (model_name model) model_field
                    (default no_args (dict_lookup field_args (field_name model_field))) with
      | Raise e => Raise e
      | Ok (name, field) =>
          convert_model_fields model field_args rest (dict_set field_dict name (Unbound field))
      end
  end.

(** The loop over the inlines. *)
Fixpoint convert_inlines (form : form_fn) (only exclude : option (list string))
    (depth : nat) (inlines : list (string * foreign_key_ref))
    (field_dict : list (string * form_member))
    : run (list (string * form_member)) :=
  match inlines with
  | [] => Some (Ok field_dict)
  | (name, foreign_key_field) :: rest =>
      let sub_only := if given only then Some (strip_prefix name (names only)) else None in
      let sub_exclude := if given exclude then strip_prefix name (names exclude) else [] in
      let sub_exclude :=
        if bool_decide (fk_name foreign_key_field ∈ sub_exclude) then sub_exclude
        else sub_exclude ++ [fk_name foreign_key_field] in
      match schema !! fk_model_class foreign_key_field with
      | None => Some (Raise (KeyError (fk_model_class foreign_key_field)))
      | Some submodel =>
          run_bind
            (form submodel true sub_only (Some sub_exclude)
               [(primary_key_name submodel,
                 {| fa_label := None; fa_validators := Some [Optional];
                    fa_filters := None; fa_default := None; fa_description := None;
                    fa_choices := None; fa_coerce := None; fa_allow_blank := None |})]
               true true (S depth))
            (λ inline_form,
               convert_inlines form only exclude depth rest
                 (dict_set field_dict name
                    (ModelListField foreign_key_field inline_form (S depth))))
      end
  end.

(** [ModelConverter.convert_fields], the method [form] given. *)
Definition convert_fields_with (form : form_fn) (model : model_meta) (allow_pk : bool)
    (only exclude : option (list string)) (field_args : list (string * field_args))
    (include_inlines : bool) (depth : nat) : run (list (string * form_member)) :=
  let model_fields := sorted_fields model in
  let inlines := sorted_items (reverse_rel model) in
  match (if allow_pk then Some model_fields
         else match model_fields with [] => None | _ :: l => Some l end) with
  | None => Some (Raise (IndexError "pop from empty list"))
  | Some model_fields =>
      let model_fields :=
        if given only
        then filter (λ x, field_name x ∈ names only) model_fields
        else if given exclude
        then filter (λ x, field_name x ∉ names exclude) model_fields
        else model_fields in
      let inlines :=
        if given only
        then filter (λ kr, kr.1 ∈ names only) inlines
        else if given exclude
        then filter (λ kr, kr.1 ∉ names exclude) inlines
        else inlines in
      match convert_model_fields model field_args model_fields [] with
      | Raise e => Some (Raise e)
      | Ok field_dict =>
          if include_inlines
          then convert_inlines form only exclude depth inlines field_dict
          else Some (Ok field_dict)
      end
  end.

(** [ModelConverter.form], run for at most [fuel] nested calls. *)
Fixpoint form (fuel : nat) : form_fn :=
  λ model allow_pk only exclude field_args allow_delete include_inlines depth,
    match fuel with
    | O => None
    | S fuel' =>
        run_bind
          (convert_fields_with (form fuel') model allow_pk only exclude field_args
             include_inlines depth)
          (λ field_dict,
             let field_dict :=
               if allow_delete then dict_set field_dict "delete_" DeleteFlag
               else field_dict in
             Some (Ok (FormClass (model_name model +:+ "Form") field_dict
                         (model_name model))))
    end.

(** [ModelConverter.convert_fields] *)
Definition convert_fields (fuel : nat) : model_meta → bool → option (list string) →
    option (list string) → list (string * field_args) → bool → nat →
    run (list (string * form_member)) :=
  convert_fields_with (form fuel).

End Convert.

(** [model_form(model, **kwargs)] with the default converter *)
Definition model_form (schema : gmap string model_meta) (fuel : nat)
    (model : model_meta) (only exclude : option (list string))
    (include_inlines : bool) : run form_class :=
  form (new_converter [] [] []) schema fuel model false only exclude []
       false include_inlines 0%nat.

End Orm.

(** ** A blog: posts and their comments *)

Module Blog.
Import Forms.

Definition Post : model_class :=
  {| model_name := "post"; primary_key := "id";
     fields := ["id"; "title"]; defaults := ∅ |}.

Definition Comment : model_class :=
  {| model_name := "comment"; primary_key := "id";
     fields := ["id"; "post"; "text"]; defaults := ∅ |}.

(** [Comment.post = ForeignKeyField(Post, related_name='comments')] *)
Definition comment_post : foreign_key :=
  {| name := "post"; fk_model_class := Comment; related_name := "comments" |}.

(** Post 1 owns comment 1, post 2 owns comment 2. *)
Definition db0 : db :=
  {| rows := {[ ("post", 1) := {[ "title" := VStr "first" ]};
                ("post", 2) := {[ "title" := VStr "second" ]};
                ("comment", 1) := {[ "post" := VInt 1; "text" := VStr "mine" ]};
                ("comment", 2) := {[ "post" := VInt 2; "text" := VStr "theirs" ]} ]};
     seqs := {[ "post" := 3; "comment" := 3 ]};
     txn := [];
     log := [] |}.

Definition post1 : instance := load Post 1 {[ "title" := VStr "first" ]}.

(** The form of post 1 with one inline entry per given sub-form. *)
Definition post_form (title : string) (comments : list form) : form :=
  Form {[ "title" := VStr title ]} [(comment_post, comments)].

Definition comment_entry (id : value) (text : string) (delete_ : bool) : form :=
  Form {[ "id" := id; "text" := VStr text; "delete_" := VBool delete_ ]} [].

End Blog.

(** ** A shop: categories within categories *)

Module Shop.
Import Orm.

Definition plain_field (name : string) (cls : field_class) : model_field :=
  {| field_name := name; field_type := cls; field_null := false;
     field_default := VNone; field_choices := None;
     field_verbose_name := VNone; field_help_text := VNone;
     field_rel_model := ""; field_wtf_field := false |}.

Definition nullable (f : model_field) : model_field :=
  {| field_name := field_name f; field_type := field_type f; field_null := true;
     field_default := field_default f; field_choices := field_choices f;
     field_verbose_name := field_verbose_name f; field_help_text := field_help_text f;
     field_rel_model := field_rel_model f; field_wtf_field := field_wtf_field f |}.

Definition with_choices (cs : list (value * string)) (f : model_field) : model_field :=
  {| field_name := field_name f; field_type := field_type f; field_null := field_null f;
     field_default := field_default f; field_choices := Some cs;
     field_verbose_name := field_verbose_name f; field_help_text := field_help_text f;
     field_rel_model := field_rel_model f; field_wtf_field := field_wtf_field f |}.

Definition foreign_key_to (name target : string) : model_field :=
  {| field_name := name; field_type := ForeignKeyField; field_null := false;
     field_default := VNone; field_choices := None;
     field_verbose_name := VNone; field_help_text := VNone;
     field_rel_model := target; field_wtf_field := false |}.

(** [class Category(Model): name = CharField();
      parent = ForeignKeyField('self', null=True, related_name='children')] *)
Definition Category : model_meta :=
  {| model_name := "Category";
     sorted_fields := [plain_field "id" PrimaryKeyField; plain_field "name" CharField;
                       nullable (foreign_key_to "parent" "Category")];
     primary_key_name := "id";
     reverse_rel := [("children", {| fk_name := "parent"; fk_model_class := "Category" |})] |}.

Definition Post : model_meta :=
  {| model_name := "Post";
     sorted_fields := [plain_field "id" PrimaryKeyField; plain_field "title" CharField];
     primary_key_name := "id";
     reverse_rel := [("comments", {| fk_name := "post"; fk_model_class := "Comment" |})] |}.

Definition Comment : model_meta :=
  {| model_name := "Comment";
     sorted_fields := [plain_field "id" PrimaryKeyField; foreign_key_to "post" "Post";
                       nullable (plain_field "text" TextField)];
     primary_key_name := "id";
     reverse_rel := [] |}.

Definition schema : gmap string model_meta :=
  {[ "Category" := Category; "Post" := Post; "Comment" := Comment ]}.

End Shop.

(** ** The form fields and widgets ([wtfpeewee/fields.py])

    What the embedding takes from WTForms and Peewee:
    - a field's [process_formdata] receives the submitted strings for the
      field, and is skipped when there are none;
    - [SelectField.pre_validate] raises [ValueError('Not a valid choice')]
      unless [self.data] equals the value of one of [self.choices];
    - [ValidationError] derives from [ValueError];
    - a query is the list of its rows; [query.where(pk << ids)] keeps the rows
      whose key is among [ids], [count()] is their number;
      [query.where(pk == x).get()] returns the row or raises [DoesNotExist];
    - HTML attributes are strings. *)

Module Fields.

(** *** Exceptions *)

Inductive raised : Type :=
  | ValueError (msg : string)
  | TypeError (msg : string)
  | ValidationError (msg : string).

(** [except ValueError:] catches [ValidationError] too. *)
Definition is_ValueError (e : raised) : bool :=
  match e with
  | TypeError _ => false
  | _ => true
  end.

Inductive result (A : Type) : Type :=
  | Returns (a : A)
  | Raises (e : raised).
Arguments Returns {A} a.
Arguments Raises {A} e.

(** *** [StaticAttributesMixin] and [datetime_widget] *)

(** [StaticAttributesMixin.__call__]: the keyword arguments it passes on to
    the next [__call__]. *)
Definition StaticAttributesMixin_call (attributes : list (string * string))
    (kwargs : gmap string string) : gmap string string :=
  foldl (λ kwargs kv,
           match kwargs !! kv.1 with
           | Some curr => <[kv.1 := kv.2 +:+ " " +:+ curr]> kwargs
           | None => kwargs
           end)
        kwargs attributes.

Definition WPTimeField_attributes : list (string * string) := [("class", "time-widget")].
Definition WPDateField_attributes : list (string * string) := [("class", "date-widget")].

(** [kwargs.setdefault(key, value)] *)
Definition setdefault (kwargs : gmap string string) (key val : string)
    : gmap string string :=
  match kwargs !! key with
  | Some _ => kwargs
  | None => <[key := val]> kwargs
  end.

(** [datetime_widget]: the keyword arguments with which the date sub-field
    and then the time sub-field are rendered, after their mixin. *)
Definition datetime_widget (field_id : string) (kwargs : gmap string string)
    : list (gmap string string) :=
  let kwargs := setdefault kwargs "id" field_id in
  let kwargs := setdefault kwargs "class" "" in
  let kwargs := <["class" := default "" (kwargs !! "class") +:+ " datetime-widget"]> kwargs in
  [StaticAttributesMixin_call WPDateField_attributes kwargs;
   StaticAttributesMixin_call WPTimeField_attributes kwargs].

(** *** [StyleableTableWidget] *)

(** A sub-field as the widget reads it; [sf_label] and [sf_html] are
    [text_type(subfield.label)] and [text_type(subfield)]. *)
Record subfield := {
  sf_type : string;
  sf_short_name : string;
  sf_errors : list string;
  sf_label : string;
  sf_html : string;
}.

(** The one-character string holding a double quote. *)
Definition dquote : string := String (Ascii.ascii_of_nat 34) "".

(** The row of a visible sub-field, the hidden fields gathered before it put
    in front of its own rendering. *)
Definition table_row (subfield : subfield) (hidden : string) : string :=
  "<tr class=" +:+ dquote +:+ sf_type subfield +:+ " " +:+ sf_short_name subfield
  +:+ " " +:+ (match sf_errors subfield with [] => "" | _ => "error" end)
  +:+ dquote +:+ "><th>" +:+ sf_label subfield +:+ "<div class=errors>"
  +:+ String.concat "<br>" (sf_errors subfield) +:+ "</div></th><td>"
  +:+ hidden +:+ sf_html subfield +:+ "</td></tr>".

(** The loop over the sub-fields, on [html] and [hidden]. *)
Fixpoint table_rows (subfields : list subfield) (html : list string) (hidden : string)
    : list string * string :=
  match subfields with
  | [] => (html, hidden)
  | subfield :: rest =>
      if bool_decide (sf_type subfield ∈ ["HiddenField"; "CSRFTokenField"])
      then table_rows rest html (hidden +:+ sf_html subfield)
      else table_rows rest (html ++ [table_row subfield hidden]) ""
  end.

(** [StyleableTableWidget.__call__]; [params] is what [html_params] makes of
    the keyword arguments. *)
Definition StyleableTableWidget_call (with_table_tag : bool) (params : string)
    (subfields : list subfield) : string :=
  let html := if with_table_tag then ["<table " +:+ params +:+ ">"] else [] in
  let '(html, hidden) := table_rows subfields html "" in
  let html := if with_table_tag then html ++ ["</table>"] else html in
  let html := if String.eqb hidden "" then html else html ++ [hidden] in
  String.concat "" html.

(** *** [BooleanSelectField] *)

Definition BooleanSelectField_iter_choices (data : value)
    : list (string * string * value) :=
  [("1", "True", data); ("", "False", VBool (negb (truthy data)))].

Definition BooleanSelectField_process_data (val : value) : value :=
  VBool (truthy val).

(** [bool] of a submitted string: true unless it is empty. *)
Definition BooleanSelectField_process_formdata (data : value) (valuelist : list string)
    : value :=
  match valuelist with
  | [] => data
  | v :: _ => VBool (truthy (VStr v))
  end.

(** *** [SelectChoicesField] *)

Record SelectChoicesField := {
  coerce : value → result value;
  choices : list (value * string);
  allow_blank : bool;
  blank_text : string;
}.

(** [SelectChoicesField.__init__] *)
Definition SelectChoicesField_init (coerce : value → result value)
    (choices : list (value * string)) (allow_blank : bool) (blank_text : string)
    : SelectChoicesField :=
  {| coerce := coerce; choices := choices; allow_blank := allow_blank;
     blank_text := if String.eqb blank_text "" then "----------------" else blank_text |}.

(** The choices a generator yields until it is exhausted or raises. *)
Fixpoint yield_choices (self : SelectChoicesField) (data : value)
    (choices : list (value * string)) : list (value * string * bool) * option raised :=
  match choices with
  | [] => ([], None)
  | (val, label) :: rest =>
      match coerce self val with
      | Returns v =>
          let '(items, e) := yield_choices self data rest in
          ((val, label, py_eqb v data) :: items, e)
      | Raises e => ([], Some e)
      end
  end.

Definition SelectChoicesField_iter_choices (self : SelectChoicesField) (data : value)
    : list (value * string * bool) * option raised :=
  let '(items, e) := yield_choices self data (choices self) in
  ((if allow_blank self
    then [(VStr "__None", blank_text self, bool_decide (data = VNone))] else [])
   ++ items, e).

Definition SelectChoicesField_process_data (self : SelectChoicesField) (val : value)
    : value :=
  match val with
  | VNone => VNone
  | _ => match coerce self val with
         | Returns v => v
         | Raises _ => VNone
         end
  end.

Definition SelectChoicesField_process_formdata (self : SelectChoicesField)
    (data : value) (valuelist : list string) : result value :=
  match valuelist with
  | [] => Returns data
  | v :: _ =>
      if String.eqb v "__None" then Returns VNone
      else match coerce self (VStr v) with
           | Returns x => Returns x
           | Raises e =>
               if is_ValueError e
               then Raises (ValueError "Invalid Choice: could not coerce")
               else Raises e
           end
  end.

Definition SelectChoicesField_pre_validate (self : SelectChoicesField) (data : value)
    : result unit :=
  if allow_blank self && bool_decide (data = VNone) then Returns tt
  else if existsb (λ c, py_eqb data c.1) (choices self) then Returns tt
  else Raises (ValueError "Not a valid choice").

(** *** [SelectQueryField] *)

(** The query of a field over rows of type [obj]. *)
Inductive found (obj : Type) : Type :=
  | Found (o : obj)
  | DoesNotExist
  | QueryError (e : raised).
Arguments Found {obj} o.
Arguments DoesNotExist {obj}.
Arguments QueryError {obj} e.

Record SelectQueryField (obj : Type) := {
  query_get : string → found obj;      (* [query.where(pk == x).get()] *)
  query_exists : obj → bool;           (* [query.where(pk == o.get_id()).exists()] *)
  sq_allow_blank : bool;
}.
Arguments query_get {obj} _ _.
Arguments query_exists {obj} _ _.
Arguments sq_allow_blank {obj} _.

(** [self._data] and [self._formdata] *)
Record lazy_data (obj : Type) := {
  _data : option obj;
  _formdata : option string;
}.
Arguments _data {obj} _.
Arguments _formdata {obj} _.

Definition _set_data {obj} (data : option obj) : lazy_data obj :=
  {| _data := data; _formdata := None |}.

Definition get_model {obj} (self : SelectQueryField obj) (pk : string)
    : result (option obj) :=
  match query_get self pk with
  | Found o => Returns (Some o)
  | DoesNotExist => Returns None
  | QueryError e => Raises e
  end.

(** The [data] property: its value and the state it leaves. *)
Definition _get_data {obj} (self : SelectQueryField obj) (st : lazy_data obj)
    : result (option obj * lazy_data obj) :=
  match _formdata st with
  | Some pk =>
      match get_model self pk with
      | Returns m => Returns (m, _set_data m)
      | Raises e => Raises e
      end
  | None => Returns (_data st, st)
  end.

Definition SelectQueryField_process_formdata {obj} (st : lazy_data obj)
    (valuelist : list string) : lazy_data obj :=
  match valuelist with
  | [] => st
  | v :: _ =>
      if String.eqb v "__None" then _set_data None
      else {| _data := None; _formdata := Some v |}
  end.

Definition SelectQueryField_pre_validate {obj} (self : SelectQueryField obj)
    (st : lazy_data obj) : result (lazy_data obj) :=
  match _get_data self st with
  | Raises e => Raises e
  | Returns (Some o, st') =>
      if query_exists self o then Returns st'
      else Raises (ValidationError "Not a valid choice")
  | Returns (None, st') =>
      if sq_allow_blank self then Returns st'
      else Raises (ValidationError "Selection cannot be blank")
  end.

(** *** [SelectMultipleQueryField] *)

Record SelectMultipleQueryField (obj : Type) := {
  query : list obj;                    (* the rows of [self.query] *)
  get_id : obj → Z;
  py_int : string → option Z;          (* [int(s)], [None] where it raises *)
}.
Arguments query {obj} _.
Arguments get_id {obj} _ _.
Arguments py_int {obj} _ _.

Record lazy_list (obj : Type) := {
  m_data : option (list obj);
  m_formdata : option (list Z);
}.
Arguments m_data {obj} _.
Arguments m_formdata {obj} _.

(** [self.query.where(pk << pk_list)] *)
Definition where_in {obj} (self : SelectMultipleQueryField obj) (pk_list : list Z)
    : list obj :=
  filter (λ o, get_id self o ∈ pk_list) (query self).

Definition get_model_list {obj} (self : SelectMultipleQueryField obj) (pk_list : list Z)
    : list obj :=
  match pk_list with
  | [] => []
  | _ => where_in self pk_list
  end.

Definition m_get_data {obj} (self : SelectMultipleQueryField obj) (st : lazy_list obj)
    : list obj * lazy_list obj :=
  match m_formdata st with
  | Some pk_list =>
      let data := get_model_list self pk_list in
      (data, {| m_data := Some data; m_formdata := None |})
  | None => (default [] (m_data st), st)
  end.

(** [self._data = []] comes first, then [list(map(int, valuelist))], which
    raises at the first string that is no integer. *)
Definition SelectMultipleQueryField_process_formdata {obj}
    (self : SelectMultipleQueryField obj) (st : lazy_list obj) (valuelist : list string)
    : option raised * lazy_list obj :=
  match valuelist with
  | [] => (None, st)
  | _ =>
      match mapM (py_int self) valuelist with
      | Some ids => (None, {| m_data := Some []; m_formdata := Some ids |})
      | None =>
          (Some (ValueError "invalid literal for int()"),
           {| m_data := Some []; m_formdata := m_formdata st |})
      end
  end.

Definition SelectMultipleQueryField_pre_validate {obj}
    (self : SelectMultipleQueryField obj) (st : lazy_list obj)
    : result (lazy_list obj) :=
  let '(data, st') := m_get_data self st in
  match data with
  | [] => Returns st'
  | _ =>
      let id_list := get_id self <$> data in
      if bool_decide (length (where_in self id_list) = length id_list)
      then Returns st'
      else Raises (ValidationError "Not a valid choice")
  end.

End Fields.

(** ** Reasoning about the save coordinator *)

Module FormsFacts.
Import Forms.

(** Induction over a form and the sub-forms of its inline entries. *)
Lemma form_ind (P : form → Prop) :
  (∀ d ifs, Forall (λ fld, Forall P fld.2) ifs → P (Form d ifs)) →
  ∀ f, P f.
Proof.
  intros step.
  fix IH 1. intros [d ifs]. apply step.
  induction ifs as [|[fk es] ifs IHifs]; constructor; [|exact IHifs].
  simpl. induction es as [|e es IHes]; constructor; [apply IH | exact IHes].
Qed.

Lemma save_inlines_eq d ifs o :
  save_inlines (Form d ifs) o = for_each (save_field save_inlines (_get_pk_value o)) ifs.
Proof. reflexivity. Qed.

Lemma for_each_cons {A} (body : A → M unit) x l s :
  for_each body (x :: l) s =
    match body x s with
    | (Ok _, s1) => for_each body l s1
    | (Raise e, s1) => (Raise e, s1)
    end.
Proof. reflexivity. Qed.

(** *** Well-formed databases and how a state evolves *)

(** Every stored key was handed out by its table's sequence. *)
Definition wf (s : db) : Prop :=
  ∀ t k, is_Some (rows s !! (t, k)) → k < next_id s t.

(** The same, as a check that runs on a concrete database. *)
Definition wf_check (s : db) : bool :=
  bool_decide (map_Forall (λ tk (_ : row), tk.2 < next_id s tk.1) (rows s)).

Lemma wf_check_correct s : wf_check s = true → wf s.
Proof.
  unfold wf_check. intros H%bool_decide_eq_true t k [r Hr].
  exact (H (t, k) r Hr).
Qed.

(** Statements that read or write rows, as opposed to transaction control. *)
Definition data_stmt (st : stmt) : Prop :=
  match st with
  | SBegin | SCommit | SRollback => False
  | _ => True
  end.

(** [s'] is reached from [s] by saves, deletes and selects: sequences only
    advance, a key below the sequence that is free stays free, and the open
    transaction scopes are the same. *)
Record extends (s s' : db) : Prop := {
  ext_seq : ∀ t, next_id s t ≤ next_id s' t;
  ext_free : ∀ t k, k < next_id s t → rows s !! (t, k) = None → rows s' !! (t, k) = None;
  ext_txn : txn s' = txn s;
  ext_wf : wf s → wf s';
  ext_log : ∃ l, log s' = log s ++ l ∧ Forall data_stmt l;
}.

Lemma extends_refl s : extends s s.
Proof. constructor; try done. exists []. by rewrite app_nil_r. Qed.

Lemma extends_trans s1 s2 s3 : extends s1 s2 → extends s2 s3 → extends s1 s3.
Proof.
  intros [A1 A2 A3 A4 (l1 & A5 & A6)] [B1 B2 B3 B4 (l2 & B5 & B6)]. constructor.
  - intros t. specialize (A1 t). specialize (B1 t). lia.
  - intros t k Hk Hn. apply B2; [specialize (A1 t); lia | by apply A2].
  - congruence.
  - auto.
  - exists (l1 ++ l2). split; [|by apply Forall_app].
    by rewrite B5, A5, app_assoc.
Qed.

(** A computation all of whose runs, normal or not, evolve the state. *)
Definition evolves {A} (c : M A) : Prop :=
  ∀ s r s', c s = (r, s') → extends s s'.

Lemma evolves_ret {A} (a : A) : evolves (ret a).
Proof. intros s r s' [= <- <-]. apply extends_refl. Qed.

Lemma evolves_raise {A} e : evolves (@raise A e).
Proof. intros s r s' [= <- <-]. apply extends_refl. Qed.

Lemma evolves_bind {A B} (c : M A) (k : A → M B) :
  evolves c → (∀ a, evolves (k a)) → evolves (bind c k).
Proof.
  intros Hc Hk s r s'. unfold bind.
  destruct (c s) as [[a|e] s1] eqn:E; intros H.
  - eapply extends_trans; [by eapply Hc | by eapply Hk].
  - injection H as <- <-. by eapply Hc.
Qed.

Lemma evolves_for_each {A} (body : A → M unit) l :
  (∀ x, x ∈ l → evolves (body x)) → evolves (for_each body l).
Proof.
  induction l as [|x l IH]; intros Hb.
  - apply evolves_ret.
  - apply evolves_bind; [apply Hb; left | intros _; apply IH].
    intros y Hy. apply Hb. by right.
Qed.

Lemma evolves_update s t k (r : row) pk :
  is_Some (rows s !! (t, k)) →
  extends s {| rows := <[(t, k) := r]> (rows s); seqs := seqs s; txn := txn s;
               log := log s ++ [SUpdate t pk] |}.
Proof.
  intros Hk. constructor; simpl; try done.
  - intros t' k' _ Hn. rewrite lookup_insert_ne; [done|].
    intros [= <- <-]. rewrite Hn in Hk. by destruct Hk.
  - intros Hwf t' k'. unfold next_id; simpl.
    rewrite lookup_insert. case_decide as Heq; [|apply Hwf].
    injection Heq as <- <-. intros _. by apply Hwf.
  - eexists. split; [done|]. by repeat constructor.
Qed.

Lemma evolves_log s st :
  data_stmt st →
  extends s {| rows := rows s; seqs := seqs s; txn := txn s; log := log s ++ [st] |}.
Proof. intros Hst. constructor; try done. eexists. split; [done|]. by repeat constructor. Qed.

Lemma evolves_save o : evolves (save o).
Proof.
  intros s r s'. unfold save.
  destruct (_get_pk_value o) as [| b | z | str] eqn:Epk; intros [= <- <-].
  - constructor; simpl.
    + intros t. unfold next_id; simpl. rewrite lookup_insert.
      destruct (decide _) as [<-|]; simpl; lia.
    + intros t k Hk Hn. rewrite lookup_insert_ne; [done|].
      intros [= <- <-]. lia.
    + done.
    + intros Hwf t k. unfold next_id; simpl. rewrite !lookup_insert.
      case_decide as Heq.
      * injection Heq as <- <-. rewrite decide_True by done. simpl. lia.
      * intros Hs. specialize (Hwf _ _ Hs). unfold next_id in Hwf.
        destruct (decide _) as [<-|]; simpl; lia.
    + eexists. split; [done|]. by repeat constructor.
  - simpl. destruct (rows s !! _) eqn:E; [|by apply evolves_log].
    apply evolves_update. by rewrite E.
  - simpl. destruct (rows s !! _) eqn:E; [|by apply evolves_log].
    apply evolves_update. by rewrite E.
  - by apply evolves_log.
Qed.

Lemma evolves_delete_instance o : evolves (delete_instance o).
Proof.
  intros s r s' [= <- <-]. constructor; simpl; try done.
  - intros t k Hk Hn. destruct (as_int (_get_pk_value o)); [|done].
    rewrite lookup_delete. by case_decide.
  - intros Hwf t k. unfold next_id; simpl.
    destruct (as_int (_get_pk_value o)); [|apply Hwf].
    rewrite lookup_delete. case_decide; [by intros [? [=]] | apply Hwf].
  - eexists. split; [done|]. by repeat constructor.
Qed.

Lemma evolves_select_related fk v : evolves (select_related fk v).
Proof. intros s r s' [= <- <-]. by apply evolves_log. Qed.

Lemma for_each_with_cons {A E} (body : E → A → M E) x l e s :
  for_each_with body (x :: l) e s =
    match body e x s with
    | (Ok e', s1) => for_each_with body l e' s1
    | (Raise exn, s1) => (Raise exn, s1)
    end.
Proof. reflexivity. Qed.

Lemma evolves_for_each_with {A E} (body : E → A → M E) l e :
  (∀ e' x, x ∈ l → evolves (body e' x)) → evolves (for_each_with body l e).
Proof.
  revert e. induction l as [|x l IH]; intros e Hb.
  - apply evolves_ret.
  - apply evolves_bind; [apply Hb; left | intros e'; apply IH].
    intros e'' y Hy. apply Hb. by right.
Qed.

(** The two branches of [save_entry]: the identifier is unset, or it is set. *)
Lemma save_entry_new rec fk ppk existing subform :
  data subform !! primary_key (fk_model_class fk) = Some VNone →
  save_entry rec fk ppk existing subform =
    if truthy (data_get subform "delete_" VNone) then ret existing
    else
      let! subobj := save (populate_obj subform
                             (setattr (new_instance (fk_model_class fk)) (name fk) ppk)) in
      let! _ := rec subform subobj in
      ret existing.
Proof. intros H. unfold save_entry. by rewrite H. Qed.

Lemma save_entry_set rec fk ppk existing subform pkv :
  data subform !! primary_key (fk_model_class fk) = Some pkv → pkv ≠ VNone →
  save_entry rec fk ppk existing subform =
    match dict_get existing pkv with
    | None => raise (ValueError (foreign_child_message pkv))
    | Some subobj =>
        if negb (py_eqb (data_get subform (name fk) ppk) ppk)
        then raise (ValueError "Cannot change parentage of a child")
        else if truthy (data_get subform "delete_" VNone)
        then
          let! _ := delete_instance subobj in
          ret existing
        else
          let! subobj' := save (populate_obj subform subobj) in
          let! _ := rec subform subobj' in
          ret (dict_put existing pkv (populate_obj subform subobj))
    end.
Proof. intros H Hset. unfold save_entry. rewrite H. by destruct pkv. Qed.

Lemma evolves_save_entry rec fk ppk existing subform :
  (∀ o, evolves (rec subform o)) →
  evolves (save_entry rec fk ppk existing subform).
Proof.
  intros Hrec.
  destruct (data subform !! primary_key (fk_model_class fk)) as [pkv|] eqn:Hpk;
    [|unfold save_entry; rewrite Hpk; apply evolves_raise].
  destruct (decide (pkv = VNone)) as [->|Hset].
  - rewrite save_entry_new by done.
    destruct (truthy _); [apply evolves_ret|].
    apply evolves_bind; [apply evolves_save|]. intros o.
    apply evolves_bind; [apply Hrec|]. intros _. apply evolves_ret.
  - rewrite (save_entry_set _ _ _ _ _ pkv) by done.
    destruct (dict_get existing pkv); [|apply evolves_raise].
    destruct (negb _); [apply evolves_raise|].
    destruct (truthy _).
    + apply evolves_bind; [apply evolves_delete_instance|].
      intros _. apply evolves_ret.
    + apply evolves_bind; [apply evolves_save|]. intros o.
      apply evolves_bind; [apply Hrec|]. intros _. apply evolves_ret.
Qed.

Lemma evolves_save_field rec ppk fld :
  (∀ e o, e ∈ fld.2 → evolves (rec e o)) →
  evolves (save_field rec ppk fld).
Proof.
  intros Hrec. unfold save_field.
  destruct (forallb _ _); [|apply evolves_raise].
  apply evolves_bind; [apply evolves_select_related|].
  intros existing. apply evolves_bind; [|intros _; apply evolves_ret].
  apply evolves_for_each_with.
  intros ex e He. apply evolves_save_entry. intros o. by apply Hrec.
Qed.

Lemma evolves_save_inlines parent_form parent_obj :
  evolves (save_inlines parent_form parent_obj).
Proof.
  revert parent_obj. induction parent_form as [d ifs IH] using form_ind.
  intros o. rewrite save_inlines_eq.
  apply evolves_for_each. intros fld Hfld.
  apply evolves_save_field. intros e o' He.
  rewrite Forall_forall in IH. specialize (IH _ Hfld).
  rewrite Forall_forall in IH. by apply IH.
Qed.

(** A loop that returns normally ran its body on each element, in a state
    reached from the start and leading on to the end. *)
Lemma for_each_elem {A} (body : A → M unit) l x s s' :
  (∀ y, y ∈ l → evolves (body y)) →
  for_each body l s = (Ok tt, s') → x ∈ l →
  ∃ s1 s2, extends s s1 ∧ body x s1 = (Ok tt, s2) ∧ extends s2 s'.
Proof.
  revert s. induction l as [|y l IH]; intros s Hb Hrun Hx; [by inversion Hx|].
  rewrite for_each_cons in Hrun.
  destruct (body y s) as [[[]|e] s1] eqn:E; [|done].
  assert (evolves (for_each body l)) as Hrest.
  { apply evolves_for_each. intros z Hz. apply Hb. by right. }
  apply elem_of_cons in Hx as [->|Hx].
  - exists s, s1. split_and!; [apply extends_refl | done | by eapply Hrest].
  - destruct (IH s1) as (s2 & s3 & H1 & H2 & H3); [|done|done|].
    { intros z Hz. apply Hb. by right. }
    exists s2, s3. split_and!; [|done|done].
    eapply extends_trans; [|done]. eapply Hb; [left|done].
Qed.

(** A loop raises as soon as one element's body raises in every state. *)
Lemma for_each_raises {A} (body : A → M unit) l x s :
  x ∈ l → (∀ s1, ∃ e s2, body x s1 = (Raise e, s2)) →
  ∃ e s', for_each body l s = (Raise e, s').
Proof.
  revert s. induction l as [|y l IH]; intros s Hx Hbad; [by inversion Hx|].
  rewrite for_each_cons.
  apply elem_of_cons in Hx as [->|Hx].
  - destruct (Hbad s) as (e & s2 & ->). eauto.
  - destruct (body y s) as [[[]|e] s1]; [by apply IH | eauto].
Qed.

(** The same for a loop over a shared object on which [P] holds throughout. *)
Lemma for_each_with_elem {A E} (P : E → Prop) (body : E → A → M E) l x e s e' s' :
  (∀ e1 y, y ∈ l → evolves (body e1 y)) →
  (∀ e1 y s1 e2 s2, y ∈ l → P e1 → body e1 y s1 = (Ok e2, s2) → P e2) →
  P e →
  for_each_with body l e s = (Ok e', s') → x ∈ l →
  ∃ e1 s1 e2 s2, P e1 ∧ extends s s1 ∧ body e1 x s1 = (Ok e2, s2) ∧ extends s2 s'.
Proof.
  revert e s. induction l as [|y l IH]; intros e s Hev HP He Hrun Hx; [by inversion Hx|].
  rewrite for_each_with_cons in Hrun.
  destruct (body e y s) as [[ea|exn] sa] eqn:Hbody; [|done].
  assert (evolves (for_each_with body l ea)) as Hrest.
  { apply evolves_for_each_with. intros e1 z Hz. apply Hev. by right. }
  apply elem_of_cons in Hx as [->|Hx].
  - exists e, s, ea, sa. split_and!; [done | apply extends_refl | done | by eapply Hrest].
  - destruct (IH ea sa) as (e1 & s1 & e2 & s2 & H0 & H1 & H2 & H3); try done.
    + intros e1 z Hz. apply Hev. by right.
    + intros e1 z s1 e2 s2 Hz. apply HP. by right.
    + eapply HP; [left | done | done].
    + exists e1, s1, e2, s2. split_and!; try done.
      eapply extends_trans; [|done]. eapply Hev; [left|done].
Qed.

Lemma for_each_with_raises {A E} (P : E → Prop) (body : E → A → M E) l x e s :
  x ∈ l → P e →
  (∀ e1 y s1 e2 s2, y ∈ l → P e1 → body e1 y s1 = (Ok e2, s2) → P e2) →
  (∀ e1 s1, P e1 → ∃ exn s2, body e1 x s1 = (Raise exn, s2)) →
  ∃ exn s', for_each_with body l e s = (Raise exn, s').
Proof.
  revert e s. induction l as [|y l IH]; intros e s Hx He HP Hbad; [by inversion Hx|].
  rewrite for_each_with_cons.
  apply elem_of_cons in Hx as [->|Hx].
  - destruct (Hbad e s He) as (exn & s2 & ->). eauto.
  - destruct (body e y s) as [[ea|exn] sa] eqn:Hbody; [|eauto].
    apply IH; try done.
    + eapply HP; [left | done | done].
    + intros e1 z s1 e2 s2 Hz. apply HP. by right.
Qed.

(** *** The selected children *)

Lemma get_pk_load m k r : _get_pk_value (load m k r) = VInt k.
Proof. unfold _get_pk_value, getattr, load; simpl. by rewrite lookup_insert_eq. Qed.

Lemma dict_get_existing rs fk ppk pkv subobj :
  dict_get (existing_of rs fk ppk) pkv = Some subobj →
  ∃ k r, as_int pkv = Some k ∧
         rs !! (model_name (fk_model_class fk), k) = Some r ∧
         py_eqb (col r (name fk)) ppk = true ∧
         subobj = load (fk_model_class fk) k r.
Proof.
  unfold dict_get, existing_of. destruct (as_int pkv) as [k|]; [|done].
  destruct (rs !! _) as [r|] eqn:E; [|done].
  destruct (py_eqb _ _) eqn:Eq; [|done].
  intros [= <-]. by exists k, r.
Qed.

(** *** What an instance writes *)

Lemma lookup_fields_map (g : string → value) (l : list string) c :
  (list_to_map ((λ f, (f, g f)) <$> l) : gmap string value) !! c
    = if decide (c ∈ l) then Some (g c) else None.
Proof.
  induction l as [|x l IH].
  - rewrite fmap_nil, list_to_map_nil, lookup_empty.
    by rewrite decide_False by apply not_elem_of_nil.
  - rewrite fmap_cons, list_to_map_cons.
    destruct (decide (x = c)) as [->|Hne].
    + rewrite lookup_insert_eq. rewrite decide_True by left. done.
    + rewrite lookup_insert_ne by done. rewrite IH.
      destruct (decide (c ∈ l)) as [Hin|Hnin].
      * rewrite decide_True by (by right). done.
      * rewrite decide_False; [done|]. intros [->|?]%elem_of_cons; done.
Qed.

Lemma lookup_load m k r c :
  attrs (load m k r) !! c
    = if decide (c = primary_key m) then Some (VInt k)
      else if decide (c ∈ fields m) then Some (col r c) else None.
Proof.
  unfold load; simpl. destruct (decide (c = primary_key m)) as [->|Hne].
  - by rewrite lookup_insert_eq.
  - rewrite lookup_insert_ne by done. apply lookup_fields_map.
Qed.

Lemma lookup_field_dict o c :
  field_dict o !! c
    = if decide (c ∈ fields (inst_model o) ∧ c ≠ primary_key (inst_model o))
      then attrs o !! c else None.
Proof.
  unfold field_dict. destruct (decide _) as [Hc|Hc].
  - destruct (attrs o !! c) as [v|] eqn:E.
    + by apply map_lookup_filter_Some.
    + apply map_lookup_filter_None. left. done.
  - apply map_lookup_filter_None. right. intros v _. exact Hc.
Qed.

Lemma col_union (a b : row) c :
  col (a ∪ b) c = match a !! c with Some v => v | None => col b c end.
Proof.
  unfold col. destruct (a !! c) as [v|] eqn:E.
  - by rewrite (lookup_union_Some_l _ _ _ _ E).
  - by rewrite lookup_union_r.
Qed.

Lemma lookup_populate f o c :
  attrs (populate_obj f o) !! c
    = match data f !! c with Some v => Some v | None => attrs o !! c end.
Proof.
  unfold populate_obj; simpl. destruct (data f !! c) as [v|] eqn:E.
  - by rewrite (lookup_union_Some_l _ _ _ _ E).
  - by rewrite lookup_union_r.
Qed.


Lemma save_ok o s : ∃ o', save o s = (Ok o', (save o s).2).
Proof. unfold save. destruct (_get_pk_value o); eauto. Qed.

Lemma get_pk_populate f o v :
  data f !! primary_key (inst_model o) = Some v →
  _get_pk_value (populate_obj f o) = v.
Proof.
  intros H. unfold _get_pk_value, getattr. rewrite lookup_populate; simpl.
  by rewrite H.
Qed.

(** What stays true of [existing] while the entries of a field are processed:
    it has the keys of the selection [ex0] it started from, and each of its
    instances is of the child model and carries its key. *)
Definition children_of (m : model_class) (ex0 ex : Z → option instance) : Prop :=
  ∀ k, match ex k with
       | Some o => is_Some (ex0 k) ∧ inst_model o = m ∧ as_int (_get_pk_value o) = Some k
       | None => ex0 k = None
       end.

Lemma children_of_select rs fk ppk :
  children_of (fk_model_class fk) (existing_of rs fk ppk) (existing_of rs fk ppk).
Proof.
  intros k. destruct (existing_of rs fk ppk k) as [o|] eqn:Ho; [|done].
  split; [done|]. unfold existing_of in Ho.
  destruct (rs !! _) as [r|]; [|done]. destruct (py_eqb _ _); [|done].
  injection Ho as <-. by rewrite get_pk_load.
Qed.

Lemma children_of_dict_get m ex0 ex pkv :
  children_of m ex0 ex → dict_get ex0 pkv = None → dict_get ex pkv = None.
Proof.
  intros H. unfold dict_get. destruct (as_int pkv) as [k|]; [|done].
  specialize (H k). destruct (ex k) as [o|]; [|done].
  intros E. destruct H as [[? H] _]. congruence.
Qed.

Lemma children_of_save_entry rec fk ppk ex0 ex subform s ex' s' :
  children_of (fk_model_class fk) ex0 ex →
  save_entry rec fk ppk ex subform s = (Ok ex', s') →
  children_of (fk_model_class fk) ex0 ex'.
Proof.
  intros Hex.
  destruct (data subform !! primary_key (fk_model_class fk)) as [pkv|] eqn:Hpk;
    [|unfold save_entry; by rewrite Hpk].
  destruct (decide (pkv = VNone)) as [->|Hset].
  - rewrite save_entry_new by done.
    destruct (truthy _); [by intros [= <- <-]|].
    unfold bind. destruct (save _ s) as [[o|?] sa]; [|done].
    destruct (rec subform o sa) as [[[]|?] sb]; [|done]. by intros [= <- <-].
  - rewrite (save_entry_set _ _ _ _ _ pkv) by done.
    destruct (dict_get ex pkv) as [subobj|] eqn:Hget; [|done].
    destruct (negb _); [done|]. destruct (truthy _).
    + unfold bind. destruct (delete_instance subobj s) as [[[]|?] sa]; [|done].
      by intros [= <- <-].
    + unfold bind. destruct (save _ s) as [[o|?] sa]; [|done].
      destruct (rec subform o sa) as [[[]|?] sb]; [|done]. intros [= <- <-].
      intros k. unfold dict_put. unfold dict_get in Hget.
      destruct (as_int pkv) as [k0|] eqn:Hk0; [|done].
      case_bool_decide as Hk; [|apply Hex].
      injection Hk as <-. pose proof (Hex k0) as Hk. rewrite Hget in Hk.
      destruct Hk as (Hin & Hm & _). split_and!; [done | done |].
      rewrite (get_pk_populate subform subobj pkv); [done|]. by rewrite Hm.
Qed.

End FormsFacts.

(** ** Properties of the save coordinator *)

Module FormsSpec.
Import Forms FormsFacts Blog.

(** The body of [save_to], the part inside [with ... atomic()]. *)
Definition save_to_body (self : form) (obj : instance) : M instance :=
  let obj := populate_obj self obj in
  let! obj := save obj in
  let! _ := save_inlines self obj in
  ret obj.

Lemma save_to_eq self obj : save_to self obj = atomic (save_to_body self obj).
Proof. reflexivity. Qed.

Lemma evolves_save_to_body self obj : evolves (save_to_body self obj).
Proof.
  apply evolves_bind; [apply evolves_save|]. intros o.
  apply evolves_bind; [apply evolves_save_inlines|]. intros _. apply evolves_ret.
Qed.

(** A normal return of [save_to] commits: the statements of the parent and of
    all nested collections lie between one BEGIN and its COMMIT, and the
    transaction scopes are as before. *)
Lemma save_to_commits self obj s o s' :
  save_to self obj s = (Ok o, s') →
  txn s' = txn s ∧
  ∃ l, Forall data_stmt l ∧ log s' = log s ++ [SBegin] ++ l ++ [SCommit].
Proof.
  rewrite save_to_eq. unfold atomic, bind, begin.
  destruct (save_to_body _ _ _) as [[a|e] s1] eqn:E; intros [= <- <-].
  apply evolves_save_to_body in E.
  destruct (ext_log _ _ E) as (l & Hl & Hdata). simpl in *.
  split; [by rewrite (ext_txn _ _ E)|].
  exists l. split; [done|]. by rewrite Hl, <- !app_assoc.
Qed.

(** C2. [save_to] populates the parent, saves it and saves all nested
    collections inside one transaction scope: every statement it issues lies
    between one BEGIN and its ROLLBACK when a step raises, and then the stored
    rows are those from before the call, so no partial change of the parent or
    of a descendant persists. *)
Theorem save_to_atomic self obj s e s' :
  save_to self obj s = (Raise e, s') →
  rows s' = rows s ∧ txn s' = txn s ∧
  ∃ l, Forall data_stmt l ∧ log s' = log s ++ [SBegin] ++ l ++ [SRollback].
Proof.
  rewrite save_to_eq. unfold atomic, bind, begin.
  destruct (save_to_body _ _ _) as [[a|e1] s1] eqn:E; intros [= <- <-].
  apply evolves_save_to_body in E.
  destruct (ext_log _ _ E) as (l & Hl & Hdata).
  unfold rollback; simpl in *. rewrite (ext_txn _ _ E); simpl.
  split_and!; [done|done|].
  exists l. split; [done|]. by rewrite Hl, <- !app_assoc.
Qed.

(** The save of post 1 fails at its second comment entry, after the post and
    the first comment were written inside the scope; nothing of it remains. *)
Lemma save_to_atomic_witness :
  let f := post_form "edited"
             [comment_entry (VInt 1) "changed" false;
              comment_entry (VInt 2) "hacked" false] in
  (save_to f post1 db0).1
    = Raise (ValueError "Cannot save data to a foreign child (id 2).") ∧
  In (SUpdate "comment" (VInt 1)) (log (save_to f post1 db0).2) ∧
  rows (save_to f post1 db0).2 = rows db0 ∧
  txn (save_to f post1 db0).2 = txn db0.
Proof.
  intros f. split; [vm_compute; reflexivity|].
  split; [vm_compute; tauto|].
  destruct (save_to_atomic f post1 db0
              (ValueError "Cannot save data to a foreign child (id 2).")
              (save_to f post1 db0).2) as (Hrows & Htxn & _); [|done].
  vm_compute. reflexivity.
Defined.

(** *** Ownership of submitted children *)

(** What makes [save_inlines] reject an entry: an identifier that is set but
    is no key of the children selected for the parent, or a submitted link
    value other than the parent's key. *)
Definition foreign_entry (fk : foreign_key) (parent_pk : value)
    (existing : Z → option instance) (subform : form) : Prop :=
  ∃ pkv, data subform !! primary_key (fk_model_class fk) = Some pkv ∧
         pkv ≠ VNone ∧
         (dict_get existing pkv = None ∨
          py_eqb (data_get subform (name fk) parent_pk) parent_pk = false).

Lemma save_entry_foreign rec fk ppk existing subform s :
  foreign_entry fk ppk existing subform →
  ∃ msg, save_entry rec fk ppk existing subform s = (Raise (ValueError msg), s).
Proof.
  intros (pkv & Hpk & Hset & Hbad).
  rewrite (save_entry_set _ _ _ _ _ pkv) by done.
  destruct (dict_get existing pkv) as [subobj|] eqn:E; [|by eexists].
  destruct Hbad as [|Hne]; [done|]. rewrite Hne. by eexists.
Qed.

(** An entry that is foreign to the children selected for the field stays
    foreign while the loop populates them. *)
Lemma foreign_entry_children fk ppk ex0 ex subform :
  children_of (fk_model_class fk) ex0 ex →
  foreign_entry fk ppk ex0 subform → foreign_entry fk ppk ex subform.
Proof.
  intros Hex (pkv & Hpk & Hset & Hbad). exists pkv. split_and!; [done | done |].
  destruct Hbad as [Hnone|Hne]; [left | by right].
  by eapply children_of_dict_get.
Qed.

Lemma save_field_rejects_foreign_any ppk fk entries subform s :
  subform ∈ entries →
  foreign_entry fk ppk (existing_of (rows s) fk ppk) subform →
  ∃ e s', save_field save_inlines ppk (fk, entries) s = (Raise e, s').
Proof.
  intros Hin Hbad. unfold save_field; simpl.
  destruct (forallb _ _); [|by eexists _, _].
  unfold bind, select_related.
  match goal with
  | |- context [for_each_with ?body entries ?e ?s1] =>
      destruct (for_each_with_raises
                  (children_of (fk_model_class fk) (existing_of (rows s) fk ppk))
                  body entries subform e s1) as (exn & s' & Hrun)
  end.
  - done.
  - apply children_of_select.
  - intros e1 y s1 e2 s2 _ He1 Hrun. by eapply children_of_save_entry.
  - intros e1 s1 He1.
    destruct (save_entry_foreign save_inlines fk ppk e1 subform s1) as [msg ->]; [|eauto].
    by eapply foreign_entry_children.
  - rewrite Hrun. eauto.
Qed.

(** C1 (as the code has it). Whenever an inline field holds an entry whose
    identifier is set and is no key of the parent's children as selected for
    that field, or whose data carries a link value other than the parent's
    key, processing that entry raises [ValueError] before anything is written
    and without descending into its sub-forms, and the save of the field
    raises. *)
Theorem save_field_rejects_foreign ppk fk entries subform s :
  subform ∈ entries →
  foreign_entry fk ppk (existing_of (rows s) fk ppk) subform →
  (∀ rec existing s1,
     children_of (fk_model_class fk) (existing_of (rows s) fk ppk) existing →
     ∃ msg, save_entry rec fk ppk existing subform s1 = (Raise (ValueError msg), s1)) ∧
  (∃ e s', save_field save_inlines ppk (fk, entries) s = (Raise e, s')).
Proof.
  intros Hin Hbad. split.
  - intros rec existing s1 Hex. apply save_entry_foreign.
    by eapply foreign_entry_children.
  - exact (save_field_rejects_foreign_any ppk fk entries subform s Hin Hbad).
Qed.

(** An entry that names its child and carries another parent's key makes
    [save_inlines] raise, in whichever inline field of the form it sits. *)
Lemma save_inlines_rejects_reparenting parent_form parent_obj fk entries subform pkv s :
  (fk, entries) ∈ inline_fields parent_form →
  subform ∈ entries →
  data subform !! primary_key (fk_model_class fk) = Some pkv →
  pkv ≠ VNone →
  py_eqb (data_get subform (name fk) (_get_pk_value parent_obj))
         (_get_pk_value parent_obj) = false →
  ∃ e s', save_inlines parent_form parent_obj s = (Raise e, s').
Proof.
  intros Hfld Hin Hpk Hset Hne. destruct parent_form as [d ifs].
  rewrite save_inlines_eq. eapply for_each_raises; [exact Hfld|].
  intros s1. apply (save_field_rejects_foreign_any _ fk entries subform); [done|].
  exists pkv. split_and!; [done | done | by right].
Qed.

(** Post 1 submits comment 2, which belongs to post 2. *)
Lemma save_field_rejects_foreign_witness :
  let entries := [comment_entry (VInt 1) "changed" false;
                  comment_entry (VInt 2) "hacked" false] in
  ∃ e s', save_field save_inlines (VInt 1) (comment_post, entries) db0 = (Raise e, s').
Proof.
  intros entries.
  apply (save_field_rejects_foreign (VInt 1) comment_post entries
           (comment_entry (VInt 2) "hacked" false) db0).
  - right. left.
  - exists (VInt 2). split_and!; [reflexivity | discriminate | left; reflexivity].
Defined.

(** A new entry (identifier unset) is not checked: flagged for deletion it is
    skipped without an error although it names another parent. *)
Lemma new_entry_with_other_parent_not_rejected :
  let subform := Form {[ "id" := VNone; "post" := VInt 2; "delete_" := VBool true ]} [] in
  data_get subform "post" (VInt 1) = VInt 2 ∧
  save_field save_inlines (VInt 1) (comment_post, [subform]) db0
    = (Ok tt, {| rows := rows db0; seqs := seqs db0; txn := txn db0;
                 log := [SSelect "comment" "post" (VInt 1)] |}).
Proof. split; vm_compute; reflexivity. Qed.

(** *** Creating a child *)

(** Processing an entry whose identifier is unset and whose delete flag is not
    set inserts exactly one row, under the next key of the child table, and
    then saves the entry's own inline collections with the new child as
    parent.  When the entry's data holds no value for the link field, the
    stored link is the parent's key. *)
Lemma save_entry_creates rec fk ppk existing subform s :
  data subform !! primary_key (fk_model_class fk) = Some VNone →
  truthy (data_get subform "delete_" VNone) = false →
  let t := model_name (fk_model_class fk) in
  let k := next_id s t in
  let subobj := populate_obj subform
                  (setattr (new_instance (fk_model_class fk)) (name fk) ppk) in
  save_entry rec fk ppk existing subform s
    = (let! _ := rec subform (setattr subobj (primary_key (fk_model_class fk)) (VInt k)) in
       ret existing)
        {| rows := <[(t, k) := field_dict subobj]> (rows s);
           seqs := <[t := k + 1]> (seqs s);
           txn := txn s;
           log := log s ++ [SInsert t k] |} ∧
  (wf s → rows s !! (t, k) = None) ∧
  (data subform !! name fk = None →
   name fk ∈ fields (fk_model_class fk) →
   name fk ≠ primary_key (fk_model_class fk) →
   field_dict subobj !! name fk = Some ppk).
Proof.
  intros Hpk Hdel t k subobj. split_and!.
  - rewrite save_entry_new by done. rewrite Hdel. unfold bind at 1. unfold save.
    rewrite (get_pk_populate subform _ VNone) by done. done.
  - intros Hwf. destruct (rows s !! (t, k)) eqn:E; [|done].
    assert (k < next_id s t) by (apply Hwf; by rewrite E). unfold k in *. lia.
  - intros Hfk Hin Hne. rewrite lookup_field_dict.
    change (inst_model subobj) with (fk_model_class fk).
    rewrite decide_True by done. unfold subobj. rewrite lookup_populate, Hfk.
    unfold setattr; simpl. by rewrite lookup_insert_eq.
Qed.

(** C3, where the code departs from it.  Post 1 submits a new comment whose
    data names post 2 as its parent: [populate_obj] writes the submitted value
    over the link that was just set, and the one row that is inserted belongs
    to post 2. *)
Theorem new_child_linked_to_other_parent :
  let subform := Form {[ "id" := VNone; "post" := VInt 2; "text" := VStr "x" ]} [] in
  save_field save_inlines (VInt 1) (comment_post, [subform]) db0
    = (Ok tt,
       {| rows := <[("comment", 3) := {[ "post" := VInt 2; "text" := VStr "x" ]}]>
                    (rows db0);
          seqs := <["comment" := 4]> (seqs db0);
          txn := txn db0;
          log := [SSelect "comment" "post" (VInt 1); SInsert "comment" 3] |}).
Proof. vm_compute. reflexivity. Qed.

(** *** Deleting a child *)

(** C4 (as the code has it). For an entry of an inline field whose identifier
    is set and is a key of the parent's children as selected for the field,
    whose data carries no link value other than the parent's key, and whose
    delete flag is set: processing the entry is exactly the DELETE of that
    child (whatever the recursive call would do, it is not made, and nothing
    is populated or saved), and when the save of the field returns the row is
    gone. *)
Theorem save_field_deletes ppk fk entries subform pkv subobj s :
  wf s →
  subform ∈ entries →
  data subform !! primary_key (fk_model_class fk) = Some pkv →
  pkv ≠ VNone →
  dict_get (existing_of (rows s) fk ppk) pkv = Some subobj →
  py_eqb (data_get subform (name fk) ppk) ppk = true →
  truthy (data_get subform "delete_" VNone) = true →
  ∃ k, as_int pkv = Some k ∧
    (∀ rec existing s1,
       children_of (fk_model_class fk) (existing_of (rows s) fk ppk) existing →
       ∃ v, as_int v = Some k ∧
         save_entry rec fk ppk existing subform s1
           = (Ok existing,
              {| rows := delete (model_name (fk_model_class fk), k) (rows s1);
                 seqs := seqs s1;
                 txn := txn s1;
                 log := log s1 ++ [SDelete (model_name (fk_model_class fk)) v] |})) ∧
    (∀ s', save_field save_inlines ppk (fk, entries) s = (Ok tt, s') →
           rows s' !! (model_name (fk_model_class fk), k) = None).
Proof.
  intros Hwf Hin Hpk Hset Hex Hfk Hdel.
  destruct (dict_get_existing _ _ _ _ _ Hex) as (k & r & Hk & Hrow & _ & ->).
  exists k. split; [done|].
  assert (∀ rec existing s1,
    children_of (fk_model_class fk) (existing_of (rows s) fk ppk) existing →
    ∃ v, as_int v = Some k ∧
      save_entry rec fk ppk existing subform s1
        = (Ok existing,
           {| rows := delete (model_name (fk_model_class fk), k) (rows s1);
              seqs := seqs s1;
              txn := txn s1;
              log := log s1 ++ [SDelete (model_name (fk_model_class fk)) v] |}))
    as Hentry.
  { intros rec existing s1 Hchildren.
    rewrite (save_entry_set _ _ _ _ _ pkv) by done.
    pose proof (Hchildren k) as Hk'. unfold dict_get in Hex |- *. rewrite Hk in Hex |- *.
    destruct (existing k) as [o|]; [|congruence].
    destruct Hk' as (_ & Hm & Hpko).
    rewrite Hfk, Hdel. cbn [negb]. exists (_get_pk_value o). split; [done|].
    unfold bind, delete_instance, ret. by rewrite Hpko, Hm. }
  split; [exact Hentry|].
  intros s'. unfold save_field; simpl.
  destruct (forallb _ _); [|done].
  unfold bind at 1. unfold select_related at 1. unfold bind.
  match goal with
  | |- context [for_each_with ?body entries ?e ?s1] =>
      destruct (for_each_with body entries e s1) as [[ex'|exn] sa] eqn:Hrun; [|done]
  end.
  intros [= <-].
  eapply (for_each_with_elem
            (children_of (fk_model_class fk) (existing_of (rows s) fk ppk)))
    in Hrun as (e1 & s1 & e2 & s2 & He1 & H1 & H2 & H3); [| | |apply children_of_select|done].
  2:{ intros e1 y _. apply evolves_save_entry. intros o. apply evolves_save_inlines. }
  2:{ intros e1 y s1 e2 s2 _ He1 Hy. by eapply children_of_save_entry. }
  destruct (Hentry save_inlines e1 s1 He1) as (v & Hv & Heq).
  rewrite Heq in H2. injection H2 as <- <-.
  apply (ext_free _ _ H3); simpl.
  - apply Z.lt_le_trans with (next_id s (model_name (fk_model_class fk))).
    + apply Hwf. by rewrite Hrow.
    + apply (ext_seq _ _ H1).
  - apply lookup_delete_eq.
Qed.

(** Post 1 deletes its comment 1 and adds a new one in the same save. *)
Lemma save_field_deletes_witness :
  let entries := [comment_entry (VInt 1) "" true; comment_entry VNone "new" false] in
  (save_field save_inlines (VInt 1) (comment_post, entries) db0).1 = Ok tt ∧
  rows (save_field save_inlines (VInt 1) (comment_post, entries) db0).2
    !! ("comment", 1) = None.
Proof.
  intros entries. split; [vm_compute; reflexivity|].
  destruct (save_field_deletes (VInt 1) comment_post entries
              (comment_entry (VInt 1) "" true) (VInt 1)
              (load Comment 1 {[ "post" := VInt 1; "text" := VStr "mine" ]}) db0)
    as (k & Hk & _ & Hgone).
  - apply wf_check_correct. vm_compute. reflexivity.
  - left.
  - reflexivity.
  - discriminate.
  - vm_compute. reflexivity.
  - reflexivity.
  - reflexivity.
  - injection Hk as <-. apply Hgone. vm_compute. reflexivity.
Defined.

(** An owned child flagged for deletion whose entry names another parent is
    not deleted: the save is rejected and the row stays. *)
Lemma delete_with_other_parent_rejected :
  let subform := Form {[ "id" := VInt 1; "post" := VInt 2; "delete_" := VBool true ]} [] in
  dict_get (existing_of (rows db0) comment_post (VInt 1)) (VInt 1)
    = Some (load Comment 1 {[ "post" := VInt 1; "text" := VStr "mine" ]}) ∧
  truthy (data_get subform "delete_" VNone) = true ∧
  save_field save_inlines (VInt 1) (comment_post, [subform]) db0
    = (Raise (ValueError "Cannot change parentage of a child"),
       {| rows := rows db0; seqs := seqs db0; txn := txn db0;
          log := [SSelect "comment" "post" (VInt 1)] |}) ∧
  is_Some (rows db0 !! ("comment", 1)).
Proof. split_and!; try (vm_compute; reflexivity). by eexists. Qed.

End FormsSpec.

(** ** Saving the same form a second time *)

Module Resave.
Import Forms FormsFacts Blog.

Section Simulation.

(** The state in which the first save ends. *)
Variable s1 : db.
Hypothesis wf_s1 : wf s1.

(** Column by column, [r2] holds what [r1] holds or what the row holds at the
    end of the first save. *)
Definition rel_row (f r1 r2 : row) : Prop :=
  ∀ c, col r2 c = col r1 c ∨ col r2 c = col f c.

(** The same for the columns two instances are about to write. *)
Definition rel_dict (f d1 d2 : row) : Prop :=
  ∀ c, match d1 !! c, d2 !! c with
       | Some v1, Some v2 => v2 = v1 ∨ v2 = col f c
       | None, None => True
       | _, _ => False
       end.

(** [σ1] is a state of the first save and [σ2] the state of the second save
    at the same point of the form. *)
Record Inv (σ1 σ2 : db) : Prop := {
  inv_rows : ∀ tk f, rows s1 !! tk = Some f →
    ∃ r2, rows σ2 !! tk = Some r2 ∧
      match rows σ1 !! tk with
      | Some r1 => rel_row f r1 r2
      | None => ∀ c, col r2 c = col f c
      end;
  inv_dom : ∀ t k, is_Some (rows σ2 !! (t, k)) →
    is_Some (rows s1 !! (t, k)) ∨ next_id s1 t ≤ k;
  inv_seq : ∀ t, next_id s1 t ≤ next_id σ2 t;
}.

Lemma Inv_proper σ1 σ2 σ1' σ2' :
  rows σ1' = rows σ1 → rows σ2' = rows σ2 → seqs σ2' = seqs σ2 →
  Inv σ1 σ2 → Inv σ1' σ2'.
Proof.
  intros E1 E2 E3 [A B C]. constructor; unfold next_id in *.
  - intros tk f Hf. rewrite E1, E2. by apply A.
  - intros t k. rewrite E2. apply B.
  - intros t. rewrite E3. apply C.
Qed.

Lemma rel_row_union f d1 d2 r1 r2 :
  rel_dict f d1 d2 → rel_row f r1 r2 → rel_row f (d1 ∪ r1) (d2 ∪ r2).
Proof.
  intros Hd Hr c. rewrite !col_union. specialize (Hd c).
  destruct (d1 !! c), (d2 !! c); try done; apply Hr.
Qed.

Lemma rel_dict_refl f d : rel_dict f d d.
Proof. intros c. destruct (d !! c); auto. Qed.

(** Both saves insert. *)
Lemma inv_save_insert o1 o2 σ1 σ2 :
  _get_pk_value o1 = VNone → _get_pk_value o2 = VNone →
  model_name (inst_model o2) = model_name (inst_model o1) →
  wf σ1 → Inv σ1 σ2 → Inv (save o1 σ1).2 (save o2 σ2).2.
Proof.
  intros P1 P2 Hm Hwf [A B C]. unfold save. rewrite P1, P2, Hm. simpl.
  set (t := model_name (inst_model o1)).
  constructor; simpl.
  - intros [t' k'] f Hf.
    assert ((t, next_id σ2 t) ≠ (t', k')) as Hne2.
    { intros [= <- <-]. assert (next_id σ2 t < next_id s1 t) as Hlt
        by (apply wf_s1; by rewrite Hf).
      specialize (C t). lia. }
    rewrite (lookup_insert_ne _ _ _ _ Hne2).
    destruct (A _ _ Hf) as (r2 & Hr2 & Hrel). exists r2. split; [done|].
    destruct (decide ((t, next_id σ1 t) = (t', k'))) as [Heq|Hne1].
    + rewrite <- Heq in *. rewrite lookup_insert_eq.
      assert (rows σ1 !! (t, next_id σ1 t) = None) as Hnone.
      { destruct (rows σ1 !! (t, next_id σ1 t)) eqn:E; [|done].
        assert (next_id σ1 t < next_id σ1 t) by (apply Hwf; by rewrite E). lia. }
      rewrite Hnone in Hrel. intros c. right. apply Hrel.
    + by rewrite lookup_insert_ne.
  - intros t' k'. rewrite lookup_insert. case_decide as Heq; [|apply B].
    injection Heq as <- <-. intros _. right. apply C.
  - intros t'. unfold next_id; simpl. rewrite lookup_insert.
    specialize (C t'). unfold next_id in C.
    destruct (decide (t = t')) as [<-|]; simpl; [|done].
    specialize (C). lia.
Qed.

(** Both saves update the row of the same key. *)
Lemma inv_save_update o1 o2 σ1 σ2 pkv :
  _get_pk_value o1 = pkv → _get_pk_value o2 = pkv → pkv ≠ VNone →
  model_name (inst_model o2) = model_name (inst_model o1) →
  (∀ k f, as_int pkv = Some k →
     rows s1 !! (model_name (inst_model o1), k) = Some f →
     is_Some (rows σ1 !! (model_name (inst_model o1), k)) ∧
     rel_dict f (field_dict o1) (field_dict o2)) →
  Inv σ1 σ2 → Inv (save o1 σ1).2 (save o2 σ2).2.
Proof.
  intros P1 P2 Hset Hm Hk HI.
  assert (∀ o σ, _get_pk_value o = pkv →
    (save o σ).2 =
      {| rows := match as_int pkv with
                 | Some k =>
                     match rows σ !! (model_name (inst_model o), k) with
                     | Some old => <[(model_name (inst_model o), k) := field_dict o ∪ old]> (rows σ)
                     | None => rows σ
                     end
                 | None => rows σ
                 end;
         seqs := seqs σ; txn := txn σ;
         log := log σ ++ [SUpdate (model_name (inst_model o)) pkv] |}) as Hsave.
  { intros o σ Hp. unfold save. rewrite Hp. by destruct pkv. }
  rewrite !Hsave by done. rewrite Hm.
  set (t := model_name (inst_model o1)) in *.
  destruct (as_int pkv) as [k|]; [|by apply (Inv_proper σ1 σ2)].
  destruct HI as [A B C].
  constructor; simpl; [| |done].
  - intros [t' k'] f Hf. destruct (A _ _ Hf) as (r2 & Hr2 & Hrel).
    destruct (decide ((t, k) = (t', k'))) as [Heq|Hne].
    + injection Heq as <- <-.
      destruct (Hk k f eq_refl Hf) as [[old1 Hold1] Hd].
      rewrite Hold1, Hr2. rewrite !lookup_insert_eq. rewrite Hold1 in Hrel.
      eexists. split; [done|]. by apply rel_row_union.
    + exists r2. split.
      * destruct (rows σ2 !! (t, k)); [by rewrite lookup_insert_ne | done].
      * destruct (rows σ1 !! (t, k)); [by rewrite lookup_insert_ne | done].
  - intros t' k'. destruct (rows σ2 !! (t, k)) eqn:E; [|apply B].
    rewrite lookup_insert. case_decide as Heq; [|apply B].
    injection Heq as <- <-. intros _. apply B. by rewrite E.
Qed.

(** The first save inserted the parent, the second updates that row with the
    same columns. *)
Lemma inv_save_insert_update o1 o2 σ1 σ2 :
  _get_pk_value o1 = VNone →
  _get_pk_value o2 = VInt (next_id σ1 (model_name (inst_model o1))) →
  model_name (inst_model o2) = model_name (inst_model o1) →
  field_dict o2 = field_dict o1 →
  wf σ1 → Inv σ1 σ2 → Inv (save o1 σ1).2 (save o2 σ2).2.
Proof.
  intros P1 P2 Hm Hfd Hwf [A B C]. unfold save. rewrite P1, P2, Hm, Hfd. simpl.
  set (t := model_name (inst_model o1)). set (n := next_id σ1 t).
  assert (rows σ1 !! (t, n) = None) as Hnone.
  { destruct (rows σ1 !! (t, n)) eqn:E; [|done].
    assert (n < next_id σ1 t) by (apply Hwf; by rewrite E). unfold n in *. lia. }
  constructor; simpl; [| |done].
  - intros [t' k'] f Hf. destruct (A _ _ Hf) as (r2 & Hr2 & Hrel).
    destruct (decide ((t, n) = (t', k'))) as [Heq|Hne].
    + injection Heq as <- <-. rewrite Hr2, !lookup_insert_eq.
      rewrite Hnone in Hrel.
      eexists. split; [done|]. intros c. rewrite col_union. unfold col at 2.
      destruct (field_dict o1 !! c); [by left | right; apply Hrel].
    + rewrite (lookup_insert_ne _ _ _ _ Hne). exists r2. split; [|done].
      destruct (rows σ2 !! (t, n)); [by rewrite lookup_insert_ne | done].
  - intros t' k'. destruct (rows σ2 !! (t, n)) eqn:E; [|apply B].
    rewrite lookup_insert. case_decide as Heq; [|apply B].
    injection Heq as <- <-. intros _. apply B. by rewrite E.
Qed.

(** Two instances of the same child, one in each save: attribute by
    attribute, the second holds what the first holds or what the row holds at
    the end of the first save. *)
Definition rel_inst (f : row) (m : model_class) (o1 o2 : instance) : Prop :=
  inst_model o1 = m ∧ inst_model o2 = m ∧
  ∀ c, c ≠ primary_key m →
    match attrs o1 !! c, attrs o2 !! c with
    | Some v1, Some v2 => v2 = v1 ∨ v2 = col f c
    | None, None => True
    | _, _ => False
    end.

(** The dicts [existing] of a field in the two saves. *)
Definition rel_existing (fk : foreign_key) (σ0 : db)
    (ex1 ex2 : Z → option instance) : Prop :=
  ∀ k o1 o2, ex1 k = Some o1 → ex2 k = Some o2 →
    k < next_id σ0 (model_name (fk_model_class fk)) ∧
    as_int (_get_pk_value o1) = Some k ∧
    ∃ f, rows s1 !! (model_name (fk_model_class fk), k) = Some f ∧
         rel_inst f (fk_model_class fk) o1 o2.

Lemma rel_inst_load f m k r1 r2 :
  rel_row f r1 r2 → rel_inst f m (load m k r1) (load m k r2).
Proof.
  intros Hrel. split_and!; [done | done |].
  intros c Hc. rewrite !lookup_load.
  destruct (decide (c = primary_key m)); [done|].
  destruct (decide (c ∈ fields m)); [apply Hrel | done].
Qed.

Lemma rel_inst_populate f m subform o1 o2 :
  rel_inst f m o1 o2 →
  rel_inst f m (populate_obj subform o1) (populate_obj subform o2).
Proof.
  intros (M1 & M2 & Hrel). split_and!; [done | done |].
  intros c Hc. rewrite !lookup_populate.
  destruct (data subform !! c); [by left | by apply Hrel].
Qed.

Lemma rel_inst_field_dict f m o1 o2 :
  rel_inst f m o1 o2 → rel_dict f (field_dict o1) (field_dict o2).
Proof.
  intros (M1 & M2 & Hrel) c. rewrite !lookup_field_dict, M1, M2.
  destruct (decide _) as [[_ Hne]|]; [by apply Hrel | done].
Qed.

Lemma rel_existing_select fk ppk1 ppk2 σ1 σ2 :
  wf σ1 → extends σ1 s1 → Inv σ1 σ2 →
  rel_existing fk σ1 (existing_of (rows σ1) fk ppk1) (existing_of (rows σ2) fk ppk2).
Proof.
  intros Hwf Hext [A B C] k o1 o2. unfold existing_of.
  set (t := model_name (fk_model_class fk)).
  destruct (rows σ1 !! (t, k)) as [r1|] eqn:E1; [|done].
  destruct (rows σ2 !! (t, k)) as [r2|] eqn:E2; [|done].
  destruct (py_eqb _ _); [|done]. destruct (py_eqb _ _); [|done].
  intros [= <-] [= <-].
  assert (k < next_id σ1 t) as Hk by (apply Hwf; by rewrite E1).
  split; [done|]. split; [by rewrite get_pk_load|].
  destruct (B t k) as [[f Hf]|Hge]; [by rewrite E2 | |].
  - exists f. split; [done|]. apply rel_inst_load.
    destruct (A _ _ Hf) as (r2' & Hr2 & Hrel). rewrite E1 in Hrel.
    fold t in Hr2. rewrite E2 in Hr2. by injection Hr2 as <-.
  - pose proof (ext_seq _ _ Hext t). lia.
Qed.

Definition sim (c1 c2 : M unit) : Prop :=
  ∀ σ1 σ1' σ2 σ2',
    c1 σ1 = (Ok tt, σ1') → c2 σ2 = (Ok tt, σ2') →
    wf σ1 → extends σ1' s1 → Inv σ1 σ2 → Inv σ1' σ2'.

Lemma sim_for_each {A} (b1 b2 : A → M unit) l σ0 :
  (∀ x, x ∈ l → evolves (b1 x)) →
  (∀ x σ1 σ1' σ2 σ2', x ∈ l → extends σ0 σ1 →
     b1 x σ1 = (Ok tt, σ1') → b2 x σ2 = (Ok tt, σ2') →
     wf σ1 → extends σ1' s1 → Inv σ1 σ2 → Inv σ1' σ2') →
  ∀ σ1 σ1' σ2 σ2', extends σ0 σ1 →
    for_each b1 l σ1 = (Ok tt, σ1') → for_each b2 l σ2 = (Ok tt, σ2') →
    wf σ1 → extends σ1' s1 → Inv σ1 σ2 → Inv σ1' σ2'.
Proof.
  induction l as [|x l IH]; intros Hev Hb σ1 σ1' σ2 σ2' H0 R1 R2 Hwf Hfut HI.
  - injection R1 as <-. injection R2 as <-. done.
  - rewrite for_each_cons in R1, R2.
    destruct (b1 x σ1) as [[[]|e1] σa] eqn:E1; [|done].
    destruct (b2 x σ2) as [[[]|e2] σb] eqn:E2; [|done].
    assert (extends σ1 σa) as Ha by (eapply Hev; [left|done]).
    assert (extends σa σ1') as Hrest.
    { eapply evolves_for_each; [|done]. intros y Hy. apply Hev. by right. }
    apply IH with σa σb; try done.
    + intros y Hy. apply Hev. by right.
    + intros y τ1 τ1' τ2 τ2' Hy. apply Hb. by right.
    + by eapply extends_trans.
    + by apply (ext_wf _ _ Ha).
    + eapply (Hb x σ1 σa σ2 σb); try done; [left|].
      by eapply extends_trans.
Qed.

Lemma sim_save_entry rec fk ppk1 ppk2 ex1 ex2 subform σ0 :
  (∀ o, evolves (rec subform o)) →
  (∀ o1 o2, sim (rec subform o1) (rec subform o2)) →
  rel_existing fk σ0 ex1 ex2 →
  ∀ σ1 ex1' σ1' σ2 ex2' σ2', extends σ0 σ1 →
    save_entry rec fk ppk1 ex1 subform σ1 = (Ok ex1', σ1') →
    save_entry rec fk ppk2 ex2 subform σ2 = (Ok ex2', σ2') →
    wf σ1 → extends σ1' s1 → Inv σ1 σ2 →
    Inv σ1' σ2' ∧ rel_existing fk σ0 ex1' ex2'.
Proof.
  intros Hev IH Hex σ1 ex1' σ1' σ2 ex2' σ2' H0 R1 R2 Hwf Hfut HI.
  assert (extends σ1 σ1') as Hstep.
  { eapply (evolves_save_entry rec fk ppk1 ex1 subform); [exact Hev | exact R1]. }
  destruct (data subform !! primary_key (fk_model_class fk)) as [pkv|] eqn:Hpk;
    [|unfold save_entry in R1; by rewrite Hpk in R1].
  destruct (decide (pkv = VNone)) as [->|Hset].
  - (* a new child in both saves *)
    rewrite save_entry_new in R1 by done. rewrite save_entry_new in R2 by done.
    destruct (truthy _).
    { injection R1 as <- <-. injection R2 as <- <-. done. }
    unfold bind in R1, R2.
    destruct (save_ok (populate_obj subform
                (setattr (new_instance (fk_model_class fk)) (name fk) ppk1)) σ1)
      as [o1 E1].
    destruct (save_ok (populate_obj subform
                (setattr (new_instance (fk_model_class fk)) (name fk) ppk2)) σ2)
      as [o2 E2].
    rewrite E1 in R1. rewrite E2 in R2.
    destruct (rec subform o1 _) as [[[]|?] τ1] eqn:Q1; [|done].
    destruct (rec subform o2 _) as [[[]|?] τ2] eqn:Q2; [|done].
    injection R1 as <- <-. injection R2 as <- <-. split; [|done].
    eapply IH; [exact Q1 | exact Q2 | | done |].
    + eapply ext_wf; [|done]. eapply evolves_save. exact E1.
    + apply inv_save_insert; try done; by apply get_pk_populate.
  - (* a child named by its key *)
    rewrite (save_entry_set _ _ _ _ _ pkv) in R1 by done.
    rewrite (save_entry_set _ _ _ _ _ pkv) in R2 by done.
    destruct (dict_get ex1 pkv) as [sub1|] eqn:D1; [|done].
    destruct (dict_get ex2 pkv) as [sub2|] eqn:D2; [|done].
    unfold dict_get in D1, D2. destruct (as_int pkv) as [k|] eqn:Hk; [|done].
    destruct (Hex k sub1 sub2 D1 D2) as (Hlt & Hkey & f & Hf & Hrel).
    destruct (negb _); [done|]. destruct (negb _); [done|].
    assert (is_Some (rows σ1 !! (model_name (fk_model_class fk), k))) as Hpresent.
    { destruct (rows σ1 !! (model_name (fk_model_class fk), k)) eqn:E; [done|].
      exfalso.
      assert (rows s1 !! (model_name (fk_model_class fk), k) = None); [|congruence].
      apply (ext_free σ1 s1); [by eapply extends_trans | | done].
      pose proof (ext_seq _ _ H0 (model_name (fk_model_class fk))). lia. }
    pose proof Hrel as (M1 & M2 & _).
    destruct (truthy _).
    + (* deleted by the first save: the second cannot find it *)
      exfalso. unfold bind, delete_instance, ret in R1. injection R1 as <- <-.
      assert (rows s1 !! (model_name (fk_model_class fk), k) = None); [|congruence].
      apply (ext_free _ _ Hfut); simpl.
      * pose proof (ext_seq _ _ H0 (model_name (fk_model_class fk))).
        unfold next_id in *; simpl. lia.
      * rewrite M1, Hkey. apply lookup_delete_eq.
    + unfold bind in R1, R2.
      destruct (save_ok (populate_obj subform sub1) σ1) as [o1 E1].
      destruct (save_ok (populate_obj subform sub2) σ2) as [o2 E2].
      rewrite E1 in R1. rewrite E2 in R2.
      destruct (rec subform o1 _) as [[[]|?] τ1] eqn:Q1; [|done].
      destruct (rec subform o2 _) as [[[]|?] τ2] eqn:Q2; [|done].
      injection R1 as <- <-. injection R2 as <- <-.
      assert (_get_pk_value (populate_obj subform sub1) = pkv) as P1
        by (apply get_pk_populate; by rewrite M1).
      assert (_get_pk_value (populate_obj subform sub2) = pkv) as P2
        by (apply get_pk_populate; by rewrite M2).
      split.
      * eapply IH; [exact Q1 | exact Q2 | | done |].
        -- eapply ext_wf; [|done]. eapply evolves_save. exact E1.
        -- apply (inv_save_update _ _ _ _ pkv); try done.
           { simpl. by rewrite M1, M2. }
           intros k' f' Hk' Hf'. rewrite Hk in Hk'. injection Hk' as <-.
           simpl in Hf'. rewrite M1 in Hf'. rewrite Hf in Hf'. injection Hf' as <-.
           split; [simpl; by rewrite M1|].
           apply (rel_inst_field_dict f (fk_model_class fk)).
           by apply rel_inst_populate.
      * intros k' q1 q2. unfold dict_put. rewrite Hk.
        case_bool_decide as Hkk.
        -- injection Hkk as <-. intros [= <-] [= <-]. split; [done|].
           split; [by rewrite P1|].
           exists f. split; [done|]. by apply rel_inst_populate.
        -- apply Hex.
Qed.

Lemma sim_entries rec fk ppk1 ppk2 entries σ0 :
  (∀ e o, e ∈ entries → evolves (rec e o)) →
  (∀ e o1 o2, e ∈ entries → sim (rec e o1) (rec e o2)) →
  ∀ ex1 ex2 σ1 ex1' σ1' σ2 ex2' σ2',
    rel_existing fk σ0 ex1 ex2 → extends σ0 σ1 →
    for_each_with (save_entry rec fk ppk1) entries ex1 σ1 = (Ok ex1', σ1') →
    for_each_with (save_entry rec fk ppk2) entries ex2 σ2 = (Ok ex2', σ2') →
    wf σ1 → extends σ1' s1 → Inv σ1 σ2 → Inv σ1' σ2'.
Proof.
  induction entries as [|e entries IHl];
    intros Hev IH ex1 ex2 σ1 ex1' σ1' σ2 ex2' σ2' Hex H0 R1 R2 Hwf Hfut HI.
  - injection R1 as <- <-. injection R2 as <- <-. done.
  - rewrite for_each_with_cons in R1, R2.
    destruct (save_entry rec fk ppk1 ex1 e σ1) as [[exa|?] σa] eqn:E1; [|done].
    destruct (save_entry rec fk ppk2 ex2 e σ2) as [[exb|?] σb] eqn:E2; [|done].
    assert (extends σ1 σa) as Ha.
    { eapply (evolves_save_entry rec fk ppk1 ex1 e); [|exact E1].
      intros o. apply Hev. left. }
    assert (extends σa σ1') as Hrest.
    { eapply (evolves_for_each_with _ entries); [|exact R1].
      intros ex y Hy. apply evolves_save_entry. intros o. apply Hev. by right. }
    destruct (sim_save_entry rec fk ppk1 ppk2 ex1 ex2 e σ0) with σ1 exa σa σ2 exb σb
      as [HIa Hexa]; try done.
    { intros o. apply Hev. left. }
    { intros o1 o2. apply IH. left. }
    { by eapply extends_trans. }
    eapply (IHl (λ y o Hy, Hev y o (list_elem_of_further _ _ _ Hy))
                (λ y o1 o2 Hy, IH y o1 o2 (list_elem_of_further _ _ _ Hy)));
      [exact Hexa | | exact R1 | exact R2 | | done | done].
    + by eapply extends_trans.
    + by apply (ext_wf _ _ Ha).
Qed.

Lemma sim_save_field rec ppk1 ppk2 fld :
  (∀ e o, e ∈ fld.2 → evolves (rec e o)) →
  (∀ e o1 o2, e ∈ fld.2 → sim (rec e o1) (rec e o2)) →
  sim (save_field rec ppk1 fld) (save_field rec ppk2 fld).
Proof.
  intros Hev IH σ1 σ1' σ2 σ2' R1 R2 Hwf Hfut HI.
  assert (extends σ1 σ1') as Hstep by (by eapply evolves_save_field).
  unfold save_field in R1, R2.
  destruct (forallb _ _); [|done].
  unfold bind at 1 in R1. unfold bind at 1 in R2.
  unfold select_related at 1 in R1. unfold select_related at 1 in R2.
  set (σa := {| rows := rows σ1; seqs := seqs σ1; txn := txn σ1; log := _ |}) in R1.
  set (σb := {| rows := rows σ2; seqs := seqs σ2; txn := txn σ2; log := _ |}) in R2.
  unfold bind in R1, R2.
  destruct (for_each_with _ _ _ σa) as [[ex1'|?] τ1] eqn:Q1; [|done].
  destruct (for_each_with _ _ _ σb) as [[ex2'|?] τ2] eqn:Q2; [|done].
  injection R1 as <-. injection R2 as <-.
  assert (extends σ1 σa) as Ha by (by apply evolves_log).
  eapply (sim_entries rec fld.1 ppk1 ppk2 fld.2 σa Hev IH);
    [ | apply extends_refl | exact Q1 | exact Q2 | by apply (ext_wf _ _ Ha) | done
      | by apply (Inv_proper σ1 σ2) ].
  apply (rel_existing_select fld.1 ppk1 ppk2 σa σb).
  - by apply (ext_wf _ _ Ha).
  - apply extends_trans with τ1; [|done].
    eapply (evolves_for_each_with _ fld.2); [|exact Q1].
    intros ex y Hy. apply evolves_save_entry. intros o. by apply Hev.
  - by apply (Inv_proper σ1 σ2).
Qed.

Lemma sim_save_inlines parent_form :
  ∀ o1 o2, sim (save_inlines parent_form o1) (save_inlines parent_form o2).
Proof.
  induction parent_form as [d ifs IH] using form_ind. intros o1 o2.
  rewrite !save_inlines_eq.
  intros σ1 σ1' σ2 σ2' R1 R2 Hwf Hfut HI.
  eapply (sim_for_each _ _ ifs σ1); [| | apply extends_refl | exact R1 | exact R2
                                     | done | done | done].
  - intros fld Hfld. apply evolves_save_field. intros e o _. apply evolves_save_inlines.
  - intros fld τ1 τ1' τ2 τ2' Hfld _.
    apply sim_save_field.
    + intros e o _. apply evolves_save_inlines.
    + intros e p1 p2 He. rewrite Forall_forall in IH. specialize (IH _ Hfld).
      rewrite Forall_forall in IH. by apply IH.
Qed.

End Simulation.

Lemma save_result o s :
  (save o s).1 =
    Ok (if decide (_get_pk_value o = VNone)
        then setattr o (primary_key (inst_model o))
                     (VInt (next_id s (model_name (inst_model o))))
        else o).
Proof. unfold save. by destruct (_get_pk_value o). Qed.

Lemma populate_obj_twice f o : populate_obj f (populate_obj f o) = populate_obj f o.
Proof.
  unfold populate_obj; simpl. f_equal.
  by rewrite (assoc_L (∪)), (idemp_L (∪)).
Qed.

Lemma field_dict_populate_saved f o v :
  data f !! primary_key (inst_model o) = None →
  field_dict (populate_obj f (setattr (populate_obj f o) (primary_key (inst_model o)) v))
    = field_dict (populate_obj f o).
Proof.
  intros Hpk. apply map_eq. intros c. rewrite !lookup_field_dict.
  change (inst_model (populate_obj f (setattr (populate_obj f o) _ v)))
    with (inst_model o).
  change (inst_model (populate_obj f o)) with (inst_model o).
  destruct (decide _) as [[Hc Hne]|]; [|done].
  rewrite !lookup_populate. destruct (data f !! c) eqn:E; [done|].
  unfold setattr; simpl. rewrite lookup_insert_ne by done.
  by rewrite lookup_union_r.
Qed.

(** C7 (as the code has it). When [save_to] runs twice in succession with the
    same form on the same instance, the instance being unsaved or a stored
    row, and the second run returns as the first did, then every row stored
    after the first save is still stored after the second and holds the same
    value in every column. *)
Theorem save_to_twice self obj s0 o1 s1 o2 s2 :
  wf s0 →
  (_get_pk_value (populate_obj self obj) = VNone ∨
   ∃ k, as_int (_get_pk_value (populate_obj self obj)) = Some k ∧
        is_Some (rows s0 !! (model_name (inst_model obj), k))) →
  save_to self obj s0 = (Ok o1, s1) →
  save_to self o1 s1 = (Ok o2, s2) →
  ∀ t k r1, rows s1 !! (t, k) = Some r1 →
    ∃ r2, rows s2 !! (t, k) = Some r2 ∧ ∀ c, col r2 c = col r1 c.
Proof.
  intros Hwf0 Hobj R1 R2.
  unfold save_to, atomic in R1, R2.
  unfold bind at 1 in R1. unfold bind at 1 in R2. unfold begin at 1 in R1.
  unfold begin at 1 in R2.
  set (σ1 := {| rows := rows s0; seqs := seqs s0; txn := rows s0 :: txn s0;
                log := log s0 ++ [SBegin] |}) in R1.
  set (σ2 := {| rows := rows s1; seqs := seqs s1; txn := rows s1 :: txn s1;
                log := log s1 ++ [SBegin] |}) in R2.
  set (P1 := populate_obj self obj) in *.
  unfold bind at 1 in R1.
  destruct (save_ok P1 σ1) as [p1 E1]. rewrite E1 in R1.
  unfold bind in R1.
  destruct (save_inlines self p1 (save P1 σ1).2) as [[[]|?] e1] eqn:I1; [|done].
  injection R1 as <- <-.
  unfold bind at 1 in R2.
  destruct (save_ok (populate_obj self p1) σ2) as [p2 E2]. rewrite E2 in R2.
  unfold bind in R2.
  destruct (save_inlines self p2 (save (populate_obj self p1) σ2).2)
    as [[[]|?] e2] eqn:I2; [|done].
  injection R2 as <- <-. simpl.
  assert (wf σ1) as Hwf1 by exact Hwf0.
  assert (extends σ1 (save P1 σ1).2) as Hsave1 by (by eapply evolves_save).
  assert (extends (save P1 σ1).2 e1) as Hinl1 by (by eapply evolves_save_inlines).
  assert (wf e1) as Hwfe.
  { apply (ext_wf _ _ Hinl1), (ext_wf _ _ Hsave1), Hwf1. }
  assert (Inv e1 σ1 σ2) as HI0.
  { constructor; simpl.
    - intros tk f Hf. exists f. split; [done|].
      destruct (rows s0 !! tk); [by right | done].
    - intros t k Hs. by left.
    - intros t. unfold next_id; simpl. lia. }
  assert (Inv e1 (save P1 σ1).2 (save (populate_obj self p1) σ2).2) as HI1.
  { pose proof (save_result P1 σ1) as Hp1. rewrite E1 in Hp1. injection Hp1 as ->.
    destruct (decide (_get_pk_value P1 = VNone)) as [Hnone|Hset].
    - destruct (data self !! primary_key (inst_model obj)) as [v|] eqn:Hd.
      + apply (inv_save_insert e1 Hwfe); try done.
        apply get_pk_populate. simpl. rewrite Hd. f_equal.
        rewrite <- Hnone. symmetry. by apply get_pk_populate.
      + apply (inv_save_insert_update e1); try done.
        * unfold _get_pk_value, getattr. rewrite lookup_populate. simpl.
          rewrite Hd. by rewrite lookup_insert_eq.
        * by apply field_dict_populate_saved.
    - unfold P1. rewrite populate_obj_twice. fold P1.
      apply (inv_save_update e1 _ _ _ _ (_get_pk_value P1)); try done.
      intros k f Hk Hf. split; [|apply rel_dict_refl].
      destruct Hobj as [|(k' & Hk' & Hrow)]; [done|].
      fold P1 in Hk'. rewrite Hk in Hk'. by injection Hk' as <-. }
  pose proof (sim_save_inlines e1 Hwfe self p1 p2 _ _ _ _ I1 I2
                (ext_wf _ _ Hsave1 Hwf1) (extends_refl e1) HI1) as [A _ _].
  intros t k r1 Hr1. destruct (A _ _ Hr1) as (r2 & Hr2 & Hrel).
  exists r2. split; [done|]. rewrite Hr1 in Hrel.
  intros c. by destruct (Hrel c).
Qed.

(** Post 1 edits its comment 1 and adds a comment, twice over. *)
Lemma save_to_twice_witness :
  let f := post_form "edited"
             [comment_entry (VInt 1) "changed" false; comment_entry VNone "new" false] in
  let o1 := match (save_to f post1 db0).1 with Ok o => o | Raise _ => post1 end in
  let s1 := (save_to f post1 db0).2 in
  let s2 := (save_to f o1 s1).2 in
  rows s1 !! ("comment", 1) = Some {[ "post" := VInt 1; "text" := VStr "changed" ]} ∧
  ∃ r2, rows s2 !! ("comment", 1) = Some r2 ∧
        ∀ c, col r2 c = col {[ "post" := VInt 1; "text" := VStr "changed" ]} c.
Proof.
  intros f o1 s1 s2.
  assert (rows s1 !! ("comment", 1)
            = Some {[ "post" := VInt 1; "text" := VStr "changed" ]}) as Hrow
    by (vm_compute; reflexivity).
  split; [exact Hrow|].
  apply (save_to_twice f post1 db0 o1 s1
           match (save_to f o1 s1).1 with Ok o => o | Raise _ => post1 end s2).
  - apply wf_check_correct. vm_compute. reflexivity.
  - right. exists 1. split; [reflexivity|]. by eexists.
  - vm_compute. reflexivity.
  - vm_compute. reflexivity.
  - exact Hrow.
Defined.

(** The first save deletes comment 1; the same form saved again names a
    child that is no longer there, and the save is rejected. *)
Lemma second_save_raises_after_delete :
  let f := post_form "edited" [comment_entry (VInt 1) "" true] in
  let o1 := match (save_to f post1 db0).1 with Ok o => o | Raise _ => post1 end in
  let s1 := (save_to f post1 db0).2 in
  (save_to f post1 db0).1 = Ok o1 ∧
  (save_to f o1 s1).1
    = Raise (ValueError "Cannot save data to a foreign child (id 1).").
Proof. split; vm_compute; reflexivity. Qed.

End Resave.

(** ** Properties of the schema converter *)

Module OrmSpec.
Import Orm Shop.

(** *** What [convert] hands to the form field *)

(** However the class is chosen, the form field receives the prepared keyword
    arguments up to the keys the chosen branch sets or pops; the validators
    are never touched again. *)
Lemma convert_defaults_validators self field kw table name u :
  convert_defaults self field kw table = Ok (name, u) →
  name = field_name field ∧ kw_validators (kwargs_of u) = kw_validators kw.
Proof.
  induction table as [|[converter widget] table IH]; simpl; [done|].
  destruct (negb _); [exact IH|].
  destruct (_ || _).
  - destruct (dict_lookup _ _) as [dflt|], (kw_coerce _);
      intros [= <- <-]; by destruct (is_FormField widget).
  - intros [= <- <-]. by destruct (is_FormField widget).
Qed.

Lemma convert_converters_validators self model field kw cs name u :
  convert_converters self model field kw cs = Ok (name, u) →
  name = field_name field ∧ kw_validators (kwargs_of u) = kw_validators kw.
Proof.
  induction cs as [|[converter fn] cs IH]; cbn [convert_converters].
  - apply convert_defaults_validators.
  - destruct (isinstance _ _); [|exact IH].
    destruct fn; intros [= <- <-]; [|done].
    unfold handle_foreign_key.
    by destruct (field_null field), (field_choices field).
Qed.

Lemma convert_validators self model field args name u :
  convert self model field args = Ok (name, u) →
  name = field_name field ∧
  kw_validators (kwargs_of u) = kw_validators (prepare_kwargs field args).
Proof.
  unfold convert. destruct (bool_decide _); [by intros [= <- <-]|].
  destruct (field_wtf_field field); [by intros [= <- <-]|].
  apply convert_converters_validators.
Qed.

(** *** Validation of a field for which nothing was submitted *)

(** WTForms runs the validators in order.  [Optional] on missing input empties
    the field's errors and stops the chain; [Required] empties them, reports
    its message and stops; another validator passes, reports an error, or
    stops the chain. *)
Fixpoint run_validation_chain (vs : list validator) (errors : list string)
    : list string :=
  match vs with
  | [] => errors
  | Optional :: _ => []
  | Required :: _ => ["This field is required."]
  | OtherValidator _ Passes :: vs' => run_validation_chain vs' errors
  | OtherValidator _ (Fails msg) :: vs' => run_validation_chain vs' (errors ++ [msg])
  | OtherValidator _ (Stops msg) :: _ => errors ++ option_list msg
  end.

Definition lets_through (v : validator) : Prop :=
  match v with
  | Required | OtherValidator _ (Stops _) => False
  | _ => True
  end.

Lemma optional_last_accepts vs errors :
  Forall lets_through vs → run_validation_chain (vs ++ [Optional]) errors = [].
Proof.
  intros H. revert errors. induction H as [|v vs Hv _ IH]; intros errors; [done|].
  destruct v as [| |id [|msg|msg]]; simpl; try done; apply IH.
Qed.

(** C5 (as the code has it). For every nullable model field that declares no
    choices, the form field [convert] produces is given the caller's
    validators followed by [Optional]; unless one of the caller's validators
    stops the chain first, a submission that omits the value yields no
    validation error. *)
Theorem nullable_field_is_optional self model field args name u :
  field_null field = true →
  has_choices field = false →
  convert self model field args = Ok (name, u) →
  kw_validators (kwargs_of u) = default [] (fa_validators args) ++ [Optional] ∧
  (Forall lets_through (default [] (fa_validators args)) →
   run_validation_chain (kw_validators (kwargs_of u)) [] = []).
Proof.
  intros Hnull Hch Hconv.
  apply convert_validators in Hconv as [_ ->].
  assert (kw_validators (prepare_kwargs field args)
            = default [] (fa_validators args) ++ [Optional]) as ->.
  { unfold prepare_kwargs. by rewrite Hnull, Hch. }
  split; [done|]. apply optional_last_accepts.
Qed.

Lemma nullable_field_is_optional_witness :
  ∃ u, convert (new_converter [] [] []) "Comment" (nullable (plain_field "text" TextField))
               no_args = Ok ("text", u) ∧
       kw_validators (kwargs_of u) = [Optional] ∧
       run_validation_chain (kw_validators (kwargs_of u)) [] = [].
Proof.
  eexists. split; [vm_compute; reflexivity|].
  destruct (nullable_field_is_optional (new_converter [] [] []) "Comment"
              (nullable (plain_field "text" TextField)) no_args "text" _
              eq_refl eq_refl eq_refl) as [H1 H2].
  split; [exact H1 | apply H2; constructor].
Defined.

(** A nullable [CharField] with choices gets [Required], not [Optional]: a
    submission that omits it fails validation. *)
Lemma nullable_choice_field_is_required :
  let field := nullable (with_choices [(VStr "a", "A")] (plain_field "kind" CharField)) in
  ∃ kw, convert (new_converter [] [] []) "M" field no_args
          = Ok ("kind", Widget SelectChoicesField kw) ∧
        field_null field = true ∧
        kw_validators kw = [Required] ∧
        run_validation_chain (kw_validators kw) [] = ["This field is required."].
Proof. eexists. split_and!; vm_compute; reflexivity. Qed.

(** *** The null filter *)

Lemma handle_null_filter_empty : handle_null_filter (VStr "") = VNone.
Proof. reflexivity. Qed.

Lemma handle_null_filter_other data : data ≠ VStr "" → handle_null_filter data = data.
Proof.
  intros H. unfold handle_null_filter, py_eqb.
  destruct data as [|b|z|s]; simpl; try done.
  by rewrite bool_decide_eq_false_2.
Qed.

(** The field falls through to the default table and the first entry that
    matches it names a [FormField] class: the one case in which [convert]
    pops the filters. *)
Definition reaches_form_field (self : ModelConverter) (field : model_field) : bool :=
  negb (bool_decide (field_name field ∈ overrides self)) &&
  negb (field_wtf_field field) &&
  negb (existsb (λ cf, isinstance field cf.1) (converters self)) &&
  match find (λ cw, isinstance field cw.1) defaults with
  | Some (_, widget) => is_FormField widget
  | None => false
  end.

Lemma convert_defaults_filters self field kw table name u :
  convert_defaults self field kw table = Ok (name, u) →
  kw_filters (kwargs_of u) =
    match find (λ cw, isinstance field cw.1) table with
    | Some (_, widget) => if is_FormField widget then None else kw_filters kw
    | None => kw_filters kw
    end.
Proof.
  induction table as [|[converter widget] table IH]; simpl; [done|].
  destruct (isinstance field converter); simpl; [|exact IH].
  destruct (_ || _).
  - destruct (dict_lookup _ _) as [dflt|], (kw_coerce _);
      intros [= <- <-]; by destruct (is_FormField widget).
  - intros [= <- <-]. by destruct (is_FormField widget).
Qed.

Lemma convert_converters_filters self model field kw cs name u :
  convert_converters self model field kw cs = Ok (name, u) →
  kw_filters (kwargs_of u) =
    if existsb (λ cf, isinstance field cf.1) cs then kw_filters kw
    else match find (λ cw, isinstance field cw.1) defaults with
         | Some (_, widget) => if is_FormField widget then None else kw_filters kw
         | None => kw_filters kw
         end.
Proof.
  induction cs as [|[converter fn] cs IH]; cbn [convert_converters existsb].
  - apply convert_defaults_filters.
  - cbn [fst]. destruct (isinstance field converter); simpl; [|exact IH].
    destruct fn; intros [= <- <-]; [|done].
    unfold handle_foreign_key.
    by destruct (field_null field), (field_choices field).
Qed.

Lemma convert_filters self model field args name u :
  convert self model field args = Ok (name, u) →
  kw_filters (kwargs_of u) =
    if reaches_form_field self field then None
    else kw_filters (prepare_kwargs field args).
Proof.
  unfold convert, reaches_form_field.
  destruct (bool_decide _); [by intros [= <- <-]|].
  destruct (field_wtf_field field); [by intros [= <- <-]|].
  intros H%convert_converters_filters. rewrite H.
  destruct (existsb _ _); cbn [negb andb]; [done|].
  destruct (find _ defaults) as [[c widget]|]; [|done].
  by destruct (is_FormField widget).
Qed.

Lemma prepare_kwargs_filters field args :
  kw_filters (prepare_kwargs field args) =
    Some (default [] (fa_filters args)
          ++ if field_null field then [HandleNullFilter] else []).
Proof.
  unfold prepare_kwargs.
  destruct (field_null field); simpl.
  - by repeat (case_match; simpl).
  - rewrite app_nil_r. by repeat (case_match; simpl).
Qed.

(** C10 (as the code has it). The form field [convert] produces for a
    nullable model field is given the caller's filters followed by
    [handle_null_filter], which maps the empty string to [None]; for a field
    that is not nullable it is given the caller's filters only.  The one
    exception is a field that falls through to a default-table entry naming a
    [FormField] class: it is given no filters.  So where the caller supplies
    no filters for a field outside that exception, a submitted empty string
    becomes [None] if the field is nullable and stays the empty string if it
    is not. *)
Theorem null_filter_attached self model field args name u :
  convert self model field args = Ok (name, u) →
  kw_filters (kwargs_of u) =
    (if reaches_form_field self field then None
     else Some (default [] (fa_filters args)
                ++ if field_null field then [HandleNullFilter] else [])) ∧
  (reaches_form_field self field = false → fa_filters args = None →
   apply_filters (default [] (kw_filters (kwargs_of u))) (VStr "")
     = if field_null field then VNone else VStr "").
Proof.
  intros Hconv. apply convert_filters in Hconv. rewrite Hconv.
  rewrite prepare_kwargs_filters. split; [done|].
  intros -> ->. simpl. by destruct (field_null field).
Qed.

Lemma null_filter_attached_witness :
  ∃ u v, convert (new_converter [] [] []) "Comment" (nullable (plain_field "text" TextField))
               no_args = Ok ("text", u) ∧
       convert (new_converter [] [] []) "Post" (plain_field "title" CharField)
               no_args = Ok ("title", v) ∧
       apply_filters (default [] (kw_filters (kwargs_of u))) (VStr "") = VNone ∧
       apply_filters (default [] (kw_filters (kwargs_of v))) (VStr "") = VStr "".
Proof.
  eexists _, _. split; [vm_compute; reflexivity|]. split; [vm_compute; reflexivity|].
  split.
  - apply (null_filter_attached (new_converter [] [] []) "Comment"
             (nullable (plain_field "text" TextField)) no_args "text" _ eq_refl);
      reflexivity.
  - apply (null_filter_attached (new_converter [] [] []) "Post"
             (plain_field "title" CharField) no_args "title" _ eq_refl);
      reflexivity.
Defined.

(** A nullable [DateTimeField] becomes a [WPDateTimeField], a [FormField]:
    the filters are popped and no null filter reaches the form field. *)
Lemma nullable_datetime_has_no_filter :
  let field := nullable (plain_field "at" DateTimeField) in
  ∃ kw, convert (new_converter [] [] []) "M" field no_args
          = Ok ("at", Widget WPDateTimeField kw) ∧
        field_null field = true ∧
        kw_filters kw = None.
Proof. eexists. split_and!; vm_compute; reflexivity. Qed.

(** *** A field no rule converts *)

(** C9 (as the code has it). When a model field has no override, no
    [wtf_field] hook, and is an instance of no class among the converters and
    the default table, [convert] raises [AttributeError]; the message names
    the field's class. *)
Theorem unconvertible_field_raises self model field args :
  field_name field ∉ overrides self →
  field_wtf_field field = false →
  (∀ cf, cf ∈ converters self → isinstance field cf.1 = false) →
  (∀ cw, cw ∈ defaults → isinstance field cw.1 = false) →
  convert self model field args =
    Raise (AttributeError ("There is not possible conversion for '"
                           +:+ type_repr (field_type field) +:+ "'")).
Proof.
  intros Hov Hwtf Hcs Hds. unfold convert.
  rewrite bool_decide_eq_false_2 by done. rewrite Hwtf.
  generalize (prepare_kwargs field args). intros kw.
  assert (∀ table, (∀ cw, cw ∈ table → isinstance field cw.1 = false) →
    convert_defaults self field kw table =
      Raise (AttributeError ("There is not possible conversion for '"
                             +:+ type_repr (field_type field) +:+ "'"))) as Hdef.
  { induction table as [|[c w] table IH]; intros Hall; [done|].
    cbn [convert_defaults]. pose proof (Hall (c, w)) as Hc. cbn [fst] in Hc.
    rewrite Hc by left. cbn [negb].
    apply IH. intros cw Hcw. apply Hall. by right. }
  induction (converters self) as [|[c fn] cs IH]; cbn [convert_converters].
  - by apply Hdef.
  - pose proof (Hcs (c, fn)) as Hc. cbn [fst] in Hc. rewrite Hc by left.
    apply IH. intros cf Hcf. apply Hcs. by right.
Qed.

Definition uuid_field (name : string) : model_field :=
  plain_field name (Subclass "peewee.UUIDField" Field).

Lemma unconvertible_field_raises_witness :
  convert (new_converter [] [] []) "M" (uuid_field "token") no_args =
    Raise (AttributeError
             "There is not possible conversion for '<class 'peewee.UUIDField'>'").
Proof.
  apply (unconvertible_field_raises (new_converter [] [] []) "M" (uuid_field "token")).
  - apply not_elem_of_nil.
  - reflexivity.
  - intros cf Hcf. repeat (apply elem_of_cons in Hcf as [->|Hcf]; [reflexivity|]).
    by apply elem_of_nil in Hcf.
  - intros cw Hcw. repeat (apply elem_of_cons in Hcw as [->|Hcw]; [reflexivity|]).
    by apply elem_of_nil in Hcw.
Defined.

(** [needle in hay] *)
Fixpoint contains (needle hay : string) : bool :=
  String.prefix needle hay ||
  match hay with
  | EmptyString => false
  | String _ hay' => contains needle hay'
  end.

(** The message for the field [token] does not mention [token], and the field
    [secret] of the same class gets the very same message. *)
Lemma error_message_omits_field_name :
  ∃ msg, convert (new_converter [] [] []) "M" (uuid_field "token") no_args
           = Raise (AttributeError msg) ∧
         contains "token" msg = false ∧
         contains "peewee.UUIDField" msg = true ∧
         convert (new_converter [] [] []) "M" (uuid_field "secret") no_args
           = Raise (AttributeError msg).
Proof. eexists. split_and!; vm_compute; reflexivity. Qed.

(** *** The order in which the form-field class is chosen *)

(** How the form field of a model field came about. *)
Inductive selection : Type :=
  | ByOverride                            (* the callable in [overrides] *)
  | ByWtfField                            (* the field's own [wtf_field] *)
  | ByConverter (c : field_class)         (* a callable from [additional] *)
  | ByClass (cls : form_field_class).     (* a class instantiated by [convert] *)

Definition selection_of (u : unbound_field) : selection :=
  match u with
  | Widget cls _ => ByClass cls
  | FromOverride _ _ => ByOverride
  | FromWtfField _ _ _ => ByWtfField
  | FromConverter c _ _ _ => ByConverter c
  end.

Definition selected (r : outcome (string * unbound_field)) : option selection :=
  match r with
  | Ok (_, u) => Some (selection_of u)
  | Raise _ => None
  end.

Definition foreign_key_class (field : model_field) : form_field_class :=
  match field_choices field with
  | Some _ => SelectQueryField
  | None => ModelSelectField
  end.

(** The order as the specification words it: the override for the field's
    name, then the foreign-key case, then the first matching entry of the
    default table. *)
Definition select_as_specified (self : ModelConverter) (field : model_field)
    : option selection :=
  if bool_decide (field_name field ∈ overrides self) then Some ByOverride
  else if isinstance field ForeignKeyField then Some (ByClass (foreign_key_class field))
  else (λ cw, ByClass cw.2) <$> find (λ cw, isinstance field cw.1) defaults.

(** The order the code follows: the override for the field's name; the
    field's own [wtf_field] hook; the first class among the converters the
    field is an instance of (the foreign-key case, unless replaced, and the
    caller's additional converters); the first matching entry of the default
    table, where a field with choices takes [SelectChoicesField] when a
    coercion is registered for the matched class. *)
Definition select_by_rules (self : ModelConverter) (field : model_field)
    (args : field_args) : option selection :=
  if bool_decide (field_name field ∈ overrides self) then Some ByOverride
  else if field_wtf_field field then Some ByWtfField
  else
    match find (λ cf, isinstance field cf.1) (converters self) with
    | Some (_, handle_foreign_key_fn) => Some (ByClass (foreign_key_class field))
    | Some (c, additional_fn) => Some (ByConverter c)
    | None =>
        match find (λ cw, isinstance field cw.1) defaults with
        | None => None
        | Some (c, cls) =>
            if has_choices field || bool_decide (is_Some (fa_choices args)) then
              match dict_lookup (coerce_settings self) c, fa_coerce args with
              | Some _, _ => Some (ByClass SelectChoicesField)
              | None, None => Some (ByClass cls)
              | None, Some _ => None
              end
            else Some (ByClass cls)
        end
    end.

Lemma prepare_kwargs_choices field args :
  kw_choices (prepare_kwargs field args) = fa_choices args ∧
  kw_coerce (prepare_kwargs field args) = fa_coerce args.
Proof. unfold prepare_kwargs. by repeat (case_match; simpl). Qed.

Lemma convert_defaults_selected self field kw table :
  selected (convert_defaults self field kw table) =
    match find (λ cw, isinstance field cw.1) table with
    | None => None
    | Some (c, cls) =>
        if has_choices field || bool_decide (is_Some (kw_choices kw)) then
          match dict_lookup (coerce_settings self) c, kw_coerce kw with
          | Some _, _ => Some (ByClass SelectChoicesField)
          | None, None => Some (ByClass cls)
          | None, Some _ => None
          end
        else Some (ByClass cls)
    end.
Proof.
  induction table as [|[c cls] table IH]; [done|].
  cbn [convert_defaults find fst]. destruct (isinstance field c); cbn [negb]; [|exact IH].
  assert (∀ kw', kw_choices kw' = kw_choices kw → kw_coerce kw' = kw_coerce kw →
    selected
      (if has_choices field || bool_decide (is_Some (kw_choices kw')) then
         match dict_lookup (coerce_settings self) c, kw_coerce (pop_choices kw') with
         | None, None => Ok (field_name field, Widget cls (pop_choices kw'))
         | None, Some _ => Raise (KeyError (type_repr c))
         | Some dflt, given =>
             Ok (field_name field,
                 Widget SelectChoicesField
                   {| kw_label := kw_label (pop_choices kw');
                      kw_validators := kw_validators (pop_choices kw');
                      kw_filters := kw_filters (pop_choices kw');
                      kw_default := kw_default (pop_choices kw');
                      kw_description := kw_description (pop_choices kw');
                      kw_choices :=
                        Some (default (default [] (field_choices field)) (kw_choices kw'));
                      kw_coerce := Some (default dflt given);
                      kw_allow_blank :=
                        Some (default (field_null field)
                                (kw_allow_blank (pop_choices kw')));
                      kw_query := kw_query (pop_choices kw');
                      kw_model := kw_model (pop_choices kw') |})
         end
       else Ok (field_name field, Widget cls kw'))
    = (if has_choices field || bool_decide (is_Some (kw_choices kw)) then
         match dict_lookup (coerce_settings self) c, kw_coerce kw with
         | Some _, _ => Some (ByClass SelectChoicesField)
         | None, None => Some (ByClass cls)
         | None, Some _ => None
         end
       else Some (ByClass cls))) as Hbody.
  { intros kw' -> Hco. destruct (_ || _); [|done].
    cbn [pop_choices kw_coerce]. rewrite Hco.
    by destruct (dict_lookup _ _), (kw_coerce kw). }
  destruct (is_FormField cls); by apply Hbody.
Qed.

(** C8 (as the code has it). For every model field, the form field [convert]
    returns is the one chosen by checking in this order: the override for the
    field's name; the field's own [wtf_field] hook; the converters by class,
    which is the foreign-key case ([SelectQueryField] when the foreign key
    declares choices, else [ModelSelectField]) and any additional converter;
    the default table, first matching entry, with [SelectChoicesField] in
    place of the table's class for a field with choices whose matched class
    has a coercion.  [convert] raises exactly when this order yields no form
    field. *)
Theorem convert_selection_order self model field args :
  selected (convert self model field args) = select_by_rules self field args.
Proof.
  unfold convert, select_by_rules.
  destruct (bool_decide _); [done|]. destruct (field_wtf_field field); [done|].
  destruct (prepare_kwargs_choices field args) as [<- <-].
  generalize (prepare_kwargs field args). intros kw.
  induction (converters self) as [|[c fn] cs IH]; cbn [convert_converters find fst].
  - apply convert_defaults_selected.
  - destruct (isinstance field c); [|exact IH].
    destruct fn; [|done]. cbn [selected]. unfold handle_foreign_key, foreign_key_class.
    by destruct (field_null field), (field_choices field).
Qed.

(** Where the order of the specification and the order of the code agree: the
    field has no [wtf_field] hook, the converter was given no additional
    converters, and there are no choices outside a foreign key. *)
Lemma specified_order_without_hooks_and_choices self field args :
  field_wtf_field field = false →
  converters self = [(ForeignKeyField, handle_foreign_key_fn)] →
  has_choices field = false → fa_choices args = None →
  select_by_rules self field args = select_as_specified self field.
Proof.
  intros Hwtf Hcs Hch Hfa. unfold select_by_rules, select_as_specified.
  rewrite Hwtf, Hcs, Hch, Hfa. cbn [find fst].
  destruct (bool_decide _); [done|].
  destruct (isinstance field ForeignKeyField); [done|].
  rewrite bool_decide_eq_false_2 by (by intros [? [=]]).
  cbn [orb]. by destruct (find _ defaults) as [[c cls]|].
Qed.

(** An [IntegerField] with choices: the specified order gives the table's
    [IntegerField] form field, the code gives a [SelectChoicesField]. *)
Lemma choice_field_is_not_the_table_entry :
  let self := new_converter [] [] [] in
  let field := with_choices [(VInt 1, "A")] (plain_field "n" IntegerField) in
  select_as_specified self field = Some (ByClass f_IntegerField) ∧
  selected (convert self "M" field no_args) = Some (ByClass SelectChoicesField).
Proof. split; vm_compute; reflexivity. Qed.

(** *** Generating nested forms *)

Section Termination.

Variable self : ModelConverter.
Variable schema : gmap string model_meta.









End Termination.

(** The names of the fields of each inline form of a generated form class. *)
Definition inline_field_names (r : run form_class) : list (string * list string) :=
  match r with
  | Some (Ok (FormClass _ members _)) =>
      omap (λ m, match m.2 with
                 | ModelListField _ (FormClass _ members' _) _ => Some (m.1, members'.*1)
                 | _ => None
                 end) members
  | _ => []
  end.

(** [convert_fields] adds the foreign key to the inline form's [exclude], but
    [exclude] is read only when [only] is empty: an inline form generated
    under [only] keeps the link field when [only] lists it. *)
Lemma only_keeps_the_link_field :
  inline_field_names (model_form schema 2 Post None None true)
    = [("comments", ["id"; "text"; "delete_"])] ∧
  inline_field_names
      (model_form schema 2 Post
         (Some ["title"; "comments"; "comments.id"; "comments.post"; "comments.text"])
         None true)
    = [("comments", ["id"; "post"; "text"; "delete_"])].
Proof. split; vm_compute; reflexivity. Qed.










End OrmSpec.

(** ** What a save leaves alone *)

Module FormsFrame.
Import Forms FormsFacts.

(** The tables in which a form's inline fields, and the inline fields of
    their entries, keep their rows. *)
Fixpoint tables (f : form) : list string :=
  match f with
  | Form _ ifs =>
      flat_map (λ fld : foreign_key * list form,
                  model_name (fk_model_class fld.1) :: flat_map tables fld.2) ifs
  end.

(** A computation all of whose runs, normal or not, relate the state they
    start from to the state they end in by [R]. *)
Definition preserves {A} (R : db → db → Prop) (c : M A) : Prop :=
  ∀ s r s', c s = (r, s') → R s s'.

Section Preserves.

Variable R : db → db → Prop.
Hypothesis R_refl : ∀ s, R s s.
Hypothesis R_trans : ∀ s1 s2 s3, R s1 s2 → R s2 s3 → R s1 s3.

Lemma preserves_ret {A} (a : A) : preserves R (ret a).
Proof. intros s r s' [= <- <-]. apply R_refl. Qed.

Lemma preserves_raise {A} e : preserves R (@raise A e).
Proof. intros s r s' [= <- <-]. apply R_refl. Qed.

Lemma preserves_bind {A B} (c : M A) (k : A → M B) :
  preserves R c → (∀ a, preserves R (k a)) → preserves R (bind c k).
Proof.
  intros Hc Hk s r s'. unfold bind.
  destruct (c s) as [[a|e] s1] eqn:E; intros H.
  - eapply R_trans; [by eapply Hc | by eapply Hk].
  - injection H as <- <-. by eapply Hc.
Qed.

(** The same when the continuation relies on what the first step returns. *)
Lemma preserves_bind_post {A B} (Q : A → Prop) (c : M A) (k : A → M B) :
  (∀ s a s', c s = (Ok a, s') → Q a) →
  preserves R c → (∀ a, Q a → preserves R (k a)) → preserves R (bind c k).
Proof.
  intros HQ Hc Hk s r s'. unfold bind.
  destruct (c s) as [[a|e] s1] eqn:E; intros H.
  - eapply R_trans; [by eapply Hc|]. eapply Hk; [by eapply HQ | done].
  - injection H as <- <-. by eapply Hc.
Qed.

Lemma preserves_for_each {A} (body : A → M unit) l :
  (∀ x, x ∈ l → preserves R (body x)) → preserves R (for_each body l).
Proof.
  induction l as [|x l IH]; intros Hb.
  - apply preserves_ret.
  - apply preserves_bind; [apply Hb; left | intros _; apply IH].
    intros y Hy. apply Hb. by right.
Qed.

(** A loop over a shared object on which [P] holds throughout. *)
Lemma preserves_for_each_with {A E} (P : E → Prop) (body : E → A → M E) l e :
  P e →
  (∀ e1 x, x ∈ l → P e1 → preserves R (body e1 x)) →
  (∀ e1 x s1 e2 s2, x ∈ l → P e1 → body e1 x s1 = (Ok e2, s2) → P e2) →
  preserves R (for_each_with body l e).
Proof.
  revert e. induction l as [|x l IH]; intros e He Hb HP.
  - apply preserves_ret.
  - intros s r s'. rewrite for_each_with_cons.
    destruct (body e x s) as [[e'|exn] s1] eqn:Hbody.
    + intros Hrest. eapply R_trans; [eapply Hb; [left | done | done]|].
      eapply IH; [ | | | exact Hrest].
      * eapply HP; [left | done | done].
      * intros e1 y Hy. apply Hb. by right.
      * intros e1 y s2 e2 s3 Hy. apply HP. by right.
    + intros [= <- <-]. eapply Hb; [left | done | done].
Qed.

End Preserves.

(** *** What a save leaves alone *)

(** Outside the tables [T] the rows and the key sequences are the same. *)
Definition same_outside (T : list string) (s s' : db) : Prop :=
  ∀ t, t ∉ T →
    (∀ k, rows s' !! (t, k) = rows s !! (t, k)) ∧ next_id s' t = next_id s t.

Lemma same_outside_refl T s : same_outside T s s.
Proof. by intros t _. Qed.

Lemma same_outside_trans T s1 s2 s3 :
  same_outside T s1 s2 → same_outside T s2 s3 → same_outside T s1 s3.
Proof.
  intros H1 H2 t Ht. destruct (H1 t Ht) as [A1 B1], (H2 t Ht) as [A2 B2].
  split; [intros k; by rewrite A2, A1 | by rewrite B2, B1].
Qed.

Lemma same_outside_mono T T' s s' :
  T ⊆ T' → same_outside T s s' → same_outside T' s s'.
Proof. intros Hsub H t Ht. apply H. intros Hin. apply Ht, Hsub, Hin. Qed.

Lemma frame_mono {A} T T' (c : M A) :
  T ⊆ T' → preserves (same_outside T) c → preserves (same_outside T') c.
Proof. intros Hsub H s r s' Hrun. eapply same_outside_mono; [done | by eapply H]. Qed.

Ltac frame_step :=
  first [ apply preserves_ret; apply same_outside_refl
        | apply preserves_raise; apply same_outside_refl
        | apply preserves_bind; [apply same_outside_trans | | intros ?] ].

Lemma frame_save T o :
  model_name (inst_model o) ∈ T → preserves (same_outside T) (save o).
Proof.
  intros Hin s r s' Hrun t Ht.
  assert (t ≠ model_name (inst_model o)) as Hne by (intros ->; done).
  unfold save in Hrun.
  destruct (_get_pk_value o) as [|b|z|str]; injection Hrun as <- <-; simpl.
  - split; [intros k; rewrite lookup_insert_ne; [done | congruence]|].
    unfold next_id; simpl. by rewrite lookup_insert_ne.
  - split; [|done]. intros k. destruct (rows s !! (_, _)); [|done].
    rewrite lookup_insert_ne; [done | congruence].
  - split; [|done]. intros k. destruct (rows s !! (_, _)); [|done].
    rewrite lookup_insert_ne; [done | congruence].
  - done.
Qed.

Lemma frame_delete_instance T o :
  model_name (inst_model o) ∈ T → preserves (same_outside T) (delete_instance o).
Proof.
  intros Hin s r s' [= <- <-] t Ht.
  assert (t ≠ model_name (inst_model o)) as Hne by (intros ->; done).
  simpl. split; [|done]. intros k.
  destruct (as_int (_get_pk_value o)); [|done].
  rewrite lookup_delete_ne; [done | congruence].
Qed.

Lemma frame_select_related T fk v : preserves (same_outside T) (select_related fk v).
Proof. by intros s r s' [= <- <-] t Ht. Qed.

(** An instance found in [existing] is of the child model and is stored under
    its own key, one of the keys selected at the start. *)
Lemma children_of_get m ex0 ex pkv o :
  children_of m ex0 ex → dict_get ex pkv = Some o →
  inst_model o = m ∧
  ∃ k, as_int pkv = Some k ∧ is_Some (ex0 k) ∧ as_int (_get_pk_value o) = Some k.
Proof.
  intros Hex. unfold dict_get. destruct (as_int pkv) as [k|]; [|done].
  intros Hk. specialize (Hex k). rewrite Hk in Hex.
  destruct Hex as (H1 & H2 & H3). eauto.
Qed.

Lemma frame_save_entry T rec fk ppk ex0 ex subform :
  children_of (fk_model_class fk) ex0 ex →
  model_name (fk_model_class fk) ∈ T →
  (∀ o, preserves (same_outside T) (rec subform o)) →
  preserves (same_outside T) (save_entry rec fk ppk ex subform).
Proof.
  intros Hex Hin Hrec.
  destruct (data subform !! primary_key (fk_model_class fk)) as [pkv|] eqn:Hpk;
    [|unfold save_entry; rewrite Hpk; frame_step].
  destruct (decide (pkv = VNone)) as [->|Hset].
  - rewrite save_entry_new by done.
    destruct (truthy _); [frame_step|].
    frame_step; [by apply frame_save|].
    frame_step; [apply Hrec|]. frame_step.
  - rewrite (save_entry_set _ _ _ _ _ pkv) by done.
    destruct (dict_get ex pkv) as [subobj|] eqn:Hget; [|frame_step].
    destruct (children_of_get _ _ _ _ _ Hex Hget) as [Hm _].
    destruct (negb _); [frame_step|].
    destruct (truthy _).
    + frame_step; [apply frame_delete_instance; by rewrite Hm|]. frame_step.
    + frame_step; [apply frame_save; simpl; by rewrite Hm|].
      frame_step; [apply Hrec|]. frame_step.
Qed.

Lemma frame_save_field T rec ppk fld :
  model_name (fk_model_class fld.1) ∈ T →
  (∀ e o, e ∈ fld.2 → preserves (same_outside T) (rec e o)) →
  preserves (same_outside T) (save_field rec ppk fld).
Proof.
  intros Hin Hrec. unfold save_field.
  destruct (forallb _ _); [|frame_step].
  apply (preserves_bind_post (same_outside T) (same_outside_trans T)
           (λ ex, children_of (fk_model_class fld.1) ex ex)).
  { intros s ex s' [= <- <-]. apply children_of_select. }
  { apply frame_select_related. }
  intros ex0 Hex0. frame_step; [|frame_step].
  apply (preserves_for_each_with (same_outside T) (same_outside_refl T)
           (same_outside_trans T) (children_of (fk_model_class fld.1) ex0)).
  - done.
  - intros e1 x Hx He1. eapply frame_save_entry; [done | done |].
    intros o. by apply Hrec.
  - intros e1 x s1 e2 s2 _ He1 Hstep. by eapply children_of_save_entry.
Qed.

Lemma tables_eq d ifs :
  tables (Form d ifs) =
    flat_map (λ fld : foreign_key * list form,
                model_name (fk_model_class fld.1) :: flat_map tables fld.2) ifs.
Proof. reflexivity. Qed.

Lemma frame_save_inlines parent_form parent_obj :
  preserves (same_outside (tables parent_form)) (save_inlines parent_form parent_obj).
Proof.
  revert parent_obj. induction parent_form as [d ifs IH] using form_ind.
  intros o. rewrite save_inlines_eq.
  apply preserves_for_each; [apply same_outside_refl | apply same_outside_trans |].
  intros fld Hfld.
  assert (model_name (fk_model_class fld.1) :: flat_map tables fld.2
            ⊆ tables (Form d ifs)) as Hsub.
  { rewrite tables_eq. intros t Ht. apply list_elem_of_In, in_flat_map.
    exists fld. split; [by apply list_elem_of_In | by apply list_elem_of_In]. }
  apply frame_save_field.
  - apply Hsub. left.
  - intros e o' He.
    rewrite Forall_forall in IH. specialize (IH _ Hfld).
    rewrite Forall_forall in IH.
    eapply frame_mono; [|apply (IH _ He)].
    intros t Ht. apply Hsub. right. apply list_elem_of_In, in_flat_map.
    exists e. split; by apply list_elem_of_In.
Qed.

(** *** The statements a save issues *)















(** *** The rows of other parents *)

(** In table [t] the key sequence has not gone back, and the rows under the
    keys [prot] that had been handed out are the same. *)
Definition keeps (t : string) (prot : Z → Prop) (s s' : db) : Prop :=
  next_id s t ≤ next_id s' t ∧
  ∀ k, k < next_id s t → prot k → rows s' !! (t, k) = rows s !! (t, k).

Lemma keeps_refl t prot s : keeps t prot s s.
Proof. split; [lia | done]. Qed.

Lemma keeps_trans t prot s1 s2 s3 :
  keeps t prot s1 s2 → keeps t prot s2 s3 → keeps t prot s1 s3.
Proof.
  intros [A1 B1] [A2 B2]. split; [lia|].
  intros k Hk Hp. rewrite B2, B1; [done | done | done | lia | done].
Qed.

Lemma keeps_same_outside t prot T s s' :
  t ∉ T → same_outside T s s' → keeps t prot s s'.
Proof.
  intros Ht H. destruct (H t Ht) as [A B]. split; [lia | intros k _ _; apply A].
Qed.

Ltac keeps_step :=
  first [ apply preserves_ret; apply keeps_refl
        | apply preserves_raise; apply keeps_refl
        | apply preserves_bind; [apply keeps_trans | | intros ?] ].

Lemma keeps_save_insert t prot o :
  _get_pk_value o = VNone → preserves (keeps t prot) (save o).
Proof.
  intros Hpk s r s'. unfold save. rewrite Hpk. intros [= <- <-].
  split; simpl.
  - unfold next_id; simpl. rewrite lookup_insert.
    destruct (decide _) as [<-|]; simpl; lia.
  - intros k Hk _. rewrite lookup_insert_ne; [done|]. intros [= <- <-]. lia.
Qed.

Lemma keeps_save_update t prot o k' :
  _get_pk_value o ≠ VNone →
  as_int (_get_pk_value o) = Some k' → ¬ prot k' →
  preserves (keeps t prot) (save o).
Proof.
  intros Hset Hk' Hfree s r s'. unfold save.
  destruct (_get_pk_value o) as [|b|z|str]; [done| | |];
    intros [= <- <-]; (split; [done|]); simpl in *; [| |done];
    injection Hk' as <-; intros k _ Hp.
  - destruct (rows s !! (model_name (inst_model o), _)); [|done].
    rewrite lookup_insert_ne; [done|]. intros [= <- <-]. done.
  - destruct (rows s !! (model_name (inst_model o), _)); [|done].
    rewrite lookup_insert_ne; [done|]. intros [= <- <-]. done.
Qed.

Lemma keeps_delete_instance t prot o k' :
  as_int (_get_pk_value o) = Some k' → ¬ prot k' →
  preserves (keeps t prot) (delete_instance o).
Proof.
  intros Hk' Hfree s r s' [= <- <-]. split; [done|]. simpl. rewrite Hk'.
  intros k _ Hp. rewrite lookup_delete_ne; [done|]. intros [= <- <-]. done.
Qed.

Lemma keeps_save_entry prot rec fk ppk ex0 ex subform :
  children_of (fk_model_class fk) ex0 ex →
  (∀ k, prot k → ex0 k = None) →
  (∀ o, preserves (keeps (model_name (fk_model_class fk)) prot) (rec subform o)) →
  preserves (keeps (model_name (fk_model_class fk)) prot)
    (save_entry rec fk ppk ex subform).
Proof.
  intros Hex Hprot Hrec.
  destruct (data subform !! primary_key (fk_model_class fk)) as [pkv|] eqn:Hpk;
    [|unfold save_entry; rewrite Hpk; keeps_step].
  destruct (decide (pkv = VNone)) as [->|Hset].
  - rewrite save_entry_new by done.
    destruct (truthy _); [keeps_step|].
    keeps_step; [by apply keeps_save_insert, get_pk_populate|].
    keeps_step; [apply Hrec|]. keeps_step.
  - rewrite (save_entry_set _ _ _ _ _ pkv) by done.
    destruct (dict_get ex pkv) as [subobj|] eqn:Hget; [|keeps_step].
    destruct (children_of_get _ _ _ _ _ Hex Hget) as (Hm & k' & Hk' & Hin & Hown).
    assert (¬ prot k') as Hfree.
    { intros Hp. rewrite (Hprot _ Hp) in Hin. by destruct Hin. }
    destruct (negb _); [keeps_step|].
    destruct (truthy _).
    + keeps_step; [by eapply keeps_delete_instance|]. keeps_step.
    + assert (_get_pk_value (populate_obj subform subobj) = pkv) as Hpop
        by (apply get_pk_populate; by rewrite Hm).
      keeps_step; [apply (keeps_save_update _ _ _ k'); by rewrite ?Hpop|].
      keeps_step; [apply Hrec|]. keeps_step.
Qed.

End FormsFrame.

Module FormsMore.
Import Forms FormsFacts FormsFrame Blog.


(** While the children of one parent are saved, the rows of the same table
    that belong to other parents are neither updated nor deleted, whatever
    identifiers the entries carry and whether the save returns or raises (the
    entries' own inline fields keeping their rows in other tables). *)
Theorem save_field_keeps_other_parents ppk fk entries s k r :
  wf s →
  Forall (λ e, model_name (fk_model_class fk) ∉ tables e) entries →
  rows s !! (model_name (fk_model_class fk), k) = Some r →
  py_eqb (col r (name fk)) ppk = false →
  rows (save_field save_inlines ppk (fk, entries) s).2
    !! (model_name (fk_model_class fk), k) = Some r.
Proof.
  intros Hwf Hflat Hr Hother.
  set (t := model_name (fk_model_class fk)) in *.
  set (ex0 := existing_of (rows s) fk ppk).
  set (prot := λ k, ex0 k = None).
  assert (preserves (keeps t prot)
            (for_each_with (save_entry save_inlines fk ppk) entries ex0)) as Hloop.
  { apply (preserves_for_each_with (keeps t prot) (keeps_refl t prot)
             (keeps_trans t prot) (children_of (fk_model_class fk) ex0)).
    - apply children_of_select.
    - intros e1 x Hx He1. apply (keeps_save_entry prot _ _ _ ex0); [done | done |].
      intros o. intros s1 r1 s2 Hrun. apply frame_save_inlines in Hrun.
      eapply keeps_same_outside; [|done].
      rewrite Forall_forall in Hflat. by apply Hflat.
    - intros e1 x s1 e2 s2 _ He1 Hstep. by eapply children_of_save_entry. }
  assert (prot k) as Hk.
  { unfold prot, ex0, existing_of. fold t. by rewrite Hr, Hother. }
  assert (k < next_id s t) as Hlt by (apply Hwf; by rewrite Hr).
  unfold save_field; simpl. destruct (forallb _ _); [|done].
  unfold bind, select_related. fold ex0.
  match goal with
  | |- context [for_each_with ?body entries ex0 ?s1] =>
      destruct (for_each_with body entries ex0 s1) as [[ex'|e] s'] eqn:Hrun
  end; apply Hloop in Hrun as [_ Hrows]; simpl; by rewrite Hrows.
Qed.

Lemma save_field_keeps_other_parents_witness :
  rows (save_field save_inlines (VInt 1)
          (comment_post, [comment_entry (VInt 1) "changed" false;
                          comment_entry (VInt 2) "hacked" false]) db0).2
    !! ("comment", 2) = Some {[ "post" := VInt 2; "text" := VStr "theirs" ]}.
Proof.
  apply (save_field_keeps_other_parents (VInt 1) comment_post _ db0 2).
  - apply wf_check_correct. vm_compute. reflexivity.
  - repeat constructor; apply not_elem_of_nil.
  - vm_compute. reflexivity.
  - vm_compute. reflexivity.
Defined.

(** When an entry of an inline field has no value for the child model's key
    field, the save of the field raises [KeyError] for that field name before
    it selects or writes anything: no entry is saved, also none that comes
    before the incomplete one. *)
Theorem save_field_missing_key rec ppk fk entries e s :
  e ∈ entries →
  data e !! primary_key (fk_model_class fk) = None →
  save_field rec ppk (fk, entries) s
    = (Raise (KeyError (primary_key (fk_model_class fk))), s).
Proof.
  intros Hin Hnone. unfold save_field; simpl.
  destruct (forallb _ _) eqn:Hall; [|done]. exfalso.
  rewrite forallb_forall in Hall. apply list_elem_of_In in Hin.
  specialize (Hall e Hin). apply bool_decide_eq_true in Hall.
  rewrite Hnone in Hall. by destruct Hall.
Qed.

Lemma save_field_missing_key_witness :
  save_field save_inlines (VInt 1)
    (comment_post, [comment_entry (VInt 1) "changed" false;
                    Form {[ "text" := VStr "no key" ]} []]) db0
    = (Raise (KeyError "id"), db0).
Proof.
  apply (save_field_missing_key save_inlines (VInt 1) comment_post _
           (Form {[ "text" := VStr "no key" ]} [])).
  - right. left.
  - reflexivity.
Defined.

(** After [save_to] returns for an instance that is unsaved or names a
    stored row, the instance has a key and its row holds, for every ordinary
    field of the form that is a column of the model, the submitted value (the
    form's inline fields keeping their rows in other tables). *)
Theorem save_to_stores_submitted self obj s o s' :
  model_name (inst_model obj) ∉ tables self →
  (_get_pk_value (populate_obj self obj) = VNone ∨
   ∃ k, as_int (_get_pk_value (populate_obj self obj)) = Some k ∧
        is_Some (rows s !! (model_name (inst_model obj), k))) →
  save_to self obj s = (Ok o, s') →
  ∃ k r, as_int (_get_pk_value o) = Some k ∧
         rows s' !! (model_name (inst_model obj), k) = Some r ∧
         ∀ c v, data self !! c = Some v →
                c ∈ fields (inst_model obj) → c ≠ primary_key (inst_model obj) →
                r !! c = Some v.
Proof.
  intros Ht Hpk. rewrite FormsSpec.save_to_eq. unfold atomic, bind, begin.
  destruct (FormsSpec.save_to_body _ _ _) as [[a|e] s2] eqn:E; intros [= <- <-].
  unfold FormsSpec.save_to_body, bind in E.
  destruct (save _ _) as [[o1|?] s1] eqn:Esave; [|done].
  destruct (save_inlines self o1 s1) as [[[]|?] s3] eqn:Einl; [|done].
  injection E as <- <-.
  apply frame_save_inlines in Einl. destruct (Einl _ Ht) as [Hrows _].
  assert (∀ c v, data self !! c = Some v →
            c ∈ fields (inst_model obj) → c ≠ primary_key (inst_model obj) →
            field_dict (populate_obj self obj) !! c = Some v) as Hsub.
  { intros c v Hc Hf Hne. rewrite lookup_field_dict; simpl.
    rewrite decide_True by done.
    rewrite (lookup_union_Some_l _ _ _ _ Hc). done. }
  unfold save in Esave. destruct Hpk as [Hnone|(k & Hk & [old Hold])].
  - rewrite Hnone in Esave. injection Esave as <- <-. simpl in *.
    eexists _, _. split_and!.
    + unfold _get_pk_value, getattr, setattr; simpl. by rewrite lookup_insert_eq.
    + simpl. rewrite Hrows. apply lookup_insert_eq.
    + exact Hsub.
  - assert (rows s1 = <[(model_name (inst_model obj), k) :=
                           field_dict (populate_obj self obj) ∪ old]> (rows s) ∧
            o1 = populate_obj self obj) as [Hs1 ->].
    { destruct (_get_pk_value (populate_obj self obj)) as [|b|z|str];
        [done| | |done]; injection Esave as <- <-; simpl in Hk |- *;
        injection Hk as ->; simpl in Hold; by rewrite Hold. }
    exists k, (field_dict (populate_obj self obj) ∪ old).
    split_and!; [done | simpl; rewrite Hrows, Hs1; apply lookup_insert_eq |].
    intros c v Hc Hf Hne. apply lookup_union_Some_l. by apply Hsub.
Qed.

Lemma save_to_stores_submitted_witness :
  ∃ o s' r, save_to (post_form "edited" [comment_entry VNone "new" false]) post1 db0
              = (Ok o, s') ∧
            rows s' !! ("post", 1) = Some r ∧ r !! "title" = Some (VStr "edited").
Proof.
  destruct (save_to (post_form "edited" [comment_entry VNone "new" false]) post1 db0)
    as [[o|e] s'] eqn:E; [|by vm_compute in E].
  destruct (save_to_stores_submitted
              (post_form "edited" [comment_entry VNone "new" false]) post1 db0 o s')
    as (k & r & Hk & Hr & Hsub).
  - apply (bool_decide_unpack _). vm_compute. reflexivity.
  - right. exists 1. split; [reflexivity|]. vm_compute. eauto.
  - exact E.
  - assert (k = 1) as ->.
    { vm_compute in E. injection E as <- _. vm_compute in Hk. congruence. }
    exists o, s', r. split_and!; [done | done |].
    apply Hsub; [reflexivity | | done].
    right. left.
Defined.






End FormsMore.

(** ** Whose children a save writes *)

Module FormsOwnership.
Import Forms FormsFacts FormsFrame Blog.

(** A loop over a shared object with an invariant [I] on the object and the
    state; a run that raises leaves a state on which [Q] holds. *)
Lemma for_each_with_invariant {A E} (I : E → db → Prop) (Q : db → Prop)
    (body : E → A → M E) l :
  (∀ e s, I e s → Q s) →
  (∀ e x s r s', x ∈ l → I e s → body e x s = (r, s') →
     match r with Ok e' => I e' s' | Raise _ => Q s' end) →
  ∀ e s r s', I e s → for_each_with body l e s = (r, s') → Q s'.
Proof.
  intros HIQ. induction l as [|x l IH]; intros Hbody e s r s' He.
  - intros [= <- <-]. by eapply HIQ.
  - rewrite for_each_with_cons.
    destruct (body e x s) as [[e1|exn] s1] eqn:Hx.
    + apply IH.
      * intros e2 y s2 r2 s3 Hy. apply Hbody. by right.
      * apply (Hbody e x s (Ok e1) s1); [left | done | done].
    + intros [= <- <-]. apply (Hbody e x s (Raise exn) s1); [left | done | done].
Qed.

(** The row under key [k] of table [t] after [save o], for an instance with
    a key. *)
Lemma save_update_rows o s t k k' :
  _get_pk_value o ≠ VNone → as_int (_get_pk_value o) = Some k' →
  rows (save o s).2 !! (t, k) =
    if decide ((t, k) = (model_name (inst_model o), k'))
    then (λ old, field_dict o ∪ old) <$> rows s !! (t, k)
    else rows s !! (t, k).
Proof.
  intros Hset Hk'. unfold save.
  destruct (_get_pk_value o) as [|b|z|str]; [done| | |done];
    simpl in Hk' |- *; injection Hk' as <-;
    (destruct (decide _) as [[= -> ->]|Hne];
     [destruct (rows s !! (_, _)) eqn:E; simpl;
        [by rewrite lookup_insert_eq | by rewrite E]
     |destruct (rows s !! (model_name (inst_model o), _)); simpl;
        [by rewrite lookup_insert_ne | done]]).
Qed.

Section Owned.

Variable fk : foreign_key.
Variable ppk : value.
Variable ex0 : Z → option instance.
Variable bound : Z.

Let t := model_name (fk_model_class fk).

(** The link an instance is about to write is the parent's key. *)
Definition links_to_parent (o : instance) : Prop :=
  ∀ v, field_dict o !! name fk = Some v → py_eqb v ppk = true.

(** Each child selected at the start is gone or still the parent's. *)
Definition still_owned (s : db) : Prop :=
  bound ≤ next_id s t ∧
  ∀ k, is_Some (ex0 k) →
    rows s !! (t, k) = None ∨
    ∃ row, rows s !! (t, k) = Some row ∧ py_eqb (col row (name fk)) ppk = true.

Hypothesis ex0_bound : ∀ k, is_Some (ex0 k) → k < bound.

Lemma still_owned_same_outside T s s' :
  t ∉ T → same_outside T s s' → still_owned s → still_owned s'.
Proof.
  intros Ht Hsame [Hb Hrows]. destruct (Hsame t Ht) as [Hr Hn].
  split; [lia|]. intros k Hk. rewrite Hr. by apply Hrows.
Qed.

Lemma still_owned_insert o s :
  _get_pk_value o = VNone → still_owned s → still_owned (save o s).2.
Proof.
  intros Hpk [Hb Hrows].
  pose proof (ext_seq _ _ (evolves_save o s _ _ (surjective_pairing _)) t) as Hseq.
  split; [lia|]. unfold save. rewrite Hpk. cbn [snd rows].
  intros k Hk. rewrite lookup_insert_ne; [by apply Hrows|].
  intros [= Heq <-]. apply ex0_bound in Hk.
  replace (model_name (inst_model o)) with t in Hk by done. lia.
Qed.

Lemma still_owned_update o s k' :
  _get_pk_value o ≠ VNone → as_int (_get_pk_value o) = Some k' →
  links_to_parent o → still_owned s → still_owned (save o s).2.
Proof.
  intros Hset Hk' Hlink [Hb Hrows].
  pose proof (ext_seq _ _ (evolves_save o s _ _ (surjective_pairing _)) t) as Hseq.
  split; [lia|].
  - intros k Hk. rewrite (save_update_rows _ _ _ _ k') by done.
    destruct (decide _) as [_|_]; [|by apply Hrows].
    destruct (Hrows k Hk) as [->|(row & -> & Hrow)]; [by left|].
    right. eexists. split; [reflexivity|]. rewrite col_union.
    destruct (field_dict o !! name fk) as [v|] eqn:Hv; [by apply Hlink | done].
Qed.

Lemma still_owned_delete o s :
  still_owned s → still_owned (delete_instance o s).2.
Proof.
  intros [Hb Hrows]. split; [done|]. intros k Hk. simpl.
  destruct (as_int (_get_pk_value o)) as [k'|]; [|by apply Hrows].
  destruct (decide ((t, k) = (model_name (inst_model o), k'))) as [<-|Hne].
  - left. apply lookup_delete_eq.
  - rewrite lookup_delete_ne by done. by apply Hrows.
Qed.

Lemma links_to_parent_populate subform o :
  py_eqb (data_get subform (name fk) ppk) ppk = true →
  links_to_parent o → links_to_parent (populate_obj subform o).
Proof.
  intros Hguard Hlink v. rewrite lookup_field_dict.
  change (inst_model (populate_obj subform o)) with (inst_model o).
  destruct (decide _) as [Hc|]; [|done]. rewrite lookup_populate.
  destruct (data subform !! name fk) as [w|] eqn:Hw.
  - intros [= <-]. unfold data_get in Hguard. by rewrite Hw in Hguard.
  - intros Hv. apply Hlink. rewrite lookup_field_dict. by rewrite decide_True.
Qed.

(** What holds of [existing] and the rows while the entries are processed. *)
Definition owned_invariant (ex : Z → option instance) (s : db) : Prop :=
  children_of (fk_model_class fk) ex0 ex ∧
  (∀ k o, ex k = Some o → links_to_parent o) ∧
  still_owned s.

Lemma owned_save_entry subform ex s r s' :
  t ∉ tables subform →
  owned_invariant ex s →
  save_entry save_inlines fk ppk ex subform s = (r, s') →
  match r with Ok ex' => owned_invariant ex' s' | Raise _ => still_owned s' end.
Proof.
  intros Ht (Hex & Hlinks & Hown).
  assert (∀ o σ r σ', still_owned σ → save_inlines subform o σ = (r, σ') →
            still_owned σ') as Hrec.
  { intros o σ r1 σ' Hσ Hrun. apply frame_save_inlines in Hrun.
    by eapply still_owned_same_outside. }
  destruct (data subform !! primary_key (fk_model_class fk)) as [pkv|] eqn:Hpk;
    [|unfold save_entry; rewrite Hpk; by intros [= <- <-]].
  destruct (decide (pkv = VNone)) as [->|Hset].
  - rewrite save_entry_new by done.
    destruct (truthy _); [by intros [= <- <-]|].
    unfold bind.
    destruct (save_ok (populate_obj subform
                (setattr (new_instance (fk_model_class fk)) (name fk) ppk)) s)
      as [o1 E1]. rewrite E1.
    assert (still_owned (save (populate_obj subform
              (setattr (new_instance (fk_model_class fk)) (name fk) ppk)) s).2) as H1.
    { apply still_owned_insert; [by apply get_pk_populate | done]. }
    destruct (save_inlines subform o1 _) as [[[]|e] s2] eqn:E2; intros [= <- <-].
    + split_and!; [done | done | by eapply Hrec].
    + by eapply Hrec.
  - rewrite (save_entry_set _ _ _ _ _ pkv) by done.
    destruct (dict_get ex pkv) as [subobj|] eqn:Hget; [|by intros [= <- <-]].
    destruct (children_of_get _ _ _ _ _ Hex Hget) as (Hm & k' & Hk' & Hin & Hkey).
    assert (links_to_parent subobj) as Hlink.
    { unfold dict_get in Hget. rewrite Hk' in Hget. by eapply Hlinks. }
    destruct (negb _) eqn:Hguard; [by intros [= <- <-]|].
    intros Hrun.
    assert (match r with
            | Ok ex' => children_of (fk_model_class fk) ex0 ex'
            | Raise _ => True
            end) as Hex'.
    { destruct r as [ex'|]; [|done].
      eapply (children_of_save_entry save_inlines fk ppk ex0 ex subform s); [done|].
      rewrite (save_entry_set _ _ _ _ _ pkv) by done.
      rewrite Hget, Hguard. exact Hrun. }
    cbn [negb] in Hrun.
    destruct (truthy _).
    + unfold bind, ret in Hrun.
      destruct (delete_instance subobj s) as [[[]|e] s1] eqn:E1; [|done].
      injection Hrun as <- <-.
      assert (s1 = (delete_instance subobj s).2) as -> by by rewrite E1.
      split_and!; [done | done | by apply still_owned_delete].
    + unfold bind in Hrun.
      assert (_get_pk_value (populate_obj subform subobj) = pkv) as Hpop
        by (apply get_pk_populate; by rewrite Hm).
      assert (links_to_parent (populate_obj subform subobj)) as Hlink'
        by (apply links_to_parent_populate; [by apply negb_false_iff | done]).
      destruct (save_ok (populate_obj subform subobj) s) as [o1 E1].
      rewrite E1 in Hrun.
      assert (still_owned (save (populate_obj subform subobj) s).2) as H1.
      { apply (still_owned_update _ _ k'); by rewrite ?Hpop. }
      destruct (save_inlines subform o1 _) as [[[]|e] s2] eqn:E2;
        injection Hrun as <- <-; [|by eapply Hrec].
      split_and!; [done | | by eapply Hrec].
      intros k o. unfold dict_put. rewrite Hk'.
      case_bool_decide; [by intros [= <-] | apply Hlinks].
Qed.

End Owned.

Lemma links_to_parent_load fk ppk k r :
  py_eqb (col r (name fk)) ppk = true →
  links_to_parent fk ppk (load (fk_model_class fk) k r).
Proof.
  intros Hr v. rewrite lookup_field_dict.
  change (inst_model (load (fk_model_class fk) k r)) with (fk_model_class fk).
  destruct (decide _) as [[Hin Hne]|]; [|done].
  rewrite lookup_load, decide_False, decide_True by done. by intros [= <-].
Qed.

(** A child of the parent stays the parent's: after the entries of an inline
    field have been processed, whether the save returned or raised, each row
    that was selected as a child of the parent has been deleted or still
    links to the parent, whatever link values the entries submitted (the
    entries' own inline fields keeping their rows in other tables). *)
Theorem save_field_keeps_children_owned ppk fk entries s k :
  wf s →
  Forall (λ e, model_name (fk_model_class fk) ∉ tables e) entries →
  is_Some (existing_of (rows s) fk ppk k) →
  rows (save_field save_inlines ppk (fk, entries) s).2
    !! (model_name (fk_model_class fk), k) = None ∨
  ∃ row, rows (save_field save_inlines ppk (fk, entries) s).2
           !! (model_name (fk_model_class fk), k) = Some row ∧
         py_eqb (col row (name fk)) ppk = true.
Proof.
  intros Hwf Hflat Hk.
  set (t := model_name (fk_model_class fk)).
  set (ex0 := existing_of (rows s) fk ppk).
  assert (∀ k, is_Some (ex0 k) →
            ∃ r, rows s !! (t, k) = Some r ∧ py_eqb (col r (name fk)) ppk = true ∧
                 ex0 k = Some (load (fk_model_class fk) k r)) as Hex0.
  { intros k' [o Ho]. unfold ex0, existing_of in Ho |- *. fold t in Ho |- *.
    destruct (rows s !! (t, k')) as [r|]; [|done].
    destruct (py_eqb _ _) eqn:Hr; [|done]. eauto. }
  assert (∀ k, is_Some (ex0 k) → k < next_id s t) as Hbound.
  { intros k' Hk'. destruct (Hex0 k' Hk') as (r & Hr & _). apply Hwf. by rewrite Hr. }
  assert (still_owned fk ppk ex0 (next_id s t) s) as Hown.
  { split; [unfold t; lia|]. intros k' Hk'.
    destruct (Hex0 k' Hk') as (r & Hr & Hlink & _). right. eauto. }
  unfold save_field; simpl. destruct (forallb _ _).
  2:{ destruct Hown as [_ Hown]. exact (Hown k Hk). }
  unfold bind, select_related. fold ex0.
  set (s1 := {| rows := rows s; seqs := seqs s; txn := txn s; log := _ |}).
  assert (still_owned fk ppk ex0 (next_id s t)
            (for_each_with (save_entry save_inlines fk ppk) entries ex0 s1).2) as [_ Hend].
  { destruct (for_each_with _ entries ex0 s1) as [r s'] eqn:Hrun.
    apply (for_each_with_invariant
             (owned_invariant fk ppk ex0 (next_id s t))
             (still_owned fk ppk ex0 (next_id s t))
             (save_entry save_inlines fk ppk) entries) with ex0 s1 r.
    - by intros e σ (_ & _ & ?).
    - intros e x σ r1 σ' Hx He Hstep.
      apply (owned_save_entry fk ppk ex0 (next_id s t) Hbound x e σ); [|done|done].
      rewrite Forall_forall in Hflat. by apply Hflat.
    - split_and!; [apply children_of_select | | exact Hown].
      intros k' o Ho. destruct (Hex0 k') as (r0 & _ & Hlink & Heq); [by rewrite Ho|].
      rewrite Ho in Heq. injection Heq as ->. by apply links_to_parent_load.
    - done. }
  specialize (Hend k Hk).
  by destruct (for_each_with _ entries ex0 s1) as [[ex'|e] s'].
Qed.

Lemma save_field_keeps_children_owned_witness :
  rows (save_field save_inlines (VInt 1)
          (comment_post,
           [Form {[ "id" := VInt 1; "post" := VInt 1; "text" := VStr "mine still" ]} []])
          db0).2 !! ("comment", 1) = None ∨
  ∃ row, rows (save_field save_inlines (VInt 1)
                 (comment_post,
                  [Form {[ "id" := VInt 1; "post" := VInt 1;
                           "text" := VStr "mine still" ]} []])
                 db0).2 !! ("comment", 1) = Some row ∧
         py_eqb (col row "post") (VInt 1) = true.
Proof.
  apply (save_field_keeps_children_owned (VInt 1) comment_post _ db0 1).
  - apply wf_check_correct. vm_compute. reflexivity.
  - repeat constructor; apply not_elem_of_nil.
  - vm_compute. eauto.
Defined.

End FormsOwnership.

Module FormsNesting.
Import Forms FormsFacts FormsFrame Blog.

(** The recursion hands the key of a child on to the child's own children: a
    new entry that carries one new entry of its own is stored as two rows,
    the child under the next key of its table, linked to the parent, and the
    grandchild under the next key of its table, linked to the key the child
    was just given. *)
Theorem new_grandchild_linked_to_new_child ppk fk existing d fk2 d2 s :
  let m := fk_model_class fk in
  let m2 := fk_model_class fk2 in
  let subform := Form d [(fk2, [Form d2 []])] in
  d !! primary_key m = Some VNone →
  truthy (data_get subform "delete_" VNone) = false →
  d !! name fk = None → name fk ∈ fields m → name fk ≠ primary_key m →
  d2 !! primary_key m2 = Some VNone →
  truthy (data_get (Form d2 []) "delete_" VNone) = false →
  d2 !! name fk2 = None → name fk2 ∈ fields m2 → name fk2 ≠ primary_key m2 →
  wf s →
  ∃ s' k k2 child grandchild,
    save_entry save_inlines fk ppk existing subform s = (Ok existing, s') ∧
    k = next_id s (model_name m) ∧
    k2 = (if decide (model_name m2 = model_name m) then k + 1
          else next_id s (model_name m2)) ∧
    rows s' !! (model_name m, k) = Some child ∧ child !! name fk = Some ppk ∧
    rows s' !! (model_name m2, k2) = Some grandchild ∧
    grandchild !! name fk2 = Some (VInt k) ∧
    rows s ⊆ rows s'.
Proof.
  intros m m2 subform Hpk Hdel Hfk Hin Hne Hpk2 Hdel2 Hfk2 Hin2 Hne2 Hwf.
  destruct (FormsSpec.save_entry_creates save_inlines fk ppk existing subform s Hpk Hdel)
    as (Hrun & Hfree & Hlink).
  specialize (Hfree Hwf). specialize (Hlink Hfk Hin Hne).
  rewrite Hrun. clear Hrun. fold m in Hfree, Hlink |- *.
  set (k := next_id s (model_name m)) in *.
  set (subobj := populate_obj subform (setattr (new_instance m) (name fk) ppk)) in *.
  set (s1 := {| rows := <[(model_name m, k) := field_dict subobj]> (rows s);
                seqs := <[model_name m := k + 1]> (seqs s);
                txn := txn s;
                log := log s ++ [SInsert (model_name m) k] |}).
  assert (wf s1) as Hwf1.
  { assert (extends s s1) as Hext; [|by apply (ext_wf _ _ Hext)].
    apply (evolves_save subobj s (Ok (setattr subobj (primary_key m) (VInt k)))).
    unfold save, subobj. by rewrite (get_pk_populate subform _ VNone). }
  assert (_get_pk_value (setattr subobj (primary_key m) (VInt k)) = VInt k) as Hkey.
  { unfold _get_pk_value, getattr, setattr; simpl. by rewrite lookup_insert_eq. }
  set (s2 := {| rows := rows s1; seqs := seqs s1; txn := txn s1;
                log := log s1 ++ [SSelect (model_name m2) (name fk2) (VInt k)] |}).
  assert (wf s2) as Hwf2 by exact Hwf1.
  destruct (FormsSpec.save_entry_creates save_inlines fk2 (VInt k)
              (existing_of (rows s1) fk2 (VInt k)) (Form d2 []) s2 Hpk2 Hdel2)
    as (Hrun2 & Hfree2 & Hlink2).
  specialize (Hfree2 Hwf2). specialize (Hlink2 Hfk2 Hin2 Hne2).
  fold m2 in Hrun2, Hfree2, Hlink2.
  set (k2 := next_id s2 (model_name m2)) in *.
  set (gobj := populate_obj (Form d2 []) (setattr (new_instance m2) (name fk2) (VInt k)))
    in *.
  assert ((model_name m, k) ≠ (model_name m2, k2)) as Hdiff.
  { intros Heq. rewrite <- Heq in Hfree2. unfold s2, s1 in Hfree2. cbn [rows] in Hfree2.
    by rewrite lookup_insert_eq in Hfree2. }
  assert (save_inlines subform (setattr subobj (primary_key m) (VInt k)) s1
            = (Ok tt, {| rows := <[(model_name m2, k2) := field_dict gobj]> (rows s2);
                         seqs := <[model_name m2 := k2 + 1]> (seqs s2);
                         txn := txn s2;
                         log := log s2 ++ [SInsert (model_name m2) k2] |})) as Hnested.
  { unfold subform. rewrite save_inlines_eq. cbn [for_each].
    unfold bind at 1. unfold save_field; cbn [fst snd forallb data].
    rewrite Hkey. fold m2. rewrite Hpk2.
    rewrite bool_decide_eq_true_2 by done. cbn [andb].
    unfold bind at 1. unfold select_related at 1. fold s2.
    unfold bind at 1. rewrite for_each_with_cons.
    match goal with
    | |- context [save_entry save_inlines fk2 (VInt k) ?ex (Form d2 []) ?σ] =>
        change (save_entry save_inlines fk2 (VInt k) ex (Form d2 []) σ)
          with (save_entry save_inlines fk2 (VInt k)
                  (existing_of (rows s1) fk2 (VInt k)) (Form d2 []) s2)
    end.
    rewrite Hrun2. unfold bind at 1. rewrite save_inlines_eq. by cbn. }
  unfold bind. rewrite Hnested.
  eexists _, k, k2, _, _. split; [reflexivity|]. cbn [rows].
  split_and!.
  - done.
  - unfold k2, s2, s1, next_id. cbn [seqs]. rewrite lookup_insert.
    destruct (decide (model_name m = model_name m2)) as [Heq|Hneq].
    + rewrite decide_True by done. done.
    + rewrite decide_False by done. done.
  - unfold s2. cbn [rows]. rewrite lookup_insert_ne by done. apply lookup_insert_eq.
  - exact Hlink.
  - apply lookup_insert_eq.
  - exact Hlink2.
  - etrans; [apply (insert_subseteq _ (model_name m, k)); exact Hfree|].
    apply insert_subseteq. exact Hfree2.
Qed.

Lemma new_grandchild_linked_to_new_child_witness :
  ∃ s' child grandchild,
    save_entry save_inlines comment_post (VInt 1) (λ _, None)
      (Form {[ "id" := VNone; "text" := VStr "new" ]}
            [({| name := "comment"; fk_model_class :=
                   {| model_name := "vote"; primary_key := "id";
                      fields := ["id"; "comment"; "up"]; defaults := ∅ |};
                 related_name := "votes" |},
              [Form {[ "id" := VNone; "up" := VBool true ]} []])]) db0
      = (Ok (λ _, None), s') ∧
    rows s' !! ("comment", 3) = Some child ∧ child !! "post" = Some (VInt 1) ∧
    rows s' !! ("vote", 1) = Some grandchild ∧
    grandchild !! "comment" = Some (VInt 3).
Proof.
  destruct (new_grandchild_linked_to_new_child (VInt 1) comment_post (λ _, None)
              {[ "id" := VNone; "text" := VStr "new" ]}
              {| name := "comment"; fk_model_class :=
                   {| model_name := "vote"; primary_key := "id";
                      fields := ["id"; "comment"; "up"]; defaults := ∅ |};
                 related_name := "votes" |}
              {[ "id" := VNone; "up" := VBool true ]} db0)
    as (s' & k & k2 & child & grandchild & Hrun & Hk & Hk2 & Hc & Hcl & Hg & Hgl & _);
    try reflexivity; try done.
  - right. left.
  - right. left.
  - apply wf_check_correct. vm_compute. reflexivity.
  - assert (k = 3) as -> by (rewrite Hk; reflexivity).
    assert (k2 = 1) as -> by (rewrite Hk2; reflexivity).
    exists s', child, grandchild. done.
Defined.

End FormsNesting.

(** ** More on the schema converter *)

Module OrmFacts.
Import Orm.

(** *** The loops of [convert], by the entry they stop at *)

Lemma convert_defaults_at self field kw table c cls :
  find (λ cw, isinstance field cw.1) table = Some (c, cls) →
  convert_defaults self field kw table = convert_defaults self field kw [(c, cls)].
Proof.
  induction table as [|[c' cls'] table IH]; [done|].
  cbn [find fst]. destruct (isinstance field c') eqn:Hc.
  - intros [= -> ->]. cbn [convert_defaults]. by rewrite Hc.
  - intros Hfind. cbn [convert_defaults]. rewrite Hc. cbn [negb].
    rewrite (IH Hfind). cbn [convert_defaults].
    apply find_some in Hfind as [_ Hc']. cbn [fst] in Hc'. by rewrite Hc'.
Qed.

Lemma convert_converters_none self model field kw cs :
  (∀ cf, cf ∈ cs → isinstance field cf.1 = false) →
  convert_converters self model field kw cs = convert_defaults self field kw defaults.
Proof.
  induction cs as [|[c fn] cs IH]; intros Hall; [done|].
  cbn [convert_converters]. pose proof (Hall (c, fn)) as Hc. cbn [fst] in Hc.
  rewrite Hc by left. apply IH. intros cf Hcf. apply Hall. by right.
Qed.

Lemma convert_converters_at self model field kw cs c fn :
  find (λ cf, isinstance field cf.1) cs = Some (c, fn) →
  convert_converters self model field kw cs =
    match fn with
    | handle_foreign_key_fn => Ok (field_name field, handle_foreign_key field kw)
    | additional_fn => Ok (field_name field, FromConverter c model (field_name field) kw)
    end.
Proof.
  induction cs as [|[c' fn'] cs IH]; [done|].
  cbn [find fst convert_converters]. destruct (isinstance field c').
  - by intros [= -> ->].
  - exact IH.
Qed.

Lemma convert_plain self model field args :
  field_name field ∉ overrides self → field_wtf_field field = false →
  convert self model field args =
    convert_converters self model field (prepare_kwargs field args) (converters self).
Proof.
  intros Hov Hwtf. unfold convert. rewrite bool_decide_eq_false_2 by done.
  by rewrite Hwtf.
Qed.

(** *** Dicts in insertion order *)

Lemma elem_of_dict_set {K V} `{EqDecision K} (d : list (K * V)) k v x :
  x ∈ dict_set d k v → x = (k, v) ∨ x ∈ d.
Proof.
  induction d as [|[k' v'] d IH]; simpl.
  - intros ->%list_elem_of_singleton. by left.
  - destruct (decide (k' = k)) as [->|Hne].
    + intros [->|Hx]%elem_of_cons; [by left | right; by right].
    + intros [->|Hx]%elem_of_cons; [right; left|].
      destruct (IH Hx) as [->|Hd]; [by left | right; by right].
Qed.

Lemma dict_set_keys {K V} `{EqDecision K} (d : list (K * V)) k v key :
  key ∈ (dict_set d k v).*1 ↔ key = k ∨ key ∈ d.*1.
Proof.
  induction d as [|[k' v'] d IH]; simpl.
  - rewrite list_elem_of_singleton. rewrite elem_of_nil. tauto.
  - destruct (decide (k' = k)) as [->|Hne]; simpl.
    + rewrite !elem_of_cons. tauto.
    + rewrite !elem_of_cons, IH. tauto.
Qed.

Lemma dict_set_same {K V} `{EqDecision K} (d : list (K * V)) k v :
  (k, v) ∈ dict_set d k v.
Proof.
  induction d as [|[k' v'] d IH]; simpl; [left|].
  destruct (decide (k' = k)); [left | by right].
Qed.

End OrmFacts.

Module OrmMore.
Import Orm Shop OrmFacts.

(** *** Validators *)

(** [field_args] giving one field validators of the caller's. *)
Definition with_validators (vs : list validator) : field_args :=
  {| fa_label := None; fa_validators := Some vs; fa_filters := None;
     fa_default := None; fa_description := None; fa_choices := None;
     fa_coerce := None; fa_allow_blank := None |}.

(** Whatever builds the form field (an override, the field's own
    [wtf_field], a converter or a class of the default table), the keyword
    arguments [convert] calls it with carry the caller's validators, in
    their order, followed by at most one validator of the converter's:
    [Optional] when the field is nullable or has a default and declares no
    choices; otherwise [Required] when its class is among the required ones;
    otherwise none.  They never carry both. *)
Theorem convert_appends_one_validator self model field args name u :
  convert self model field args = Ok (name, u) →
  kw_validators (kwargs_of u) =
    default [] (fa_validators args) ++
    (if (field_null field || negb (bool_decide (field_default field = VNone)))
        && negb (has_choices field)
     then [Optional]
     else if existsb (isinstance field) required then [Required] else []).
Proof.
  intros Hconv. apply OrmSpec.convert_validators in Hconv as [_ ->].
  unfold prepare_kwargs.
  destruct (_ && _); [by destruct (field_null field)|].
  destruct (existsb _ _); destruct (field_null field); simpl; by rewrite ?app_nil_r.
Qed.

Lemma convert_appends_one_validator_witness :
  ∃ u v, convert (new_converter [] [] []) "Post" (plain_field "title" CharField)
           (with_validators [OtherValidator "length" Passes]) = Ok ("title", u) ∧
         kw_validators (kwargs_of u) = [OtherValidator "length" Passes; Required] ∧
         convert (new_converter [] [] []) "Post" (plain_field "views" IntegerField) no_args
           = Ok ("views", v) ∧
         kw_validators (kwargs_of v) = [].
Proof.
  eexists _, _. split; [vm_compute; reflexivity|]. split.
  - apply (convert_appends_one_validator (new_converter [] [] []) "Post"
             (plain_field "title" CharField)
             (with_validators [OtherValidator "length" Passes]) "title" _ eq_refl).
  - split; [vm_compute; reflexivity|].
    apply (convert_appends_one_validator (new_converter [] [] []) "Post"
             (plain_field "views" IntegerField) no_args "views" _ eq_refl).
Defined.

(** *** The default table *)

(** The classes the table lists before [IntegerField], and [ForeignKeyField]. *)
Definition before_IntegerField : list field_class :=
  [BareField; BigIntegerField; BlobField; BooleanField; CharField; DateField;
   DateTimeField; DecimalField; DoubleField; FloatField; PrimaryKeyField;
   ForeignKeyField].

(** A class that derives from [TimestampField] derives from [IntegerField]
    and from none of the classes the table lists before it. *)
Lemma mro_timestamp c :
  TimestampField ∈ mro c →
  IntegerField ∈ mro c ∧ ∀ b, b ∈ before_IntegerField → b ∉ mro c.
Proof.
  induction c as [| | | | | | | | | | | | | | | | |q base IH];
    try (intros H; exfalso; revert H; apply (bool_decide_eq_false_1 _); reflexivity).
  - intros _. split; [apply (bool_decide_unpack _); reflexivity|].
    intros b Hb.
    repeat (apply elem_of_cons in Hb as [->|Hb];
            [apply (bool_decide_eq_false_1 _); reflexivity|]).
    by apply elem_of_nil in Hb.
  - cbn [mro]. intros [?|H]%elem_of_cons; [done|].
    destruct (IH H) as [Hint Hnot]. split; [by right|].
    intros b Hb [->|Hin]%elem_of_cons; [|by eapply Hnot].
    repeat (apply elem_of_cons in Hb as [?|Hb]; [done|]).
    by apply elem_of_nil in Hb.
Qed.

(** The table's entry for [TimestampField] comes after the entry for
    [IntegerField], from which [TimestampField] derives: for a timestamp
    field the first entry that matches is [IntegerField]'s, so the field
    becomes a plain integer input with its filters kept, never the date and
    time field the table names for it. *)
Theorem timestamp_field_is_integer_input self model field args :
  isinstance field TimestampField = true →
  find (λ cw, isinstance field cw.1) defaults = Some (IntegerField, f_IntegerField) ∧
  (field_name field ∉ overrides self → field_wtf_field field = false →
   (∀ cf, cf ∈ converters self → isinstance field cf.1 = false) →
   has_choices field = false → fa_choices args = None →
   convert self model field args
     = Ok (field_name field, Widget f_IntegerField (prepare_kwargs field args))).
Proof.
  intros Hts. apply bool_decide_eq_true in Hts.
  destruct (mro_timestamp _ Hts) as [Hint Hnot].
  assert (∀ b, b ∈ before_IntegerField → isinstance field b = false) as Hf.
  { intros b Hb. apply bool_decide_eq_false. by apply Hnot. }
  assert (isinstance field IntegerField = true) as Hi by by apply bool_decide_eq_true.
  assert (find (λ cw, isinstance field cw.1) defaults
            = Some (IntegerField, f_IntegerField)) as Hfind.
  { unfold defaults.
    repeat (cbn [find fst];
            rewrite Hf by (apply (bool_decide_unpack _); reflexivity)).
    cbn [find fst]. by rewrite Hi. }
  split; [done|].
  intros Hov Hwtf Hcs Hch Hargs.
  rewrite convert_plain, convert_converters_none by done.
  rewrite (convert_defaults_at _ _ _ _ _ _ Hfind). cbn [convert_defaults].
  rewrite Hi, Hch. cbn [negb is_FormField orb].
  destruct (OrmSpec.prepare_kwargs_choices field args) as [-> _]. by rewrite Hargs.
Qed.

Lemma timestamp_field_is_integer_input_witness :
  convert (new_converter [] [] []) "Event" (plain_field "at" TimestampField) no_args
    = Ok ("at", Widget f_IntegerField
                  (prepare_kwargs (plain_field "at" TimestampField) no_args)).
Proof.
  destruct (timestamp_field_is_integer_input (new_converter [] [] []) "Event"
              (plain_field "at" TimestampField) no_args) as [_ H]; [reflexivity|].
  apply H; try reflexivity.
  - apply not_elem_of_nil.
  - intros cf Hcf. repeat (apply elem_of_cons in Hcf as [->|Hcf]; [reflexivity|]).
    by apply elem_of_nil in Hcf.
Defined.

(** *** Choices *)

(** A field with choices whose class has no coercion registered: if the
    caller passes no [coerce], the choices are dropped and the field becomes
    the table's plain form field; if the caller does pass [coerce], the
    conversion raises [KeyError] for the class instead of using it. *)
Theorem choices_without_coercion self model field args c cls :
  field_name field ∉ overrides self → field_wtf_field field = false →
  (∀ cf, cf ∈ converters self → isinstance field cf.1 = false) →
  find (λ cw, isinstance field cw.1) defaults = Some (c, cls) →
  has_choices field || bool_decide (is_Some (fa_choices args)) = true →
  dict_lookup (coerce_settings self) c = None →
  match fa_coerce args with
  | Some _ => convert self model field args = Raise (KeyError (type_repr c))
  | None =>
      ∃ kw, convert self model field args = Ok (field_name field, Widget cls kw) ∧
            kw_choices kw = None
  end.
Proof.
  intros Hov Hwtf Hcs Hfind Hch Hco.
  rewrite convert_plain, convert_converters_none by done.
  rewrite (convert_defaults_at _ _ _ _ _ _ Hfind). cbn [convert_defaults].
  apply find_some in Hfind as [_ Hc]. cbn [fst] in Hc. rewrite Hc. cbn [negb].
  destruct (OrmSpec.prepare_kwargs_choices field args) as [Hkc Hkco].
  destruct (is_FormField cls); cbn [pop_filters pop_choices kw_choices kw_coerce];
    rewrite Hkc, Hch, Hco, Hkco; destruct (fa_coerce args); eauto.
Qed.

(** [field_args] giving one field a coercion of the caller's. *)
Definition with_coerce (fn : coerce_fn) : field_args :=
  {| fa_label := None; fa_validators := None; fa_filters := None;
     fa_default := None; fa_description := None; fa_choices := None;
     fa_coerce := Some fn; fa_allow_blank := None |}.

Definition yes_no : model_field :=
  with_choices [(VBool true, "yes"); (VBool false, "no")]
    (plain_field "done" BooleanField).

Lemma choices_without_coercion_witness :
  (∃ kw, convert (new_converter [] [] []) "Task" yes_no no_args
           = Ok ("done", Widget f_BooleanField kw) ∧ kw_choices kw = None) ∧
  convert (new_converter [] [] []) "Task" yes_no (with_coerce (coerce_other "bool"))
    = Raise (KeyError "<class 'peewee.BooleanField'>").
Proof.
  assert (∀ cf, cf ∈ converters (new_converter [] [] []) →
                isinstance yes_no cf.1 = false) as Hcs.
  { intros cf Hcf. repeat (apply elem_of_cons in Hcf as [->|Hcf]; [reflexivity|]).
    by apply elem_of_nil in Hcf. }
  split.
  - apply (choices_without_coercion (new_converter [] [] []) "Task" yes_no no_args
             BooleanField f_BooleanField);
      [apply not_elem_of_nil | reflexivity | exact Hcs | reflexivity..].
  - apply (choices_without_coercion (new_converter [] [] []) "Task" yes_no
             (with_coerce (coerce_other "bool")) BooleanField f_BooleanField);
      [apply not_elem_of_nil | reflexivity | exact Hcs | reflexivity..].
Defined.


(** *** The key field of an inline form *)

(** [convert_fields] generates an inline form with
    [field_args = {pk_name: {'validators': [Optional()]}}].  The child
    model's [PrimaryKeyField] so becomes a [HiddenIntegerField] whose
    validators are [Optional] and then [Required]: an entry submitted without
    an identifier passes validation, since [Optional] ends the chain before
    [Required] is asked. *)
Theorem inline_key_field_accepts_missing_id self model field :
  field_type field = PrimaryKeyField →
  field_null field = false → field_default field = VNone →
  has_choices field = false →
  field_name field ∉ overrides self → field_wtf_field field = false →
  (∀ cf, cf ∈ converters self → isinstance field cf.1 = false) →
  ∃ kw, convert self model field (with_validators [Optional])
          = Ok (field_name field, Widget HiddenIntegerField kw) ∧
        kw_validators kw = [Optional; Required] ∧
        OrmSpec.run_validation_chain (kw_validators kw) [] = [].
Proof.
  intros Htype Hnull Hdef Hch Hov Hwtf Hcs.
  assert (∀ c, isinstance field c = issubclass PrimaryKeyField c) as Hinst
    by (intros c; unfold isinstance; by rewrite Htype).
  assert (find (λ cw, isinstance field cw.1) defaults
            = Some (PrimaryKeyField, HiddenIntegerField)) as Hfind.
  { unfold defaults. repeat (cbn [find fst]; rewrite Hinst;
      match goal with
      | |- context [issubclass PrimaryKeyField ?c] =>
          change (issubclass PrimaryKeyField c) with false
          || change (issubclass PrimaryKeyField c) with true
      end; cbv iota).
    reflexivity. }
  rewrite convert_plain, convert_converters_none by done.
  rewrite (convert_defaults_at _ _ _ _ _ _ Hfind). cbn [convert_defaults].
  rewrite Hinst. change (issubclass PrimaryKeyField PrimaryKeyField) with true.
  rewrite Hch. cbn [negb is_FormField orb].
  destruct (OrmSpec.prepare_kwargs_choices field (with_validators [Optional])) as [-> _].
  cbn [fa_choices with_validators]. rewrite bool_decide_eq_false_2 by by intros [? ?].
  eexists. split; [reflexivity|].
  assert (kw_validators (prepare_kwargs field (with_validators [Optional]))
            = [Optional; Required]) as ->; [|done].
  unfold prepare_kwargs. rewrite Hnull, Hdef, Hch. cbn [orb andb negb].
  rewrite bool_decide_eq_true_2 by done. cbn [negb andb].
  assert (existsb (isinstance field) required = true) as ->; [|done].
  unfold required. cbn [existsb]. rewrite !Hinst. reflexivity.
Qed.

Lemma inline_key_field_accepts_missing_id_witness :
  ∃ kw, convert (new_converter [] [] []) "Comment" (plain_field "id" PrimaryKeyField)
          (with_validators [Optional]) = Ok ("id", Widget HiddenIntegerField kw) ∧
        kw_validators kw = [Optional; Required] ∧
        OrmSpec.run_validation_chain (kw_validators kw) [] = [].
Proof.
  apply (inline_key_field_accepts_missing_id (new_converter [] [] []) "Comment"
           (plain_field "id" PrimaryKeyField)); try reflexivity.
  - apply not_elem_of_nil.
  - intros cf Hcf. repeat (apply elem_of_cons in Hcf as [->|Hcf]; [reflexivity|]).
    by apply elem_of_nil in Hcf.
Defined.

(** *** Foreign keys *)

Lemma prepare_kwargs_select field args :
  kw_allow_blank (prepare_kwargs field args) = fa_allow_blank args ∧
  kw_query (prepare_kwargs field args) = None ∧
  kw_model (prepare_kwargs field args) = None.
Proof. unfold prepare_kwargs. by repeat (case_match; simpl). Qed.

(** A foreign key that [handle_foreign_key] converts: when the field is
    nullable the form field allows a blank choice whatever [field_args] say
    about it, otherwise it is as [field_args] say; the form field selects
    from the declared choices when the field declares any (an empty list
    too), else from all rows of the related model. *)
Theorem nullable_foreign_key_allows_blank self model field args c :
  field_name field ∉ overrides self → field_wtf_field field = false →
  find (λ cf, isinstance field cf.1) (converters self) = Some (c, handle_foreign_key_fn) →
  ∃ kw, convert self model field args
          = Ok (field_name field, Widget (OrmSpec.foreign_key_class field) kw) ∧
        kw_allow_blank kw = (if field_null field then Some true else fa_allow_blank args) ∧
        kw_query kw = field_choices field ∧
        kw_model kw = match field_choices field with
                      | Some _ => None
                      | None => Some (field_rel_model field)
                      end.
Proof.
  intros Hov Hwtf Hfind. rewrite convert_plain by done.
  rewrite (convert_converters_at _ _ _ _ _ _ _ Hfind).
  destruct (prepare_kwargs_select field args) as (Hb & Hq & Hm).
  unfold handle_foreign_key, OrmSpec.foreign_key_class.
  destruct (field_null field), (field_choices field);
    eexists; (split; [reflexivity|]); simpl; by rewrite ?Hb, ?Hq, ?Hm.
Qed.

(** [field_args] that ask for no blank choice. *)
Definition without_blank : field_args :=
  {| fa_label := None; fa_validators := None; fa_filters := None;
     fa_default := None; fa_description := None; fa_choices := None;
     fa_coerce := None; fa_allow_blank := Some false |}.

Lemma nullable_foreign_key_allows_blank_witness :
  ∃ kw, convert (new_converter [] [] []) "Category"
          (nullable (foreign_key_to "parent" "Category")) without_blank
          = Ok ("parent", Widget ModelSelectField kw) ∧
        kw_allow_blank kw = Some true ∧ kw_model kw = Some "Category".
Proof.
  destruct (nullable_foreign_key_allows_blank (new_converter [] [] []) "Category"
              (nullable (foreign_key_to "parent" "Category")) without_blank
              ForeignKeyField) as (kw & Hconv & Hb & _ & Hm);
    [apply not_elem_of_nil | reflexivity | reflexivity |].
  exists kw. split_and!; [exact Hconv | exact Hb | exact Hm].
Defined.

(** [ForeignKeyField] heads the converters, with the caller's converter for
    it when [additional] has one and the built-in handler otherwise. *)
Lemma converters_head additional additional_coerce overrides :
  ∃ rest, converters (new_converter additional additional_coerce overrides)
            = (ForeignKeyField,
               if bool_decide (ForeignKeyField ∈ additional)
               then additional_fn else handle_foreign_key_fn) :: rest.
Proof.
  unfold new_converter, dict_update; cbn [converters].
  generalize (@nil (field_class * converter_fn)). generalize handle_foreign_key_fn.
  induction additional as [|c l IH]; intros v d; [by eexists|].
  cbn [fmap list_fmap foldl dict_set fst snd].
  destruct (decide (ForeignKeyField = c)) as [<-|Hne].
  - destruct (IH additional_fn d) as [rest ->].
    rewrite (bool_decide_eq_true_2 (ForeignKeyField ∈ ForeignKeyField :: l)) by left.
    exists rest. by destruct (bool_decide _).
  - destruct (IH v (dict_set d c additional_fn)) as [rest ->]. exists rest.
    destruct (decide (ForeignKeyField ∈ l)) as [Hin|Hout].
    + rewrite !bool_decide_eq_true_2; [done | by right | done].
    + rewrite !bool_decide_eq_false_2; [done | | done].
      by intros [?|?]%elem_of_cons.
Qed.

(** A foreign key, and so every field of a class derived from
    [ForeignKeyField], is converted by the first converter, the one for
    [ForeignKeyField]: the caller's if [additional] names that class,
    otherwise the built-in handler.  A converter the caller registers for a
    class derived from [ForeignKeyField] is never reached. *)
Theorem foreign_key_converter_comes_first additional additional_coerce overrides
    model field args :
  isinstance field ForeignKeyField = true →
  field_name field ∉ overrides → field_wtf_field field = false →
  convert (new_converter additional additional_coerce overrides) model field args =
    Ok (field_name field,
        if bool_decide (ForeignKeyField ∈ additional)
        then FromConverter ForeignKeyField model (field_name field)
               (prepare_kwargs field args)
        else handle_foreign_key field (prepare_kwargs field args)).
Proof.
  intros Hfk Hov Hwtf. rewrite convert_plain by done.
  destruct (converters_head additional additional_coerce overrides) as [rest ->].
  cbn [convert_converters]. rewrite Hfk. by destruct (bool_decide _).
Qed.

Definition UserKey : field_class := Subclass "app.UserKey" ForeignKeyField.

Lemma foreign_key_converter_comes_first_witness :
  convert (new_converter [UserKey] [] []) "Post"
    (plain_field "author" UserKey) no_args
  = Ok ("author", handle_foreign_key (plain_field "author" UserKey)
                    (prepare_kwargs (plain_field "author" UserKey) no_args)).
Proof.
  apply (foreign_key_converter_comes_first [UserKey] [] [] "Post"
           (plain_field "author" UserKey) no_args);
    [reflexivity | apply not_elem_of_nil | reflexivity].
Defined.

(** *** The null filter *)





End OrmMore.

Module FormGeneration.
Import Orm Shop OrmFacts.

(** *** The fields of a generated form *)

Lemma insert_sorted_elem {V} (kv x : string * V) l :
  x ∈ insert_sorted kv l ↔ x = kv ∨ x ∈ l.
Proof.
  induction l as [|kv' l IH]; simpl.
  - rewrite list_elem_of_singleton, elem_of_nil. tauto.
  - destruct (String.leb _ _); rewrite !elem_of_cons, ?IH; tauto.
Qed.

Lemma sorted_items_elem {V} (x : string * V) l : x ∈ sorted_items l ↔ x ∈ l.
Proof.
  unfold sorted_items. induction l as [|kv l IH]; simpl; [done|].
  rewrite insert_sorted_elem, elem_of_cons, IH. tauto.
Qed.

(** The loop over the model's fields adds ordinary form fields only. *)
Lemma convert_model_fields_members self model field_args model_fields fd0 fd :
  convert_model_fields self model field_args model_fields fd0 = Ok fd →
  ∀ key m, (key, m) ∈ fd → (key, m) ∈ fd0 ∨ ∃ u, m = Unbound u.
Proof.
  revert fd0. induction model_fields as [|f rest IH]; intros fd0.
  - intros [= <-]. auto.
  - cbn [convert_model_fields].
    destruct (convert self (model_name model) f _) as [[name u]|e]; [|done].
    intros H key m Hin. destruct (IH _ H key m Hin) as [Hd|?]; [|by right].
    destruct (elem_of_dict_set _ _ _ _ Hd) as [[= -> ->]|?]; [right; by eexists | by left].
Qed.

(** The loop over the inlines adds one list field under each related name,
    at the next depth, around the form [form] returns for the child model. *)
Lemma convert_inlines_members schema (form : form_fn) only exclude depth inlines fd0 fd :
  convert_inlines schema form only exclude depth inlines fd0 = Some (Ok fd) →
  (∀ key, key ∈ fd.*1 ↔ key ∈ fd0.*1 ∨ key ∈ inlines.*1) ∧
  (∀ key m, (key, m) ∈ fd → (key, m) ∈ fd0 ∨
     ∃ fk inner sub sub_only sub_exclude field_args,
       m = ModelListField fk inner (S depth) ∧
       schema !! fk_model_class fk = Some sub ∧
       form sub true sub_only sub_exclude field_args true true (S depth)
         = Some (Ok inner)).
Proof.
  revert fd0. induction inlines as [|[name fk] rest IH]; intros fd0.
  - intros [= <-]. split; [|auto]. intros key. rewrite fmap_nil, elem_of_nil. tauto.
  - cbn [convert_inlines].
    destruct (schema !! fk_model_class fk) as [sub|] eqn:Hsub; [|done].
    match goal with
    | |- context [run_bind ?c _] => destruct c as [[inner|e]|] eqn:Hform; [|done|done]
    end.
    cbn [run_bind]. intros H. destruct (IH _ H) as [Hkeys Hmem]. split.
    + intros key. rewrite Hkeys, dict_set_keys, fmap_cons, elem_of_cons. simpl. tauto.
    + intros key m Hin. destruct (Hmem key m Hin) as [Hd|?]; [|by right].
      destruct (elem_of_dict_set _ _ _ _ Hd) as [[= -> ->]|?]; [|by left].
      right. by eexists _, _, _, _, _, _.
Qed.

(** A converter that was built without [additional]: every entry of
    [self.converters] is the converter's own [handle_foreign_key]. *)
Definition own_converters (self : ModelConverter) : Prop :=
  Forall (λ cf : field_class * converter_fn, cf.2 = handle_foreign_key_fn)
         (converters self).

(** Every [return] of [convert] but the one that hands on the result of a
    callable from [additional] pairs the form field with [field.name]. *)
Lemma convert_name self model field args name u :
  own_converters self →
  convert self model field args = Ok (name, u) → name = field_name field.
Proof.
  unfold own_converters, convert. intros Hown.
  destruct (bool_decide _); [by intros [= <- _]|].
  destruct (field_wtf_field field); [by intros [= <- _]|].
  induction Hown as [|[c fn] cs Hfn _ IH]; cbn [convert_converters].
  - intros H. by apply OrmSpec.convert_defaults_validators in H as [-> _].
  - simpl in Hfn. subst fn. destruct (isinstance field c); [|exact IH].
    by intros [= <- _].
Qed.

Lemma convert_model_fields_keys self model field_args model_fields fd0 fd key :
  own_converters self →
  convert_model_fields self model field_args model_fields fd0 = Ok fd →
  key ∈ fd.*1 ↔ key ∈ fd0.*1 ∨ key ∈ field_name <$> model_fields.
Proof.
  intros Hown. revert fd0. induction model_fields as [|f rest IH]; intros fd0.
  - intros [= <-]. rewrite fmap_nil, elem_of_nil. tauto.
  - cbn [convert_model_fields].
    destruct (convert self (model_name model) f _) as [[name u]|e] eqn:Hconv; [|done].
    apply convert_name in Hconv as ->; [|done].
    intros H. rewrite (IH _ H), dict_set_keys, fmap_cons, elem_of_cons. tauto.
Qed.

(** Whether [only] and [exclude] let a name through: [only], when it is
    given and not empty, decides alone. *)
Definition kept (only exclude : option (list string)) (key : string) : Prop :=
  if given only then key ∈ names only
  else if given exclude then key ∉ names exclude
  else True.

(** For a converter built without [additional] converters, the names under
    which [convert_fields] returns form fields are exactly: the names of the
    model's fields, the first (the key) only with [allow_pk], and, with
    [include_inlines], the related names of the model's reverse relations;
    each only if [only] and [exclude] let it through. *)
Theorem convert_fields_keys self schema fuel model allow_pk only exclude field_args
    include_inlines depth fd key :
  own_converters self →
  convert_fields self schema fuel model allow_pk only exclude field_args
    include_inlines depth = Some (Ok fd) →
  key ∈ fd.*1 ↔
    kept only exclude key ∧
    ((∃ f, f ∈ (if allow_pk then sorted_fields model else tail (sorted_fields model)) ∧
           field_name f = key) ∨
     (include_inlines = true ∧ ∃ fk, (key, fk) ∈ reverse_rel model)).
Proof.
  intros Hown. unfold convert_fields, convert_fields_with.
  set (fields := if allow_pk then sorted_fields model else tail (sorted_fields model)).
  assert ((if allow_pk then Some (sorted_fields model)
           else match sorted_fields model with [] => None | _ :: l => Some l end)
          = Some fields ∨
          (if allow_pk then Some (sorted_fields model)
           else match sorted_fields model with [] => None | _ :: l => Some l end)
          = None) as Hpop.
  { subst fields. destruct allow_pk; [by left|]. destruct (sorted_fields model); auto. }
  destruct Hpop as [-> | ->]; [|done].
  set (mf := if given only then _ else _).
  set (il := if given only then _ else _).
  assert (∀ f, f ∈ mf ↔ kept only exclude (field_name f) ∧ f ∈ fields) as Hmf.
  { intros f. subst mf. unfold kept. destruct (given only).
    - by rewrite list_elem_of_filter.
    - destruct (given exclude); [by rewrite list_elem_of_filter | tauto]. }
  assert (∀ kr, kr ∈ il ↔ kept only exclude kr.1 ∧ kr ∈ reverse_rel model) as Hil.
  { intros kr. subst il. unfold kept. destruct (given only).
    - rewrite list_elem_of_filter, sorted_items_elem. tauto.
    - destruct (given exclude).
      + rewrite list_elem_of_filter, sorted_items_elem. tauto.
      + rewrite sorted_items_elem. tauto. }
  destruct (convert_model_fields _ _ _ _ _) as [fd1|e] eqn:H1; [|done].
  pose proof (convert_model_fields_keys _ _ _ _ _ _ key Hown H1) as Hk1.
  assert (key ∈ fd1.*1 ↔
            kept only exclude key ∧ ∃ f, f ∈ fields ∧ field_name f = key) as Hfd1.
  { rewrite Hk1, fmap_nil, elem_of_nil, list_elem_of_fmap. split.
    - intros [[]|(f & -> & Hf)]. apply Hmf in Hf as [? ?]. eauto.
    - intros (Hkept & f & Hf & <-). right. exists f. split; [done|]. by apply Hmf. }
  destruct include_inlines.
  - intros H2. apply convert_inlines_members in H2 as [Hk2 _].
    rewrite Hk2, Hfd1, list_elem_of_fmap. split.
    + intros [[? ?]|([k fk] & -> & Hkr)]; [tauto|].
      apply Hil in Hkr as [? ?]. simpl in *. split; [done|]. right. eauto.
    + intros [Hkept [?|[_ [fk Hfk]]]]; [tauto|].
      right. exists (key, fk). split; [done|]. by apply Hil.
  - intros [= <-]. rewrite Hfd1. split; [tauto|].
    intros [Hkept [?|[? _]]]; [tauto | done].
Qed.

(** [title] is named by both lists: [only] decides, [exclude] is not read. *)
Lemma convert_fields_keys_witness :
  ∃ fd, convert_fields (new_converter [] [] []) schema 3 Post false
          (Some ["title"]) (Some ["title"]) [] true 0 = Some (Ok fd) ∧
        "title" ∈ fd.*1.
Proof.
  eexists. split; [vm_compute; reflexivity|].
  apply (proj2 (convert_fields_keys (new_converter [] [] []) schema 3 Post false
                  (Some ["title"]) (Some ["title"]) [] true 0 _ "title"
                  ltac:(repeat constructor) eq_refl)).
  split; [left|]. left. exists (plain_field "title" CharField).
  split; [left | done].
Defined.

(** *** Forms without inlines *)

Definition is_list_field (m : form_member) : bool :=
  match m with
  | ModelListField _ _ _ => true
  | _ => false
  end.

(** Without [include_inlines], [form] makes no nested call: on every schema,
    also one whose relations form a cycle, it returns a form class or raises,
    and the class it returns has no list field. *)
Theorem form_without_inlines_returns self schema fuel model allow_pk only exclude
    field_args allow_delete depth :
  ∃ r, form self schema (S fuel) model allow_pk only exclude field_args allow_delete
         false depth = Some r ∧
       match r with
       | Ok (FormClass _ fs _) => Forall (λ km, is_list_field km.2 = false) fs
       | Raise _ => True
       end.
Proof.
  cbn [form]. unfold convert_fields_with.
  destruct (if allow_pk then _ else _) as [mf|]; [|by eexists].
  destruct (convert_model_fields _ _ _ _ _) as [fd|e] eqn:H; [|by eexists].
  eexists. split; [reflexivity|]. cbn [run_bind].
  pose proof (convert_model_fields_members _ _ _ _ _ _ H) as Hmem.
  apply Forall_forall. intros [key m] Hin. simpl.
  assert ((key, m) ∈ fd → is_list_field m = false) as Hfd.
  { intros Hd. destruct (Hmem _ _ Hd) as [Hnil|[u ->]]; [|done].
    by apply elem_of_nil in Hnil. }
  destruct allow_delete; [|by apply Hfd].
  destruct (elem_of_dict_set _ _ _ _ Hin) as [[= -> ->]|?]; [done | by apply Hfd].
Qed.

(** *** Nesting *)

(** A form class generated at depth [d]: each of its list fields records
    depth [d + 1] and wraps the form of the model that holds the foreign key,
    which carries the flag [delete_] and is itself generated at depth
    [d + 1]. *)
#[local] Unset Elimination Schemes.
Inductive well_nested (schema : gmap string model_meta) : nat → form_class → Prop :=
  | well_nested_form d name fs m :
      (∀ key fk inner k, (key, ModelListField fk inner k) ∈ fs →
         k = S d ∧
         (∃ sub fs', schema !! fk_model_class fk = Some sub ∧
                     inner = FormClass (model_name sub +:+ "Form") fs' (model_name sub) ∧
                     ("delete_", DeleteFlag) ∈ fs') ∧
         well_nested schema (S d) inner) →
      well_nested schema d (FormClass name fs m).
#[local] Set Elimination Schemes.

(** Every form class [form] returns is named after its model, carries the
    flag [delete_] when asked to, and is well nested: each list field records
    its nesting level, counted from the [depth] the generation started at,
    and wraps a deletable form of the child model. *)
Theorem form_records_nesting_depth self schema fuel model allow_pk only exclude
    field_args allow_delete include_inlines depth fc :
  form self schema fuel model allow_pk only exclude field_args allow_delete
    include_inlines depth = Some (Ok fc) →
  (∃ fs, fc = FormClass (model_name model +:+ "Form") fs (model_name model) ∧
         (allow_delete = true → ("delete_", DeleteFlag) ∈ fs)) ∧
  well_nested schema depth fc.
Proof.
  revert model allow_pk only exclude field_args allow_delete include_inlines depth fc.
  induction fuel as [|fuel IH];
    intros model allow_pk only exclude field_args allow_delete include_inlines depth fc;
    [done|].
  cbn [form].
  destruct (convert_fields_with _ _ _ _ _ _ _ _ _ _) as [[fd|e]|] eqn:Hfd; [|done|done].
  cbn [run_bind]. intros [= <-]. split.
  { eexists. split; [done|]. intros ->. apply dict_set_same. }
  constructor. intros key fk inner k Hin.
  assert ((key, ModelListField fk inner k) ∈ fd) as Hd.
  { destruct allow_delete; [|done].
    by destruct (elem_of_dict_set _ _ _ _ Hin) as [[=]|?]. }
  clear Hin. unfold convert_fields_with in Hfd.
  destruct (if allow_pk then _ else _) as [mf|]; [|done].
  destruct (convert_model_fields _ _ _ _ _) as [fd1|e] eqn:H1; [|done].
  pose proof (convert_model_fields_members _ _ _ _ _ _ H1) as Hm1.
  assert ((key, ModelListField fk inner k) ∉ fd1) as Hnot.
  { intros H. destruct (Hm1 _ _ H) as [Hnil|[u [=]]]. by apply elem_of_nil in Hnil. }
  destruct include_inlines; [|by injection Hfd as ->].
  apply convert_inlines_members in Hfd as [_ Hm2].
  destruct (Hm2 _ _ Hd) as [?|(fk' & inner' & sub & so & se & fa & [= -> -> ->] & Hsub & Hform)];
    [done|].
  destruct (IH _ _ _ _ _ _ _ _ _ Hform) as [(fs' & -> & Hdel) Hwn].
  split_and!; [done | | done]. exists sub, fs'. auto.
Qed.

Lemma form_records_nesting_depth_witness :
  ∃ fc, model_form schema 3 Post None None true = Some (Ok fc) ∧
        well_nested schema 0 fc.
Proof.
  eexists. split; [vm_compute; reflexivity|].
  eapply (proj2 (form_records_nesting_depth (new_converter [] [] []) schema 3 Post false
           None None [] false true 0 _ eq_refl)).
Defined.

(** *** Empty lists *)

(** An [only] or [exclude] that is empty counts as not given. *)
Definition if_given (l : option (list string)) : option (list string) :=
  if given l then l else None.

Lemma convert_inlines_if_given schema (form : form_fn) only exclude depth inlines fd :
  convert_inlines schema form only exclude depth inlines fd =
  convert_inlines schema form (if_given only) (if_given exclude) depth inlines fd.
Proof.
  destruct only as [[|x l]|], exclude as [[|y l']|]; cbn [if_given given];
    try reflexivity;
    revert fd; induction inlines as [|[name fk] rest IH]; intros fd;
    try reflexivity; cbn [convert_inlines given];
    (destruct (schema !! fk_model_class fk) as [sub|]; [|done]);
    match goal with
    | |- run_bind ?c _ = _ =>
        destruct c as [[inner|e]|]; cbn [run_bind]; [apply IH | done | done]
    end.
Qed.

(** An empty [only] or [exclude] list generates the same form as leaving the
    argument out: [only=[]] gives the form of all fields, not a form without
    fields. *)
Theorem empty_only_and_exclude_are_ignored self schema fuel model allow_pk only exclude
    field_args allow_delete include_inlines depth :
  form self schema fuel model allow_pk only exclude field_args allow_delete
    include_inlines depth =
  form self schema fuel model allow_pk (if_given only) (if_given exclude) field_args
    allow_delete include_inlines depth.
Proof.
  destruct fuel as [|fuel]; [done|]. cbn [form]. f_equal.
  unfold convert_fields_with.
  destruct (if allow_pk then _ else _) as [mf|]; [|done].
  destruct only as [[|x l]|], exclude as [[|y l']|]; cbn [if_given given];
    try reflexivity;
    (destruct (convert_model_fields _ _ _ _ _); [|done]);
    (destruct include_inlines; [|done]);
    apply (convert_inlines_if_given schema (form self schema fuel)).
Qed.

End FormGeneration.

(** ** Properties of the form fields and widgets *)

Module FieldsSpec.
Import Fields.

(** *** Static attributes *)

Lemma static_call_cons k v attributes kwargs :
  StaticAttributesMixin_call ((k, v) :: attributes) kwargs =
    StaticAttributesMixin_call attributes
      (match kwargs !! k with
       | Some curr => <[k := v +:+ " " +:+ curr]> kwargs
       | None => kwargs
       end).
Proof. reflexivity. Qed.

(** The mixin rewrites attributes the caller passed and adds none: an
    attribute is among those it passes on exactly if the caller passed it,
    and one that is not among the static attributes is passed on as it is.
    So a date or time field rendered without a [class] gets no class. *)
Theorem static_attributes_never_added attributes kwargs key :
  (is_Some (StaticAttributesMixin_call attributes kwargs !! key)
     ↔ is_Some (kwargs !! key)) ∧
  (key ∉ attributes.*1 →
   StaticAttributesMixin_call attributes kwargs !! key = kwargs !! key).
Proof.
  revert kwargs. induction attributes as [|[k v] attributes IH]; intros kwargs.
  { done. }
  rewrite static_call_cons. destruct (IH
    (match kwargs !! k with
     | Some curr => <[k := v +:+ " " +:+ curr]> kwargs
     | None => kwargs
     end)) as [IH1 IH2]. split.
  - rewrite IH1. destruct (kwargs !! k) as [curr|] eqn:Hk; [|done].
    destruct (decide (k = key)) as [->|Hne].
    + rewrite lookup_insert_eq, Hk. split; eauto.
    + by rewrite lookup_insert_ne.
  - rewrite fmap_cons, not_elem_of_cons. intros [Hne Hnot].
    rewrite IH2 by done. destruct (kwargs !! k); [|done].
    by rewrite lookup_insert_ne.
Qed.

(** Inside a date-and-time field the static classes always apply: the date
    input is rendered with the class [date-widget], the caller's class and
    [datetime-widget], the time input likewise with [time-widget], and both
    with one and the same [id], the caller's or else the field's. *)
Theorem datetime_widget_classes field_id kwargs :
  ∃ date time,
    datetime_widget field_id kwargs = [date; time] ∧
    date !! "class"
      = Some ("date-widget " +:+ default "" (kwargs !! "class") +:+ " datetime-widget") ∧
    time !! "class"
      = Some ("time-widget " +:+ default "" (kwargs !! "class") +:+ " datetime-widget") ∧
    date !! "id" = Some (default field_id (kwargs !! "id")) ∧
    time !! "id" = Some (default field_id (kwargs !! "id")).
Proof.
  eexists _, _. split; [reflexivity|].
  set (k0 := setdefault (setdefault kwargs "id" field_id) "class" "").
  assert (k0 !! "class" = Some (default "" (kwargs !! "class"))) as Hc.
  { unfold k0, setdefault.
    destruct (kwargs !! "id") eqn:Hid.
    - destruct (kwargs !! "class") eqn:Hcl; [done|]. by rewrite lookup_insert_eq.
    - rewrite lookup_insert_ne by done.
      destruct (kwargs !! "class") eqn:Hcl; [by rewrite lookup_insert_ne|].
      by rewrite lookup_insert_eq. }
  assert (k0 !! "id" = Some (default field_id (kwargs !! "id"))) as Hi.
  { unfold k0, setdefault.
    destruct (kwargs !! "id") eqn:Hid.
    - destruct (kwargs !! "class") eqn:Hcl; [done|]. by rewrite lookup_insert_ne.
    - rewrite lookup_insert_ne by done.
      destruct (kwargs !! "class") eqn:Hcl; [by rewrite lookup_insert_eq|].
      rewrite lookup_insert_ne by done. by rewrite lookup_insert_eq. }
  unfold StaticAttributesMixin_call, WPDateField_attributes, WPTimeField_attributes.
  cbn [foldl fst snd]. rewrite lookup_insert_eq, Hc.
  rewrite !lookup_insert_eq. rewrite !lookup_insert_ne by done.
  by rewrite Hi.
Qed.

(** *** The table widget *)

Lemma prefix_app n a b :
  String.prefix n a = true → String.prefix n (a +:+ b) = true.
Proof.
  revert a. induction n as [|c n IH]; intros a; [intros _; by destruct a, b|].
  destruct a as [|c' a]; [done|]. simpl.
  destruct (Ascii.ascii_dec c c'); [apply IH | done].
Qed.

Lemma prefix_refl n : String.prefix n n = true.
Proof.
  induction n as [|c n IH]; [done|]. simpl. by destruct (Ascii.ascii_dec c c).
Qed.

Lemma contains_nil hay : OrmSpec.contains "" hay = true.
Proof. by destruct hay. Qed.

Lemma contains_refl n : OrmSpec.contains n n = true.
Proof.
  destruct n as [|c n]; [done|]. cbn [OrmSpec.contains]. by rewrite prefix_refl.
Qed.

Lemma contains_app_l n a b :
  OrmSpec.contains n a = true → OrmSpec.contains n (a +:+ b) = true.
Proof.
  induction a as [|c a IH].
  - simpl. destruct n; [intros _; apply contains_nil | done].
  - cbn [OrmSpec.contains]. intros [Hp|Hc]%orb_true_iff; apply orb_true_iff.
    + left. by apply (prefix_app _ (String c a)).
    + right. by apply IH.
Qed.

Lemma contains_app_r n a b :
  OrmSpec.contains n b = true → OrmSpec.contains n (a +:+ b) = true.
Proof.
  intros H. induction a as [|c a IH]; [done|].
  change (String c a +:+ b) with (String c (a +:+ b)).
  cbn [OrmSpec.contains]. rewrite IH. apply orb_true_r.
Qed.

Lemma append_empty x : x +:+ "" = x.
Proof.
  induction x as [|c x IH]; [done|].
  change (String c x +:+ "") with (String c (x +:+ "")). by rewrite IH.
Qed.

(** [''.join(html)] holds what one of the pieces holds. *)
Lemma contains_concat n piece html :
  piece ∈ html → OrmSpec.contains n piece = true →
  OrmSpec.contains n (String.concat "" html) = true.
Proof.
  intros Hin Hn. induction html as [|x html IH]; [by apply elem_of_nil in Hin|].
  assert (String.concat "" (x :: html) = x +:+ String.concat "" html) as ->.
  { destruct html; simpl; [by rewrite append_empty | done]. }
  apply elem_of_cons in Hin as [->|Hin].
  - by apply contains_app_l.
  - apply contains_app_r. by apply IH.
Qed.

Lemma contains_table_row n subfield hidden :
  OrmSpec.contains n hidden = true ∨ n = sf_html subfield →
  OrmSpec.contains n (table_row subfield hidden) = true.
Proof.
  intros H. unfold table_row.
  do 13 apply contains_app_r.
  destruct H as [H| ->].
  - by apply contains_app_l.
  - apply contains_app_r, contains_app_l, contains_refl.
Qed.

(** What the loop has gathered in [html] or in [hidden] is in what it
    returns, and so is the rendering of every sub-field it goes through. *)
Lemma table_rows_keep n subfields html hidden html' hidden' :
  table_rows subfields html hidden = (html', hidden') →
  (∃ piece, piece ∈ html ∧ OrmSpec.contains n piece = true) ∨
    OrmSpec.contains n hidden = true ∨
    (∃ sf, sf ∈ subfields ∧ n = sf_html sf) →
  (∃ piece, piece ∈ html' ∧ OrmSpec.contains n piece = true) ∨
    OrmSpec.contains n hidden' = true.
Proof.
  revert html hidden. induction subfields as [|sf rest IH]; intros html hidden.
  - intros [= <- <-] [H|[H|(sf & Hsf & _)]]; [by left | by right|].
    by apply elem_of_nil in Hsf.
  - cbn [table_rows]. destruct (bool_decide _); intros Hrun H; apply (IH _ _ Hrun).
    + destruct H as [H|[H|(sf' & Hsf & ->)]]; [by left | |].
      * right. left. by apply contains_app_l.
      * apply elem_of_cons in Hsf as [->|Hsf]; [|right; right; eauto].
        right. left. apply contains_app_r, contains_refl.
    + destruct H as [(piece & Hp & Hn)|[H|(sf' & Hsf & ->)]].
      * left. exists piece. split; [|done]. apply elem_of_app. by left.
      * left. exists (table_row sf hidden). split; [apply elem_of_app; right; left|].
        apply contains_table_row. by left.
      * apply elem_of_cons in Hsf as [->|Hsf]; [|right; right; eauto].
        left. exists (table_row sf hidden). split; [apply elem_of_app; right; left|].
        apply contains_table_row. by right.
Qed.

(** The table widget renders every sub-field: the rendering of each one,
    hidden or not, is part of the HTML returned (a hidden field's inside the
    row of the next visible field or, after the last visible field, behind
    the table). *)
Theorem table_widget_renders_every_subfield with_table_tag params subfields sf :
  sf ∈ subfields →
  OrmSpec.contains (sf_html sf)
    (StyleableTableWidget_call with_table_tag params subfields) = true.
Proof.
  intros Hin. unfold StyleableTableWidget_call.
  destruct (table_rows subfields _ "") as [html hidden] eqn:Hrun.
  destruct (table_rows_keep (sf_html sf) _ _ _ _ _ Hrun) as [(piece & Hp & Hn)|Hh].
  { right. right. eauto. }
  - apply (contains_concat _ piece); [|done].
    destruct (String.eqb hidden ""), with_table_tag;
      rewrite ?elem_of_app; auto.
  - destruct (String.eqb hidden "") eqn:Hempty.
    + apply String.eqb_eq in Hempty as ->.
      destruct (sf_html sf); [apply contains_nil | done].
    + apply (contains_concat _ hidden); [|done].
      apply elem_of_app. right. left.
Qed.

Definition csrf_token : subfield :=
  {| sf_type := "CSRFTokenField"; sf_short_name := "csrf_token"; sf_errors := [];
     sf_label := "<label>CSRF</label>"; sf_html := "<input type=hidden name=csrf_token>" |}.

Definition title_input : subfield :=
  {| sf_type := "TextField"; sf_short_name := "title"; sf_errors := ["Too long"];
     sf_label := "<label>Title</label>"; sf_html := "<input name=title>" |}.

Lemma table_widget_renders_every_subfield_witness :
  OrmSpec.contains "<input type=hidden name=csrf_token>"
    (StyleableTableWidget_call true "id=post" [title_input; csrf_token]) = true.
Proof.
  apply (table_widget_renders_every_subfield true "id=post" [title_input; csrf_token]
           csrf_token).
  right. left.
Defined.

(** *** The boolean select *)

(** Of the two choices the field offers exactly one is marked selected, and
    submitting the value of that choice gives the field the truth value of
    the data it was rendered from. *)
Theorem boolean_select_round_trip data old :
  ∃ v label selected,
    filter (λ c, truthy c.2 = true) (BooleanSelectField_iter_choices data)
      = [(v, label, selected)] ∧
    BooleanSelectField_process_formdata old [v] = BooleanSelectField_process_data data.
Proof.
  unfold BooleanSelectField_iter_choices, BooleanSelectField_process_data.
  rewrite !filter_cons, filter_nil. cbn [snd truthy].
  destruct (truthy data) eqn:E; cbn [negb].
  - rewrite decide_True by done. rewrite decide_False by done. by eexists _, _, _.
  - rewrite decide_False by done. rewrite decide_True by done. by eexists _, _, _.
Qed.

(** *** The select over declared choices *)

(** With [allow_blank] the first choice offered is the blank one, marked
    selected exactly when the data is [None]; submitting its value sets the
    data to [None] without calling the coercion, and [None] then passes
    [pre_validate] whether or not it is a declared choice. *)
Theorem blank_choice_round_trip self data valuelist :
  allow_blank self = true →
  (∃ rest e, SelectChoicesField_iter_choices self data
               = ((VStr "__None", blank_text self, bool_decide (data = VNone)) :: rest, e)) ∧
  SelectChoicesField_process_formdata self data ("__None" :: valuelist) = Returns VNone ∧
  SelectChoicesField_pre_validate self VNone = Returns tt.
Proof.
  intros Hblank. split_and!.
  - unfold SelectChoicesField_iter_choices. rewrite Hblank.
    destruct (yield_choices _ _ _) as [items e]. by eexists _, _.
  - done.
  - unfold SelectChoicesField_pre_validate. by rewrite Hblank.
Qed.

(** Coercion to an integer, as far as these examples need it. *)
Definition coerce_digit (v : value) : result value :=
  match v with
  | VStr "1" => Returns (VInt 1)
  | VStr "2" => Returns (VInt 2)
  | VInt z => Returns (VInt z)
  | VNone => Raises (TypeError "int() argument must be a string or a number")
  | _ => Raises (ValueError "invalid literal for int()")
  end.

Definition priority : SelectChoicesField :=
  SelectChoicesField_init coerce_digit [(VInt 1, "low"); (VInt 2, "high")] true "".

Lemma blank_choice_round_trip_witness :
  (SelectChoicesField_iter_choices priority (VInt 2)).1
    = [(VStr "__None", "----------------", false);
       (VInt 1, "low", false); (VInt 2, "high", true)] ∧
  SelectChoicesField_process_formdata priority (VInt 2) ["__None"] = Returns VNone ∧
  SelectChoicesField_pre_validate priority VNone = Returns tt.
Proof.
  destruct (blank_choice_round_trip priority (VInt 2) [] eq_refl) as (_ & H2 & H3).
  split_and!; [reflexivity | exact H2 | exact H3].
Defined.

(** Data that came from a submission and passed [pre_validate] is the
    coerced submitted string and equals the value of a declared choice, or it
    is [None] on a field that allows a blank. *)
Theorem validated_data_is_a_choice self data v valuelist x :
  SelectChoicesField_process_formdata self data (v :: valuelist) = Returns x →
  SelectChoicesField_pre_validate self x = Returns tt →
  (v = "__None" ∧ x = VNone ∨ coerce self (VStr v) = Returns x) ∧
  (allow_blank self = true ∧ x = VNone ∨
   ∃ c label, (c, label) ∈ choices self ∧ py_eqb x c = true).
Proof.
  unfold SelectChoicesField_process_formdata, SelectChoicesField_pre_validate.
  intros Hproc Hval. split.
  - destruct (String.eqb v "__None") eqn:Hv.
    + apply String.eqb_eq in Hv. injection Hproc as <-. by left.
    + right. destruct (coerce self (VStr v)) as [y|e]; [congruence|].
      by destruct (is_ValueError e).
  - destruct (allow_blank self && bool_decide (x = VNone)) eqn:Hb.
    + apply andb_true_iff in Hb as [? ?%bool_decide_eq_true]. by left.
    + right. destruct (existsb _ _) eqn:Hex; [|done].
      apply existsb_exists in Hex as ([c label] & Hin & Heq).
      exists c, label. split; [by apply list_elem_of_In | done].
Qed.

Lemma validated_data_is_a_choice_witness :
  SelectChoicesField_process_formdata priority VNone ["2"] = Returns (VInt 2) ∧
  (∃ c label, (c, label) ∈ choices priority ∧ py_eqb (VInt 2) c = true).
Proof.
  destruct (validated_data_is_a_choice priority VNone "2" [] (VInt 2) eq_refl eq_refl)
    as [_ [[_ [=]]|H]].
  split; [reflexivity | exact H].
Defined.

(** *** The select over a query *)

(** A submitted key that matches no row of the query is not reported as an
    invalid choice: the data becomes [None], which a field that allows a
    blank accepts without error and which any other field rejects as a blank
    selection. *)
Theorem unknown_key_counts_as_blank {obj} (self : SelectQueryField obj) st v valuelist :
  String.eqb v "__None" = false →
  query_get self v = DoesNotExist →
  SelectQueryField_pre_validate self (SelectQueryField_process_formdata st (v :: valuelist))
    = if sq_allow_blank self then Returns (_set_data None)
      else Raises (ValidationError "Selection cannot be blank").
Proof.
  intros Hne Hget.
  unfold SelectQueryField_process_formdata, SelectQueryField_pre_validate, _get_data,
    get_model.
  rewrite Hne. cbn [_formdata]. by rewrite Hget.
Qed.

(** A query over two authors, by key. *)
Definition authors (allow_blank : bool) : SelectQueryField string :=
  {| query_get := λ pk, if String.eqb pk "1" then Found "ann"
                        else if String.eqb pk "2" then Found "bob"
                        else DoesNotExist;
     query_exists := λ o, String.eqb o "ann" || String.eqb o "bob";
     sq_allow_blank := allow_blank |}.

Lemma unknown_key_counts_as_blank_witness :
  SelectQueryField_pre_validate (authors true)
    (SelectQueryField_process_formdata (_set_data None) ["7"])
    = Returns (_set_data None) ∧
  SelectQueryField_pre_validate (authors false)
    (SelectQueryField_process_formdata (_set_data None) ["7"])
    = Raises (ValidationError "Selection cannot be blank").
Proof.
  split.
  - apply (unknown_key_counts_as_blank (authors true) (_set_data None) "7" []);
      reflexivity.
  - apply (unknown_key_counts_as_blank (authors false) (_set_data None) "7" []);
      reflexivity.
Defined.

(** Once [pre_validate] has passed after a submission, the data has been
    looked up (no lookup is pending) and is a row the query returned for the
    submitted key and still holds, or it is [None] on a field that allows a
    blank; reading the data again makes no new lookup. *)
Theorem validated_row_is_in_the_query {obj} (self : SelectQueryField obj) st v valuelist st' :
  SelectQueryField_pre_validate self (SelectQueryField_process_formdata st (v :: valuelist))
    = Returns st' →
  _formdata st' = None ∧
  _get_data self st' = Returns (_data st', st') ∧
  match _data st' with
  | Some o => query_get self v = Found o ∧ query_exists self o = true
  | None => sq_allow_blank self = true
  end.
Proof.
  unfold SelectQueryField_process_formdata, SelectQueryField_pre_validate, _get_data,
    get_model.
  destruct (String.eqb v "__None"); cbn [_formdata _data _set_data].
  - destruct (sq_allow_blank self); [|done]. by intros [= <-].
  - destruct (query_get self v) as [o| |e]; [| |done].
    + destruct (query_exists self o) eqn:Hex; [|done]. by intros [= <-].
    + destruct (sq_allow_blank self); [|done]. by intros [= <-].
Qed.

Lemma validated_row_is_in_the_query_witness :
  ∃ st', SelectQueryField_pre_validate (authors false)
           (SelectQueryField_process_formdata (_set_data None) ["2"]) = Returns st' ∧
         _data st' = Some "bob" ∧ _formdata st' = None.
Proof.
  eexists. split; [reflexivity|].
  destruct (validated_row_is_in_the_query (authors false) (_set_data None) "2" [] _ eq_refl)
    as (H1 & _ & _).
  split; [reflexivity | exact H1].
Defined.

(** *** The multiple select over a query *)

Lemma filter_ext_in {A} (P Q : A → Prop) `{∀ x, Decision (P x)} `{∀ x, Decision (Q x)}
    (l : list A) :
  (∀ x, x ∈ l → P x ↔ Q x) → filter P l = filter Q l.
Proof.
  induction l as [|x l IH]; intros Hext; [done|].
  rewrite !filter_cons. rewrite IH by (intros y Hy; apply Hext; by right).
  destruct (decide (P x)) as [Hp|Hp], (decide (Q x)) as [Hq|Hq]; try done.
  - exfalso. apply Hq, Hext; [left | done].
  - exfalso. apply Hp, Hext; [left | done].
Qed.

(** Selecting by the keys of the rows a selection returned gives the same
    rows. *)
Lemma where_in_again {obj} (self : SelectMultipleQueryField obj) ids :
  where_in self (get_id self <$> where_in self ids) = where_in self ids.
Proof.
  unfold where_in. apply filter_ext_in. intros o Ho. split.
  - intros (o' & Hid & Ho')%list_elem_of_fmap.
    apply list_elem_of_filter in Ho' as [? _]. by rewrite Hid.
  - intros Hin. apply list_elem_of_fmap. exists o. split; [done|].
    by apply list_elem_of_filter.
Qed.

(** For submitted keys [pre_validate] never raises: the data is the rows of
    the query whose key was submitted, and a submitted key that matches no
    row is dropped without an error. *)
Theorem unknown_keys_are_dropped {obj} (self : SelectMultipleQueryField obj) st
    valuelist ids :
  valuelist ≠ [] →
  mapM (py_int self) valuelist = Some ids →
  (SelectMultipleQueryField_process_formdata self st valuelist).1 = None ∧
  SelectMultipleQueryField_pre_validate self
    (SelectMultipleQueryField_process_formdata self st valuelist).2
    = Returns {| m_data := Some (where_in self ids); m_formdata := None |}.
Proof.
  intros Hne Hids. unfold SelectMultipleQueryField_process_formdata.
  destruct valuelist as [|v vl]; [done|]. rewrite Hids. split; [done|].
  unfold SelectMultipleQueryField_pre_validate, m_get_data, get_model_list.
  cbn [snd m_formdata].
  assert (ids ≠ []) as Hids'.
  { apply length_mapM in Hids. by destruct ids. }
  destruct ids as [|i ids]; [done|].
  destruct (where_in self (i :: ids)) as [|o data] eqn:Hdata; [done|].
  rewrite <- Hdata, where_in_again, length_fmap.
  by rewrite bool_decide_eq_true_2.
Qed.

(** Three tags, by key. *)
Definition tags : SelectMultipleQueryField (Z * string) :=
  {| query := [(1, "red"); (2, "green"); (3, "blue")];
     get_id := fst;
     py_int := λ s, if String.eqb s "1" then Some 1
                    else if String.eqb s "3" then Some 3
                    else if String.eqb s "9" then Some 9
                    else None |}.

Lemma unknown_keys_are_dropped_witness :
  SelectMultipleQueryField_pre_validate tags
    (SelectMultipleQueryField_process_formdata tags
       {| m_data := None; m_formdata := None |} ["3"; "9"; "1"]).2
    = Returns {| m_data := Some [(1, "red"); (3, "blue")]; m_formdata := None |}.
Proof.
  destruct (unknown_keys_are_dropped tags {| m_data := None; m_formdata := None |}
              ["3"; "9"; "1"] [3; 9; 1]) as [_ H]; [done | reflexivity|].
  rewrite H. reflexivity.
Defined.

End FieldsSpec.
